(** * repackage.py: packaging a skill directory into a zip archive

    A shallow embedding of [skills/debug/repackage.py] and of the parts of
    [pathlib], [zipfile] and of the file system the script calls, followed by
    the properties of a run.

    The script is a straight line of file-system calls:
    resolve the paths, delete an old archive, open a new one inside a
    [with] block, walk the directory of the script, add every regular file
    whose name is not [repackage.py], close the archive.

    What the model takes from the libraries and the platform:
    - paths are absolute and lexical, as [pathlib] computes them, and there
      are no symbolic links; [pathlib] keeps a [..] component that
      [__file__] holds, where the system would follow it: a lookup follows
      none, so the model is that of a run started by a script path without
      one ([normalized]), which the properties on what a run finds at a path
      assume;
    - of the permissions, reading a file, listing a directory and creating or
      removing entries in a directory are modelled; the search permission
      on directories is taken as granted;
    - the device has a number of free bytes; a write that does not fit
      fills the device with the start of the data and raises
      [OSError(ENOSPC)], and the rest stays pending in the handle, so that
      every later write and the closing fail in the same way; a write that
      fits is on the device at once;
    - standard output takes every line that is printed, time stamps are of
      1980 or later and names can be encoded: [print] raises nothing, and
      [zf.write] raises no [ValueError];
    - nothing else touches the tree while the script runs. *)

From Stdlib Require Import List String Ascii Bool Arith Lia.
Import ListNotations.

Local Open Scope string_scope.
Local Open Scope list_scope.

Infix "+++" := String.append (at level 60, right associativity).

(** ** Paths

    [__file__] of a script run as [python repackage.py] is an absolute path
    (Python 3.9 and later), so a [Path] is the list of its components below
    the root [/]; the root itself is [[]].  An archive name ([arcname]) is a
    relative path, again a list of components. *)

Definition Path := list string.

(** [p.parent]: the root is its own parent. *)
Definition parent (p : Path) : Path := removelast p.

(** [p.name]: the last component, and the empty string for the root. *)
Definition name (p : Path) : string := last p "".

(** [p / s] for a string [s] holding at most one component: joining the
    empty string changes nothing. *)
Definition truediv (p : Path) (s : string) : Path :=
  if String.eqb s "" then p else p ++ [s].

(** [str(p)] of a relative path and of an absolute one. *)
Definition str (p : Path) : string :=
  match p with
  | [] => "."
  | _ => String.concat "/" p
  end.

Definition absolute (p : Path) : string := "/" +++ String.concat "/" p.

(** ** Exceptions *)

Inductive exn :=
| PermissionError (p : Path)
| FileNotFoundError (p : Path)
| NotADirectoryError (p : Path)
| IsADirectoryError (p : Path)
| NoSpaceError                  (* OSError(ENOSPC) *)
| ValueError.

Inductive result (A : Type) :=
| Return (a : A)
| Raise (e : exn).
Arguments Return {A} a.
Arguments Raise {A} e.

(** [p.relative_to(base)] raises [ValueError] when [base] is not a prefix
    of [p]. *)
Fixpoint relative_to (p base : Path) {struct base} : result Path :=
  match base with
  | [] => Return p
  | b :: base' =>
      match p with
      | [] => Raise ValueError
      | c :: p' => if String.eqb b c then relative_to p' base' else Raise ValueError
      end
  end.

(** ** The file system

    A tree of directories, regular files and other entries (sockets,
    FIFOs, devices).  A directory lists its entries in the order [scandir]
    reports them.  Of the permission bits the model keeps those the script
    can run into: whether a file can be read, whether a directory can be
    listed, and whether entries can be created in or removed from it. *)

Definition bytes := list Byte.byte.

#[warnings="-register-all"]
Inductive node :=
| File (readable : bool) (data : bytes)
| Dir (listable writable : bool) (children : list (string * node))
| Other.

Fixpoint assoc (k : string) (ch : list (string * node)) : option node :=
  match ch with
  | [] => None
  | (k', m) :: ch' => if String.eqb k' k then Some m else assoc k ch'
  end.

(** The entry at a path.  Every component is taken as the name of a
    directory entry: a [..] is looked up like any other name, and not
    followed. *)
Fixpoint lookup (n : node) (p : Path) : option node :=
  match p with
  | [] => Some n
  | c :: p' =>
      match n with
      | Dir _ _ ch =>
          match assoc c ch with
          | Some m => lookup m p'
          | None => None
          end
      | _ => None
      end
  end.

(** [update_entry c g ch] applies [g] to the entry named [c], the one
    [assoc] finds. *)
Fixpoint update_entry (c : string) (g : node -> node)
  (ch : list (string * node)) : list (string * node) :=
  match ch with
  | [] => []
  | (k, m) :: ch' =>
      if String.eqb k c then (k, g m) :: ch'
      else (k, m) :: update_entry c g ch'
  end.

(** [update_dir f n d] rewrites the entry list of the directory at [d]. *)
Fixpoint update_dir (f : list (string * node) -> list (string * node))
  (n : node) (d : Path) : node :=
  match d with
  | [] =>
      match n with
      | Dir l w ch => Dir l w (f ch)
      | _ => n
      end
  | c :: d' =>
      match n with
      | Dir l w ch => Dir l w (update_entry c (fun m => update_dir f m d') ch)
      | _ => n
      end
  end.

Definition remove_entry (c : string) (ch : list (string * node)) :=
  filter (fun kv => negb (String.eqb (fst kv) c)) ch.

Definition set_data (d : bytes) (m : node) : node :=
  match m with
  | File r _ => File r d
  | _ => m
  end.

Definition set_entry_data (c : string) (d : bytes) (ch : list (string * node)) :=
  update_entry c (set_data d) ch.

Definition add_entry (c : string) (m : node) (ch : list (string * node)) :=
  ch ++ [(c, m)].

(** Bytes an entry occupies on the device. *)
Definition size (m : node) : nat :=
  match m with
  | File _ d => List.length d
  | _ => 0
  end.

(** [p.is_file()], [p.is_dir()], [p.exists()] *)
Definition is_file_node (m : option node) : bool :=
  match m with
  | Some (File _ _) => true
  | _ => false
  end.

Definition is_dir_node (m : option node) : bool :=
  match m with
  | Some (Dir _ _ _) => true
  | _ => false
  end.

Definition exists_node (m : option node) : bool :=
  match m with
  | Some _ => true
  | None => false
  end.

(** [d.rglob('*')]: every entry below [d], at any depth.  [pathlib] lists a
    directory with [scandir] and suppresses the error of a directory that
    cannot be listed: it yields nothing for it.  The entries of a directory
    come first, then those of its subdirectories in turn (the order of
    CPython 3.8 to 3.11; nothing below depends on the order). *)
Fixpoint rglob_from (d : Path) (n : node) : list Path :=
  match n with
  | Dir true _ ch =>
      map (fun kv : string * node => d ++ [fst kv]) ch
      ++ flat_map (fun kv : string * node =>
                     let (k, m) := kv in rglob_from (d ++ [k]) m) ch
  | _ => []
  end.

Definition rglob (root : node) (d : Path) : list Path :=
  match lookup root d with
  | Some n => rglob_from d n
  | None => []
  end.

(** ** The archive object, the state of a run and its trace *)

(** An archive entry: the name it is stored under and the bytes read from
    the file. *)
Definition entry := (Path * bytes)%type.

(** The fields of a [zipfile.ZipFile] object that the script reaches. *)
Record ZipFile := mkZipFile {
  filename : Path;
  filelist : list entry;   (* the entries added so far, in order *)
  fp : bool;               (* true while the file handle is open *)
  end_record : bool;       (* the central directory and end record are on disk *)
  pending : bool           (* bytes that did not fit are held back in the handle *)
}.

Record state := mkState {
  fs : node;               (* the root directory *)
  free : nat;              (* free bytes on the device *)
  zf : option ZipFile      (* the variable [zf]; unbound before the [with] *)
}.

(** What the process does to the outside world, in order. *)
Inductive call :=
| Unlink (p : Path)
| Open (p : Path)
| ReadFile (p : Path)
| WriteEntry (arcname : Path)
| EndRecord
| CloseFp
| Print (s : string).

Record event := Ev { ev_call : call; ev_err : option exn }.

Record outcome (A : Type) := mkOutcome {
  res : result A;
  post : state;
  trace : list event
}.
Arguments mkOutcome {A} res post trace.
Arguments res {A} o.
Arguments post {A} o.
Arguments trace {A} o.

(** Computations: state passing, an exception or a value, and the trace.
    The state reached when an exception is raised is kept. *)
Definition M (A : Type) := state -> outcome A.

Definition ret {A} (a : A) : M A := fun s => mkOutcome (Return a) s [].

Definition raise {A} (e : exn) : M A := fun s => mkOutcome (Raise e) s [].

Definition bind {A B} (m : M A) (f : A -> M B) : M B := fun s =>
  let o := m s in
  match res o with
  | Return a =>
      let o' := f a (post o) in
      mkOutcome (res o') (post o') (trace o ++ trace o')
  | Raise e => mkOutcome (Raise e) (post o) (trace o)
  end.

Notation "x <- c ;; k" := (bind c (fun x => k))
  (at level 61, c at next level, right associativity).
Notation "c ;; k" := (bind c (fun _ => k))
  (at level 61, right associativity).

Definition get : M state := fun s => mkOutcome (Return s) s [].
Definition put (s : state) : M unit := fun _ => mkOutcome (Return tt) s [].
Definition emit (c : call) (r : option exn) : M unit :=
  fun s => mkOutcome (Return tt) s [Ev c r].

(** A call that fails: it is recorded and its exception is raised. *)
Definition fail {A} (c : call) (e : exn) : M A :=
  fun s => mkOutcome (Raise e) s [Ev c (Some e)].

Definition lift {A} (r : result A) : M A :=
  match r with
  | Return a => ret a
  | Raise e => raise e
  end.

(** [try: m finally: fin] *)
Definition finally {A} (m : M A) (fin : M unit) : M A := fun s =>
  let o := m s in
  let o' := fin (post o) in
  mkOutcome (match res o' with
             | Raise e => Raise e
             | Return _ => res o
             end)
            (post o') (trace o ++ trace o').

(** [for x in l: f x] *)
Fixpoint for_each {A} (l : list A) (f : A -> M unit) : M unit :=
  match l with
  | [] => ret tt
  | x :: l' => f x ;; for_each l' f
  end.

(** The exit status of the interpreter: 1 after an uncaught exception. *)
Definition exit_status {A} (r : result A) : nat :=
  match r with
  | Return _ => 0
  | Raise _ => 1
  end.

(** ** File-system calls *)

(** [print(s)]: the line goes to standard output, which takes it. *)
Definition print (s : string) : M unit := emit (Print s) None.

Definition path_exists (p : Path) : M bool :=
  s <- get ;; ret (exists_node (lookup (fs s) p)).

Definition path_is_file (p : Path) : M bool :=
  s <- get ;; ret (is_file_node (lookup (fs s) p)).

Definition path_rglob (d : Path) : M (list Path) :=
  s <- get ;; ret (rglob (fs s) d).

(** [p.unlink()]: removing an entry needs write permission on its
    directory, which is checked before the kind of the entry, and gives its
    bytes back to the device; a directory cannot be unlinked
    ([IsADirectoryError], as on Linux). *)
Definition unlink (p : Path) : M unit :=
  s <- get ;;
  match lookup (fs s) (parent p) with
  | Some (Dir _ w ch) =>
      match assoc (name p) ch with
      | None => fail (Unlink p) (FileNotFoundError p)
      | Some m =>
          if w then
            match m with
            | Dir _ _ _ => fail (Unlink p) (IsADirectoryError p)
            | _ =>
                put (mkState (update_dir (remove_entry (name p)) (fs s)
                                         (parent p))
                             (free s + size m) (zf s)) ;;
                emit (Unlink p) None
            end
          else fail (Unlink p) (PermissionError p)
      end
  | Some _ => fail (Unlink p) (NotADirectoryError p)
  | None => fail (Unlink p) (FileNotFoundError p)
  end.

(** The bytes the file at [p] can hold: those it has and those that are
    free. *)
Definition room (s : state) (p : Path) : nat :=
  free s + match lookup (fs s) p with
           | Some m => size m
           | None => 0
           end.

(** Replacing the bytes of the file at [p] by [d]: the device must hold the
    growth. *)
Definition fits (s : state) (p : Path) (d : bytes) : bool :=
  Nat.leb (List.length d)
          (free s + match lookup (fs s) p with
                    | Some m => size m
                    | None => 0
                    end).

Definition stored (s : state) (p : Path) (d : bytes) (z : ZipFile) : state :=
  mkState (update_dir (set_entry_data (name p) d) (fs s) (parent p))
          (free s + match lookup (fs s) p with
                    | Some m => size m
                    | None => 0
                    end - List.length d)
          (Some z).

(** A write of [d] that does not fit: the file is left with as much of [d]
    as the device holds. *)
Definition cut_short (s : state) (p : Path) (d : bytes) (z : ZipFile) : state :=
  stored s p (firstn (room s p) d) z.

Section Archive.

(** The on-disk layout of an archive is left open: [body l] stands for the
    local headers and deflated data of the entries [l], and [trailer l] for
    the central directory and end record that [close] appends. *)
Variables body trailer : list entry -> bytes.

(** [zipfile.ZipFile(p, 'w', ZIP_DEFLATED)]: the file is created empty,
    which needs write permission on the directory (a path that exists
    already is truncated; the script has unlinked it by then). *)
Definition ZipFile_open (p : Path) : M unit :=
  s <- get ;;
  match lookup (fs s) (parent p) with
  | Some (Dir _ w ch) =>
      match assoc (name p) ch with
      | Some (Dir _ _ _) => fail (Open p) (IsADirectoryError p)
      | Some m =>
          put (mkState (update_dir (set_entry_data (name p) []) (fs s) (parent p))
                       (free s + size m)
                       (Some (mkZipFile p [] true false false))) ;;
          emit (Open p) None
      | None =>
          if w then
            put (mkState (update_dir (add_entry (name p) (File true []))
                                     (fs s) (parent p))
                         (free s)
                         (Some (mkZipFile p [] true false false))) ;;
            emit (Open p) None
          else fail (Open p) (PermissionError p)
      end
  | Some _ => fail (Open p) (NotADirectoryError p)
  | None => fail (Open p) (FileNotFoundError p)
  end.

(** [zf.write(file_path, arcname)]: the file is opened and read, then the
    entry is written; an entry that does not fit is not recorded, and what
    of it could not be written stays pending.  The loop passes regular files
    only. *)
Definition zf_write (file_path arcname : Path) : M unit :=
  s <- get ;;
  match zf s with
  | Some z =>
      if fp z then
        match lookup (fs s) file_path with
        | Some (File true d) =>
            emit (ReadFile file_path) None ;;
            let l := filelist z ++ [(arcname, d)] in
            if pending z then fail (WriteEntry arcname) NoSpaceError
            else if fits s (filename z) (body l) then
              put (stored s (filename z) (body l)
                          (mkZipFile (filename z) l true false false)) ;;
              emit (WriteEntry arcname) None
            else
              put (cut_short s (filename z) (body l)
                             (mkZipFile (filename z) (filelist z) true false
                                        true)) ;;
              fail (WriteEntry arcname) NoSpaceError
        | Some (File false _) =>
            fail (ReadFile file_path) (PermissionError file_path)
        | Some _ => fail (ReadFile file_path) (IsADirectoryError file_path)
        | None => fail (ReadFile file_path) (FileNotFoundError file_path)
        end
      else raise ValueError
  | None => raise ValueError
  end.

(** [zf.close()]: the end record is written, and the handle is released in
    a [finally] clause whether that worked or not.  Writing the end record
    fails when it does not fit, and when bytes of an earlier write are
    pending: they would have to be written first, and the device is full. *)
Definition zf_close : M unit :=
  s <- get ;;
  match zf s with
  | Some z =>
      if fp z then
        let l := filelist z in
        if pending z then
          put (mkState (fs s) (free s)
                       (Some (mkZipFile (filename z) l false false true))) ;;
          emit EndRecord (Some NoSpaceError) ;;
          emit CloseFp None ;;
          raise NoSpaceError
        else if fits s (filename z) (body l ++ trailer l) then
          put (stored s (filename z) (body l ++ trailer l)
                      (mkZipFile (filename z) l false true false)) ;;
          emit EndRecord None ;;
          emit CloseFp None
        else
          put (cut_short s (filename z) (body l ++ trailer l)
                         (mkZipFile (filename z) l false false true)) ;;
          emit EndRecord (Some NoSpaceError) ;;
          emit CloseFp None ;;
          raise NoSpaceError
      else ret tt
  | None => ret tt
  end.

(** [with zipfile.ZipFile(p, 'w', ZIP_DEFLATED) as zf: block] *)
Definition with_ZipFile (p : Path) (block : M unit) : M unit :=
  ZipFile_open p ;;
  finally block zf_close.

(** ** The script *)

Definition nl : string := String "010"%char "".

Definition script_dir (file : Path) : Path := parent file.
Definition skill_name (file : Path) : string := name (script_dir file).
Definition zip_path (file : Path) : Path :=
  truediv (parent (script_dir file)) (skill_name file +++ ".zip").

(** The body of the loop. *)
Definition add_file (file : Path) (file_path : Path) : M unit :=
  isf <- path_is_file file_path ;;
  if isf && negb (String.eqb (name file_path) "repackage.py") then
    arcname <- lift (relative_to file_path (parent (script_dir file))) ;;
    zf_write file_path arcname ;;
    print ("  Added: " +++ str arcname)
  else ret tt.

Definition remove_old (file : Path) : M unit :=
  ex <- path_exists (zip_path file) ;;
  if ex then
    unlink (zip_path file) ;;
    print ("Removed old: " +++ name (zip_path file))
  else ret tt.

(** The [with] block.  [rglob] is a generator, but during the loop the
    script changes the bytes of the archive only, never which entries
    exist, so the paths it yields are those of the tree as the loop
    starts. *)
Definition package (file : Path) : M unit :=
  with_ZipFile (zip_path file)
    (ps <- path_rglob (script_dir file) ;;
     for_each ps (add_file file)).

(** The module body; [file] is [__file__]. *)
Definition main (file : Path) : M unit :=
  remove_old file ;;
  print ("Packaging skill: " +++ skill_name file +++ nl) ;;
  package file ;;
  print (nl +++ "✅ Successfully packaged to: " +++ absolute (zip_path file)).

(** A run of the script on a machine: no [zf] is bound at the start. *)
Definition run (file : Path) (root : node) (space : nat) : outcome unit :=
  main file (mkState root space None).

End Archive.

(** ** Notions the properties are stated with *)

(** The entries of the archive a run leaves behind, and their names. *)
Definition archive (o : outcome unit) : list entry :=
  match zf (post o) with
  | Some z => filelist z
  | None => []
  end.

Definition namelist (o : outcome unit) : list Path := map fst (archive o).

(** The test of the loop: a regular file that is not called [repackage.py]. *)
Definition qualifies (root : node) (p : Path) : bool :=
  is_file_node (lookup root p) && negb (String.eqb (name p) "repackage.py").

(** A file system names every entry of a directory once. *)
Fixpoint nodupb (l : list string) : bool :=
  match l with
  | [] => true
  | x :: l' => negb (existsb (String.eqb x) l') && nodupb l'
  end.

Fixpoint wf (n : node) : bool :=
  match n with
  | Dir _ _ ch =>
      nodupb (map fst ch)
      && forallb (fun kv : string * node => let (_, m) := kv in wf m) ch
  | _ => true
  end.

(** Every directory of the tree can be listed. *)
Fixpoint all_listable (n : node) : bool :=
  match n with
  | Dir l _ ch =>
      l && forallb (fun kv : string * node => let (_, m) := kv in all_listable m) ch
  | _ => true
  end.

Definition listable_below (root : node) (d : Path) : bool :=
  match lookup root d with
  | Some n => all_listable n
  | None => true
  end.

(** What a scan of [d] can find: an entry strictly below [d] such that
    every directory from [d] down to the one holding it can be listed. *)
Definition found (root : node) (d p : Path) : Prop :=
  exists r, r <> [] /\ p = d ++ r /\ lookup root p <> None /\
    forall q q', r = q ++ q' -> q' <> [] ->
      exists w ch, lookup root (d ++ q) = Some (Dir true w ch).

(** The tree as the walk sees it: the old archive is gone and the new one
    has just been created, empty. *)
Definition scan_fs (file : Path) (root : node) : node :=
  update_dir (add_entry (name (zip_path file)) (File true []))
    (update_dir (remove_entry (name (zip_path file))) root
       (parent (zip_path file)))
    (parent (zip_path file)).

(** ** Extraction

    [ZipFile.extractall] into a directory: for each entry the missing
    directories are created and the file is written, replacing a file of the
    same name.  It fails when a directory is in the way of a file or a file in
    the way of a directory. *)
Fixpoint extract_one (n : node) (a : Path) (d : bytes) : option node :=
  match a with
  | [] => None
  | c :: a' =>
      match n with
      | Dir l w ch =>
          match a' with
          | [] =>
              match assoc c ch with
              | None => Some (Dir l w (add_entry c (File true d) ch))
              | Some (File _ _) =>
                  Some (Dir l w (update_entry c (fun _ => File true d) ch))
              | Some _ => None
              end
          | _ :: _ =>
              match assoc c ch with
              | None =>
                  match extract_one (Dir true true []) a' d with
                  | Some m => Some (Dir l w (add_entry c m ch))
                  | None => None
                  end
              | Some m =>
                  match extract_one m a' d with
                  | Some m' => Some (Dir l w (update_entry c (fun _ => m') ch))
                  | None => None
                  end
              end
          end
      | _ => None
      end
  end.

Fixpoint extractall (l : list entry) (n : node) : option node :=
  match l with
  | [] => Some n
  | (a, d) :: l' =>
      match extract_one n a d with
      | Some n' => extractall l' n'
      | None => None
      end
  end.

(** ** Auxiliary notions *)

(** The permission and bytes of a regular file. *)
Definition file_of (m : option node) : option (bool * bytes) :=
  match m with
  | Some (File r d) => Some (r, d)
  | _ => None
  end.

(** A rewriting of entry lists that leaves every name but [c] alone. *)
Definition keeps_others (c : string)
  (f : list (string * node) -> list (string * node)) : Prop :=
  forall k ch, k <> c -> assoc k (f ch) = assoc k ch.

(** Two trees that differ at most in the bytes of the file at [zp]. *)
Definition same_files (zp : Path) (n n' : node) : Prop :=
  (forall q, is_file_node (lookup n' q) = is_file_node (lookup n q))
  /\ (forall q, q <> zp -> file_of (lookup n' q) = file_of (lookup n q)).

(** The archive file is in place at [zp]; without it the tree is [fsA], and
    its bytes are taken from the [freeA] bytes that were free before. *)
Definition on_disk (zp : Path) (fsA : node) (freeA : nat) (s : state) : Prop :=
  (exists b, lookup (fs s) zp = Some (File true b)
             /\ free s + List.length b = freeA)
  /\ update_dir (remove_entry (name zp)) (fs s) (parent zp) = fsA.

(** The entry [e] is what the loop adds for the file [p]: its name is the
    path of [p] below [base], and its bytes are those of [p]. *)
Definition added (base zp : Path) (scan : node) (p : Path) (e : entry) : Prop :=
  p = base ++ fst e
  /\ qualifies scan p = true
  /\ (p <> zp -> file_of (lookup scan p) = Some (true, snd e)).

(** The calls of the loop. *)
Definition loop_call (c : call) : Prop :=
  match c with
  | ReadFile _ | WriteEntry _ | Print _ => True
  | _ => False
  end.

Definition loop_ok (ev : event) : Prop :=
  ev_err ev = None /\ loop_call (ev_call ev).

(** The calls of [zf.write]: reading the file and writing its entry. *)
Definition write_call (c : call) : Prop :=
  match c with
  | ReadFile _ | WriteEntry _ => True
  | _ => False
  end.

(** How an archiving step that got to open the archive ends.
    [ending ps ps1 fin r t]: of the paths [ps] of the walk the loop got
    through [ps1] (all of them unless a call failed), the end record was
    written ([fin]) or not, and [r] and [t] are the result and the last
    events of the step. *)
Inductive ending (ps : list Path) :
  list Path -> bool -> result unit -> list event -> Prop :=
| ending_done :
    ending ps ps true (Return tt) [Ev EndRecord None; Ev CloseFp None]
| ending_full :
    ending ps ps false (Raise NoSpaceError)
      [Ev EndRecord (Some NoSpaceError); Ev CloseFp None]
| ending_abort ps1 p ps2 c e :
    ps = ps1 ++ p :: ps2 -> loop_call c ->
    ending ps ps1 true (Raise e)
      [Ev c (Some e); Ev EndRecord None; Ev CloseFp None]
| ending_abort_full ps1 p ps2 c e :
    ps = ps1 ++ p :: ps2 -> loop_call c ->
    ending ps ps1 false (Raise NoSpaceError)
      [Ev c (Some e); Ev EndRecord (Some NoSpaceError); Ev CloseFp None].

(** The start of a run: there is no old archive, or it is deleted.
    [removal zp root space fsA freeA t]: the tree and the free space after
    that step, and its events. *)
Inductive removal (zp : Path) (root : node) (space : nat) :
  node -> nat -> list event -> Prop :=
| removal_none :
    lookup root zp = None ->
    removal zp root space root space []
| removal_done m l ch :
    lookup root zp = Some m ->
    lookup root (parent zp) = Some (Dir l true ch) ->
    removal zp root space
      (update_dir (remove_entry (name zp)) root (parent zp))
      (space + size m)
      [Ev (Unlink zp) None; Ev (Print ("Removed old: " +++ name zp)) None].

(** The two lines the script prints around the archiving step. *)
Definition packaging_line (file : Path) : event :=
  Ev (Print ("Packaging skill: " +++ skill_name file +++ nl)) None.

Definition success_line (file : Path) : event :=
  Ev (Print (nl +++ "✅ Successfully packaged to: " +++ absolute (zip_path file)))
     None.

Definition last_line (file : Path) (r : result unit) : list event :=
  match r with
  | Return _ => [success_line file]
  | Raise _ => []
  end.

(** A run that got to open the archive. *)
Definition packaged (file : Path) (root : node) (o : outcome unit)
  (fsA : node) (freeA : nat) (pre : list event) : Prop :=
  exists l ch ps1 fin t tail,
    lookup fsA (parent (zip_path file)) = Some (Dir l true ch)
    /\ assoc (name (zip_path file)) ch = None
    /\ zf (post o)
       = Some (mkZipFile (zip_path file) (archive o) false fin (negb fin))
    /\ on_disk (zip_path file) fsA freeA (post o)
    /\ same_files (zip_path file) (scan_fs file root) (fs (post o))
    /\ Forall2 (added (parent (script_dir file)) (zip_path file)
                      (scan_fs file root))
               (filter (qualifies (scan_fs file root)) ps1) (archive o)
    /\ Forall loop_ok t
    /\ ending (rglob (scan_fs file root) (script_dir file)) ps1 fin (res o) tail
    /\ trace o = pre ++ [packaging_line file; Ev (Open (zip_path file)) None]
                     ++ t ++ tail ++ last_line file (res o).

(** A stand-in layout of the archive file for concrete runs: the data of
    the entries back to back, and a two-byte end record. *)
Definition demo_body (l : list entry) : bytes := List.concat (map snd l).
Definition demo_trailer (l : list entry) : bytes := [Byte.x50; Byte.x4b].

(** The tree of the usage example, [/x/debug] holding [a.txt], [b/c.txt] and
    the script, with a second [repackage.py] in [b]. *)
Definition demo_file : Path := ["x"; "debug"; "repackage.py"].

Definition demo_tree : node :=
  Dir true true
    [("x", Dir true true
       [("debug", Dir true true
          [("a.txt", File true [Byte.x61]);
           ("b", Dir true true
              [("c.txt", File true [Byte.x62; Byte.x63]);
               ("repackage.py", File true [Byte.x23])]);
           ("repackage.py", File true [Byte.x23; Byte.x21])])])].

(** The source directory with an unreadable file next to a readable one,
    and the source directory made unlistable. *)
Definition demo_tree_unreadable : node :=
  Dir true true
    [("x", Dir true true
       [("debug", Dir true true
          [("a.txt", File true [Byte.x61]);
           ("b.txt", File false [Byte.x62; Byte.x63]);
           ("repackage.py", File true [Byte.x23; Byte.x21])])])].

Definition demo_tree_unlistable : node :=
  Dir true true
    [("x", Dir true true
       [("debug", Dir false true
          [("a.txt", File true [Byte.x61]);
           ("repackage.py", File true [Byte.x23; Byte.x21])])])].

(** The source directory with a subdirectory that cannot be listed. *)
Definition demo_tree_hidden : node :=
  Dir true true
    [("x", Dir true true
       [("debug", Dir true true
          [("a.txt", File true [Byte.x61]);
           ("secret", Dir false true [("k.txt", File true [Byte.x6b])]);
           ("repackage.py", File true [Byte.x23; Byte.x21])])])].

(** The source directory holding the script only, and holding nothing. *)
Definition demo_tree_script_only : node :=
  Dir true true
    [("x", Dir true true
       [("debug", Dir true true
          [("repackage.py", File true [Byte.x23; Byte.x21])])])].

Definition demo_tree_empty : node :=
  Dir true true [("x", Dir true true [("debug", Dir true true [])])].

(** The source directory is missing or cannot be listed. *)
Definition source_unreadable (root : node) (d : Path) : Prop :=
  match lookup root d with
  | Some (Dir true _ _) => False
  | _ => True
  end.

(** Calls that neither delete nor create a file, and the calls of
    [close]. *)
Definition inner_call (c : call) : Prop :=
  match c with
  | Unlink _ | Open _ => False
  | _ => True
  end.

Definition inner (ev : event) : Prop := inner_call (ev_call ev).

Definition closing (ev : event) : Prop :=
  ev_call ev = EndRecord \/ ev_call ev = CloseFp.

Definition succeeded (ev : event) : Prop := ev_err ev = None.

(** Notions for extraction: what may lie on the way to a file that is
    created, names none of which continues another, and the tree that
    extracting the entries [done] has built. *)
Definition dir_or_absent (m : option node) : Prop :=
  match m with
  | None | Some (Dir _ _ _) => True
  | _ => False
  end.

Definition prefix_free (ns : list Path) : Prop :=
  forall a b x, In a ns -> In b ns -> b = a ++ x -> x = [].

Definition extracted (t : node) (done : list entry) : Prop :=
  is_dir_node (Some t) = true
  /\ (forall q m, lookup t q = Some m ->
        q = []
        \/ (exists d, m = File true d /\ In (q, d) done)
        \/ (is_dir_node (Some m) = true
            /\ exists b x, In b (map fst done) /\ b = q ++ x /\ x <> []))
  /\ (forall q d, In (q, d) done -> lookup t q = Some (File true d)).

(** Names of directory entries hold no slash. *)
Fixpoint no_slash (s : string) : bool :=
  match s with
  | EmptyString => true
  | String c s' => negb (Ascii.eqb c "/") && no_slash s'
  end.

Fixpoint names_ok (n : node) : bool :=
  match n with
  | Dir _ _ ch =>
      forallb (fun kv : string * node =>
                 let (k, m) := kv in no_slash k && names_ok m) ch
  | _ => true
  end.

(** The regular file at [q] holds the bytes [d]. *)
Definition content_at (t : node) (q : Path) (d : bytes) : Prop :=
  exists rd, lookup t q = Some (File rd d).

(** ** The output, the files read and the bytes on disk *)

(** The lines a run prints and the files it reads, in order. *)
Definition printed (t : list event) : list string :=
  flat_map (fun ev => match ev_call ev with
                      | Print s => [s]
                      | _ => []
                      end) t.

Definition reads (t : list event) : list Path :=
  flat_map (fun ev => match ev_call ev with
                      | ReadFile p => [p]
                      | _ => []
                      end) t.

Definition added_line (arcname : Path) : string := "  Added: " +++ str arcname.

(** The events of a turn of the loop that adds the entry [e]. *)
Definition turn (base : Path) (e : entry) : list event :=
  [Ev (ReadFile (base ++ fst e)) None;
   Ev (WriteEntry (fst e)) None;
   Ev (Print (added_line (fst e))) None].

(** The destination can be written: its directory is there and entries can
    be created in and removed from it, and no directory lies at the path of
    the archive.  Otherwise, the error of [unlink] or of [ZipFile]. *)
Definition destination_ok (root : node) (zp : Path) : bool :=
  match lookup root (parent zp) with
  | Some (Dir _ true _) => negb (is_dir_node (lookup root zp))
  | _ => false
  end.

Definition destination_error (root : node) (zp : Path) : exn :=
  match lookup root (parent zp) with
  | Some (Dir _ w _) =>
      if w && is_dir_node (lookup root zp) then IsADirectoryError zp
      else PermissionError zp
  | Some _ => NotADirectoryError zp
  | None => FileNotFoundError zp
  end.

(** The bytes the old archive gives back when it is deleted. *)
Definition old_size (root : node) (zp : Path) : nat :=
  match lookup root zp with
  | Some m => size m
  | None => 0
  end.

Definition readable (t : node) (p : Path) : bool :=
  match lookup t p with
  | Some (File r _) => r
  | _ => false
  end.

(** The entries of a walk that meets no error, as a function of the tree:
    for each path of the walk that passes the test of the loop, its name
    below [base] and its bytes. *)
Definition entry_for (base : Path) (t : node) (p : Path) : list entry :=
  match relative_to p base, lookup t p with
  | Return a, Some (File _ d) => [(a, d)]
  | _, _ => []
  end.

Definition entries_of (base : Path) (t : node) (ps : list Path) : list entry :=
  flat_map (entry_for base t) (filter (qualifies t) ps).

Definition expected_archive (file : Path) (root : node) : list entry :=
  entries_of (parent (script_dir file)) root (rglob root (script_dir file)).

(** Why the turn of the loop for the file [p] fails, [l] being the entries
    added so far and [freeA] the bytes the archive may take: the file cannot
    be read, which leaves the state [s] as it is, or its entry does not fit,
    which leaves the device full and bytes pending. *)
Inductive turn_fails (body : list entry -> bytes) (base zp : Path)
  (scan : node) (freeA : nat) (l : list entry) (p : Path) (s : state) :
  exn -> list event -> state -> Prop :=
| fails_read d :
    p <> zp -> file_of (lookup scan p) = Some (false, d) ->
    turn_fails body base zp scan freeA l p s (PermissionError p)
      [Ev (ReadFile p) (Some (PermissionError p))] s
| fails_write e :
    added base zp scan p e ->
    freeA < List.length (body (l ++ [e])) ->
    turn_fails body base zp scan freeA l p s NoSpaceError
      [Ev (ReadFile p) None; Ev (WriteEntry (fst e)) (Some NoSpaceError)]
      (cut_short s zp (body (l ++ [e])) (mkZipFile zp l true false true)).

(** How the closing of an archive with the entries [es] ends when no bytes
    are pending: the end record is written if it fits, and the file is then
    the archive; otherwise the device is filled with its start. *)
Definition closes (body trailer : list entry -> bytes) (es : list entry)
  (freeA : nat) (fin : bool) (data : bytes) : Prop :=
  fin = Nat.leb (List.length (body es ++ trailer es)) freeA
  /\ data = if fin then body es ++ trailer es
            else firstn freeA (body es ++ trailer es).

(** A run that got to open the archive, in full: the state it leaves and
    every event of its trace.  The loop gets through all the paths of the
    walk, or stops at a file that cannot be read, or at an entry that does
    not fit. *)
Definition filled (body trailer : list entry -> bytes) (file : Path)
  (root : node) (space : nat) (o : outcome unit) : Prop :=
  let zp := zip_path file in
  let base := parent (script_dir file) in
  let scan := scan_fs file root in
  let ps := rglob scan (script_dir file) in
  let es := archive o in
  let freeA := space + old_size root zp in
  exists ps1 tl fin data,
    zf (post o) = Some (mkZipFile zp es false fin (negb fin))
    /\ lookup (fs (post o)) zp = Some (File true data)
    /\ free (post o) + List.length data = freeA
    /\ update_dir (remove_entry (name zp)) (fs (post o)) (parent zp)
       = update_dir (remove_entry (name zp)) root (parent zp)
    /\ Forall2 (added base zp scan) (filter (qualifies scan) ps1) es
    /\ trace o
       = (if exists_node (lookup root zp)
          then [Ev (Unlink zp) None;
                Ev (Print ("Removed old: " +++ name zp)) None]
          else [])
         ++ [packaging_line file; Ev (Open zp) None]
         ++ flat_map (turn base) es ++ tl
         ++ [Ev EndRecord (if fin then None else Some NoSpaceError);
             Ev CloseFp None]
         ++ last_line file (res o)
    /\ ((ps1 = ps /\ tl = []
         /\ closes body trailer es freeA fin data
         /\ res o = if fin then Return tt else Raise NoSpaceError)
        \/ (exists p ps2 d,
              ps = ps1 ++ p :: ps2
              /\ qualifies scan p = true
              /\ p <> zp
              /\ file_of (lookup scan p) = Some (false, d)
              /\ tl = [Ev (ReadFile p) (Some (PermissionError p))]
              /\ closes body trailer es freeA fin data
              /\ res o = Raise (if fin then PermissionError p
                                else NoSpaceError))
        \/ (exists p ps2 e,
              ps = ps1 ++ p :: ps2
              /\ qualifies scan p = true
              /\ added base zp scan p e
              /\ freeA < List.length (body (es ++ [e]))
              /\ tl = [Ev (ReadFile p) None;
                       Ev (WriteEntry (fst e)) (Some NoSpaceError)]
              /\ fin = false
              /\ data = firstn freeA (body (es ++ [e]))
              /\ res o = Raise NoSpaceError)).

(** The script was started by a path without a [..] component, as with
    [cd debug; python repackage.py]: the components of [__file__] are then
    names of directory entries. *)
Definition normalized (file : Path) : bool :=
  forallb (fun c => negb (String.eqb c "..")) file.

(** A directory in the way of the archive, and an empty directory in the
    source directory. *)
Definition demo_tree_blocked : node :=
  Dir true true
    [("x", Dir true true
       [("debug", Dir true true
          [("a.txt", File true [Byte.x61]);
           ("repackage.py", File true [Byte.x23; Byte.x21])]);
        ("debug.zip", Dir true true [])])].

Definition demo_tree_empty_dir : node :=
  Dir true true
    [("x", Dir true true
       [("debug", Dir true true
          [("a.txt", File true [Byte.x61]);
           ("logs", Dir true true []);
           ("repackage.py", File true [Byte.x23; Byte.x21])])])].

(** An old archive at the destination, and a script in the root
    directory. *)
Definition demo_tree_old : node :=
  Dir true true
    [("x", Dir true true
       [("debug", Dir true true
          [("a.txt", File true [Byte.x61]);
           ("repackage.py", File true [Byte.x23; Byte.x21])]);
        ("debug.zip", File true [Byte.x6f; Byte.x6c; Byte.x64])])].

Definition demo_root_file : Path := ["repackage.py"].

Definition demo_root_tree : node :=
  Dir true true
    [("a.txt", File true [Byte.x61]);
     ("repackage.py", File true [Byte.x23; Byte.x21])].

(** * Properties *)

(** ** Paths *)

Lemma zip_name_nonempty (s : string) : String.eqb (s +++ ".zip") "" = false.
Proof. destruct s; reflexivity. Qed.

Lemma zip_path_eq (file : Path) :
  zip_path file = parent (script_dir file) ++ [skill_name file +++ ".zip"].
Proof. unfold zip_path, truediv. now rewrite zip_name_nonempty. Qed.

Lemma parent_snoc (p : Path) (c : string) : parent (p ++ [c]) = p.
Proof. apply removelast_last. Qed.

Lemma name_snoc (p : Path) (c : string) : name (p ++ [c]) = c.
Proof. apply last_last. Qed.

Lemma parent_name (p : Path) : p <> [] -> p = parent p ++ [name p].
Proof. intros H. now apply app_removelast_last. Qed.

Lemma parent_zip_path (file : Path) :
  parent (zip_path file) = parent (script_dir file).
Proof. rewrite zip_path_eq. apply parent_snoc. Qed.

Lemma name_zip_path (file : Path) :
  name (zip_path file) = skill_name file +++ ".zip".
Proof. rewrite zip_path_eq. apply name_snoc. Qed.

Lemma relative_to_app (base r : Path) : relative_to (base ++ r) base = Return r.
Proof.
  induction base as [|b base IH]; simpl; [reflexivity|].
  now rewrite String.eqb_refl.
Qed.

Lemma relative_to_inv (base p r : Path) :
  relative_to p base = Return r -> p = base ++ r.
Proof.
  revert p. induction base as [|b base IH]; simpl; intros p H.
  - congruence.
  - destruct p as [|c p]; [discriminate|].
    destruct (String.eqb_spec b c) as [->|]; [|discriminate].
    f_equal. now apply IH.
Qed.

Lemma append_length (s t : string) :
  String.length (s +++ t) = String.length s + String.length t.
Proof. induction s; simpl; congruence. Qed.

Lemma zip_name_neq (s : string) : s +++ ".zip" <> s.
Proof.
  intros H. apply (f_equal String.length) in H.
  rewrite append_length in H. simpl in H. lia.
Qed.

(** The source directory is the parent of the archive's directory entry
    whenever it is not the root. *)
Lemma script_dir_split (file : Path) :
  script_dir file <> [] ->
  script_dir file = parent (script_dir file) ++ [skill_name file].
Proof. intros H. now apply parent_name. Qed.

(** ** Directory entries *)

(** Case analysis on the comparisons of names that occur in a goal. *)
Ltac name_cases :=
  repeat match goal with
    | |- context [String.eqb ?a ?b] =>
        destruct (String.eqb_spec a b); subst; simpl
    end;
  try reflexivity; try congruence.

Lemma assoc_update_entry (c k : string) (g : node -> node) ch :
  assoc k (update_entry c g ch)
  = if String.eqb c k then option_map g (assoc k ch) else assoc k ch.
Proof.
  induction ch as [|[k' m] ch IH]; simpl.
  - now destruct (String.eqb c k).
  - destruct (String.eqb_spec k' c) as [->|Hc]; simpl.
    + name_cases.
    + rewrite IH. name_cases.
Qed.

Lemma assoc_remove_entry (c k : string) ch :
  assoc k (remove_entry c ch)
  = if String.eqb c k then None else assoc k ch.
Proof.
  induction ch as [|[k' m] ch IH]; simpl.
  - now destruct (String.eqb c k).
  - destruct (String.eqb_spec k' c) as [->|Hc]; simpl; rewrite IH; name_cases.
Qed.

Lemma assoc_add_entry (c k : string) (m : node) ch :
  assoc k (add_entry c m ch)
  = match assoc k ch with
    | Some x => Some x
    | None => if String.eqb c k then Some m else None
    end.
Proof.
  unfold add_entry. induction ch as [|[k' m'] ch IH]; simpl.
  - reflexivity.
  - now destruct (String.eqb k' k).
Qed.

Lemma remove_entry_absent (c : string) ch :
  assoc c ch = None -> remove_entry c ch = ch.
Proof.
  induction ch as [|[k m] ch IH]; simpl; [reflexivity|].
  destruct (String.eqb k c); [discriminate|]. simpl. intros H. now rewrite IH.
Qed.

Lemma remove_update_entry (c : string) (g : node -> node) ch :
  remove_entry c (update_entry c g ch) = remove_entry c ch.
Proof.
  induction ch as [|[k m] ch IH]; simpl; [reflexivity|].
  destruct (String.eqb k c) eqn:E; simpl; rewrite E; simpl; [reflexivity|].
  now rewrite IH.
Qed.

Lemma remove_add_entry (c : string) (m : node) ch :
  remove_entry c (add_entry c m ch) = remove_entry c ch.
Proof.
  unfold remove_entry, add_entry. rewrite filter_app. simpl.
  rewrite String.eqb_refl. simpl. apply app_nil_r.
Qed.

Lemma update_entry_id (c : string) (g : node -> node) ch :
  (forall m, assoc c ch = Some m -> g m = m) -> update_entry c g ch = ch.
Proof.
  induction ch as [|[k m] ch IH]; simpl; intros H; [reflexivity|].
  destruct (String.eqb k c).
  - now rewrite H.
  - now rewrite IH.
Qed.

Lemma update_entry_ext (c : string) (g h : node -> node) ch :
  (forall m, assoc c ch = Some m -> g m = h m) ->
  update_entry c g ch = update_entry c h ch.
Proof.
  induction ch as [|[k m] ch IH]; simpl; intros H; [reflexivity|].
  destruct (String.eqb k c).
  - now rewrite H.
  - now rewrite IH.
Qed.

Lemma update_entry_twice (c : string) (g h : node -> node) ch :
  update_entry c g (update_entry c h ch) = update_entry c (fun m => g (h m)) ch.
Proof.
  induction ch as [|[k m] ch IH]; simpl; [reflexivity|].
  destruct (String.eqb k c) eqn:E; simpl; rewrite E; [reflexivity|].
  now rewrite IH.
Qed.

(** ** Lookup in a rewritten tree *)

Lemma lookup_app (n : node) (a b : Path) :
  lookup n (a ++ b)
  = match lookup n a with
    | Some m => lookup m b
    | None => None
    end.
Proof.
  revert n. induction a as [|c a IH]; simpl; intros n; [reflexivity|].
  destruct n as [| l w ch |]; try reflexivity.
  destruct (assoc c ch); [apply IH|reflexivity].
Qed.

Lemma lookup_below_file (n : node) (p : Path) (c : string) (q : Path) :
  file_of (lookup n p) <> None -> lookup n (p ++ c :: q) = None.
Proof.
  intros H. rewrite lookup_app.
  destruct (lookup n p) as [[| |]|]; simpl in *; congruence.
Qed.

Lemma file_of_update_dir f (m : option node) (d : Path) :
  file_of (option_map (fun x => update_dir f x d) m) = file_of m.
Proof. destruct m as [[| |]|]; destruct d; reflexivity. Qed.

Lemma lookup_update_dir_above f (n : node) (q rest : Path) :
  lookup (update_dir f n (q ++ rest)) q
  = option_map (fun m => update_dir f m rest) (lookup n q).
Proof.
  revert n. induction q as [|c q IH]; simpl; intros n; [reflexivity|].
  destruct n as [| l w ch |]; try reflexivity.
  simpl. rewrite assoc_update_entry, String.eqb_refl.
  destruct (assoc c ch); simpl; [apply IH|reflexivity].
Qed.

Lemma lookup_update_dir_diverge f (n : node) (common : Path) (a b : string)
  (q1 d1 : Path) :
  a <> b ->
  lookup (update_dir f n (common ++ b :: d1)) (common ++ a :: q1)
  = lookup n (common ++ a :: q1).
Proof.
  intros Hab. revert n.
  induction common as [|c common IH]; simpl; intros n.
  - destruct n as [| l w ch |]; try reflexivity.
    simpl. rewrite assoc_update_entry.
    destruct (String.eqb_spec b a); [congruence|reflexivity].
  - destruct n as [| l w ch |]; try reflexivity.
    simpl. rewrite assoc_update_entry, String.eqb_refl.
    destruct (assoc c ch); simpl; [apply IH|reflexivity].
Qed.

Lemma lookup_update_dir_below f (n : node) (dir : Path) (k : string) (q : Path) :
  lookup (update_dir f n dir) (dir ++ k :: q)
  = match lookup n dir with
    | Some (Dir l w ch) =>
        match assoc k (f ch) with
        | Some m => lookup m q
        | None => None
        end
    | _ => None
    end.
Proof.
  rewrite lookup_app.
  pose proof (lookup_update_dir_above f n dir []) as H.
  rewrite app_nil_r in H. rewrite H.
  destruct (lookup n dir) as [[| l w ch |]|]; reflexivity.
Qed.

Lemma lookup_below (n : node) (dir : Path) (k : string) (q : Path) :
  lookup n (dir ++ k :: q)
  = match lookup n dir with
    | Some (Dir l w ch) =>
        match assoc k ch with
        | Some m => lookup m q
        | None => None
        end
    | _ => None
    end.
Proof.
  rewrite lookup_app.
  destruct (lookup n dir) as [[| l w ch |]|]; reflexivity.
Qed.

Lemma path_trichotomy (q dir : Path) :
  (exists rest, dir = q ++ rest)
  \/ (exists k q', q = dir ++ k :: q')
  \/ (exists common a b q1 d1,
        a <> b /\ q = common ++ a :: q1 /\ dir = common ++ b :: d1).
Proof.
  revert dir. induction q as [|a q IH]; intros dir.
  - left. now exists dir.
  - destruct dir as [|b dir].
    + right; left. now exists a, q.
    + destruct (string_dec a b) as [->|Hab].
      * destruct (IH dir) as [(rest & ->) | [(k & q' & ->) | H]].
        -- left. now exists rest.
        -- right; left. now exists k, q'.
        -- destruct H as (common & x & y & q1 & d1 & Hxy & -> & ->).
           right; right. now exists (b :: common), x, y, q1, d1.
      * right; right. now exists [], a, b, q, dir.
Qed.

(** Away from the entry [c] of [dir] a rewriting of that entry list is not
    seen. *)
Lemma lookup_update_dir_other f (c : string) (n : node) (dir : Path)
  (k : string) (q : Path) :
  keeps_others c f -> k <> c ->
  lookup (update_dir f n dir) (dir ++ k :: q) = lookup n (dir ++ k :: q).
Proof.
  intros Hf Hk. rewrite lookup_update_dir_below, lookup_below.
  destruct (lookup n dir) as [[| l w ch |]|]; try reflexivity.
  now rewrite Hf.
Qed.

Lemma keeps_others_remove (c : string) : keeps_others c (remove_entry c).
Proof.
  intros k ch Hk. rewrite assoc_remove_entry.
  destruct (String.eqb_spec c k); congruence.
Qed.

Lemma keeps_others_add (c : string) (m : node) : keeps_others c (add_entry c m).
Proof.
  intros k ch Hk. rewrite assoc_add_entry.
  destruct (assoc k ch); [reflexivity|].
  destruct (String.eqb_spec c k); congruence.
Qed.

(** Writing the bytes of the file [dir/c]. *)
Lemma lookup_set_data (c : string) (d : bytes) (n : node) (dir : Path) :
  lookup (update_dir (set_entry_data c d) n dir) (dir ++ [c])
  = option_map (set_data d) (lookup n (dir ++ [c])).
Proof.
  rewrite lookup_update_dir_below, lookup_below.
  destruct (lookup n dir) as [[| l w ch |]|]; try reflexivity.
  unfold set_entry_data. rewrite assoc_update_entry, String.eqb_refl.
  now destruct (assoc c ch).
Qed.

Lemma is_file_set_data (c : string) (d : bytes) (n : node) (dir q : Path) :
  is_file_node (lookup (update_dir (set_entry_data c d) n dir) q)
  = is_file_node (lookup n q).
Proof.
  assert (E : forall m, is_file_node m = match file_of m with
                                         | Some _ => true
                                         | None => false
                                         end)
    by (intros [[| |]|]; reflexivity).
  destruct (path_trichotomy q dir) as [(rest & ->) | [(k & q' & ->) | H]].
  - rewrite !E, lookup_update_dir_above. now rewrite file_of_update_dir.
  - rewrite lookup_update_dir_below, lookup_below.
    destruct (lookup n dir) as [[| l w ch |]|]; try reflexivity.
    unfold set_entry_data. rewrite assoc_update_entry.
    destruct (String.eqb_spec c k) as [->|]; [|reflexivity].
    destruct (assoc k ch) as [[| |]|]; simpl; try reflexivity.
    now destruct q'.
  - destruct H as (common & a & b & q1 & d1 & Hab & -> & ->).
    now rewrite lookup_update_dir_diverge.
Qed.

Lemma file_of_set_data_other (c : string) (d : bytes) (n : node)
  (dir q : Path) :
  q <> dir ++ [c] ->
  file_of (lookup (update_dir (set_entry_data c d) n dir) q)
  = file_of (lookup n q).
Proof.
  intros Hq.
  destruct (path_trichotomy q dir) as [(rest & ->) | [(k & q' & ->) | H]].
  - rewrite lookup_update_dir_above. apply file_of_update_dir.
  - rewrite lookup_update_dir_below, lookup_below.
    destruct (lookup n dir) as [[| l w ch |]|]; try reflexivity.
    unfold set_entry_data. rewrite assoc_update_entry.
    destruct (String.eqb_spec c k) as [->|]; [|reflexivity].
    destruct q' as [|x q']; [congruence|].
    destruct (assoc k ch) as [[| |]|]; reflexivity.
  - destruct H as (common & a & b & q1 & d1 & Hab & -> & ->).
    now rewrite lookup_update_dir_diverge.
Qed.

(** Removing and creating the entry [dir/c]. *)
Lemma lookup_remove_entry (c : string) (n : node) (dir : Path) :
  lookup (update_dir (remove_entry c) n dir) (dir ++ [c]) = None.
Proof.
  rewrite lookup_update_dir_below.
  destruct (lookup n dir) as [[| l w ch |]|]; try reflexivity.
  now rewrite assoc_remove_entry, String.eqb_refl.
Qed.

Lemma lookup_add_entry (c : string) (m : node) (n : node) (dir : Path)
  l w ch :
  lookup n dir = Some (Dir l w ch) -> assoc c ch = None ->
  lookup (update_dir (add_entry c m) n dir) (dir ++ [c]) = Some m.
Proof.
  intros Hd Hc. rewrite lookup_update_dir_below, Hd.
  now rewrite assoc_add_entry, Hc, String.eqb_refl.
Qed.

(** Rewriting twice at the same place; rewriting without effect. *)
Lemma update_dir_twice f g (n : node) (d : Path) :
  update_dir f (update_dir g n d) d = update_dir (fun ch => f (g ch)) n d.
Proof.
  revert n. induction d as [|c d IH]; intros n.
  - now destruct n.
  - destruct n as [| l w ch |]; try reflexivity.
    simpl. rewrite update_entry_twice. f_equal.
    apply update_entry_ext. intros m _. apply IH.
Qed.

Lemma update_dir_ext f g (n : node) (d : Path) :
  (forall ch, f ch = g ch) -> update_dir f n d = update_dir g n d.
Proof.
  intros H. revert n. induction d as [|c d IH]; intros n.
  - destruct n; simpl; now rewrite ?H.
  - destruct n as [| l w ch |]; try reflexivity.
    simpl. f_equal. apply update_entry_ext. intros m _. apply IH.
Qed.

Lemma update_dir_id f (n : node) (d : Path) :
  (forall l w ch, lookup n d = Some (Dir l w ch) -> f ch = ch) ->
  update_dir f n d = n.
Proof.
  revert n. induction d as [|c d IH]; intros n H.
  - destruct n as [| l w ch |]; try reflexivity.
    simpl. now rewrite (H l w ch).
  - destruct n as [| l w ch |]; try reflexivity.
    simpl. f_equal. apply update_entry_id. intros m Hm.
    apply IH. intros l' w' ch' Hl. apply (H l' w' ch'). simpl. now rewrite Hm.
Qed.

(** ** The walk *)

Lemma node_ind' (P : node -> Prop) :
  (forall r d, P (File r d)) ->
  P Other ->
  (forall l w ch, Forall (fun kv => P (snd kv)) ch -> P (Dir l w ch)) ->
  forall n, P n.
Proof.
  intros HF HO HD. fix IH 1. intros [r d | l w ch |].
  - apply HF.
  - apply HD. induction ch as [|[k m] ch IHch]; constructor.
    + apply IH.
    + exact IHch.
  - apply HO.
Qed.

(** The walk yields paths strictly below its starting point. *)
Lemma rglob_from_below (n : node) :
  forall d p, In p (rglob_from d n) -> exists r, r <> [] /\ p = d ++ r.
Proof.
  induction n as [r0 d0 | | l w ch IH] using node_ind'; intros d p; simpl;
    try contradiction.
  destruct l; [|contradiction].
  rewrite in_app_iff, in_map_iff, in_flat_map.
  intros [(kv & <- & _) | ([k m] & Hin & Hp)].
  - exists [fst kv]. split; [discriminate|reflexivity].
  - rewrite Forall_forall in IH.
    destruct (IH (k, m) Hin (d ++ [k]) p Hp) as (r & Hr & ->).
    exists (k :: r). split; [discriminate|]. now rewrite <- app_assoc.
Qed.

Lemma rglob_below (root : node) (d p : Path) :
  In p (rglob root d) -> exists r, r <> [] /\ p = d ++ r.
Proof.
  unfold rglob. destruct (lookup root d); [apply rglob_from_below|contradiction].
Qed.

(** ** The steps of a run *)

Lemma same_files_refl (zp : Path) (n : node) : same_files zp n n.
Proof. split; reflexivity. Qed.

Lemma same_files_trans (zp : Path) (n1 n2 n3 : node) :
  same_files zp n1 n2 -> same_files zp n2 n3 -> same_files zp n1 n3.
Proof.
  intros [A1 B1] [A2 B2]. split; intros q.
  - now rewrite A2, A1.
  - intros Hq. now rewrite B2, B1.
Qed.

Lemma qualifies_same (zp : Path) (n n' : node) (p : Path) :
  same_files zp n n' -> qualifies n' p = qualifies n p.
Proof. intros [A _]. unfold qualifies. now rewrite A. Qed.

Lemma zip_path_split (file : Path) :
  zip_path file = parent (zip_path file) ++ [name (zip_path file)].
Proof.
  apply parent_name. rewrite zip_path_eq. now destruct (parent (script_dir file)).
Qed.

Section Steps.

Variables body trailer : list entry -> bytes.
Variable file : Path.

Local Abbreviation zp := (zip_path file).
Local Abbreviation base := (parent (script_dir file)).

(** Writing the archive file keeps it in place and touches nothing else. *)
Lemma stored_on_disk fsA freeA (s : state) (d : bytes) (z : ZipFile) :
  on_disk zp fsA freeA s -> fits s zp d = true ->
  on_disk zp fsA freeA (stored s zp d z)
  /\ same_files zp (fs s) (fs (stored s zp d z))
  /\ lookup (fs (stored s zp d z)) zp = Some (File true d).
Proof.
  intros [(b & Hb & Hfree) Hrest] Hfit.
  unfold fits in Hfit. rewrite Hb in Hfit. simpl in Hfit.
  apply Nat.leb_le in Hfit.
  assert (Hnew : lookup (fs (stored s zp d z)) zp = Some (File true d)).
  { simpl. rewrite (zip_path_split file) at 3.
    rewrite lookup_set_data, <- zip_path_split, Hb. reflexivity. }
  repeat split.
  - exists d. split; [exact Hnew|]. simpl. rewrite Hb. simpl. lia.
  - simpl. rewrite update_dir_twice.
    rewrite (update_dir_ext _ (remove_entry (name zp))); [exact Hrest|].
    intros ch. apply remove_update_entry.
  - intros q. simpl. apply is_file_set_data.
  - intros q Hq. simpl. apply file_of_set_data_other.
    now rewrite <- zip_path_split.
  - exact Hnew.
Qed.

(** A write that does not fit fills the device, keeps the archive file in
    place and touches nothing else. *)
Lemma room_on_disk fsA freeA (s : state) :
  on_disk zp fsA freeA s -> room s zp = freeA.
Proof. intros [(b & Hb & Hfree) _]. unfold room. now rewrite Hb. Qed.

Lemma cut_short_on_disk fsA freeA (s : state) (d : bytes) (z : ZipFile) :
  on_disk zp fsA freeA s ->
  on_disk zp fsA freeA (cut_short s zp d z)
  /\ same_files zp (fs s) (fs (cut_short s zp d z))
  /\ lookup (fs (cut_short s zp d z)) zp = Some (File true (firstn freeA d))
  /\ (freeA < List.length d -> free (cut_short s zp d z) = 0).
Proof.
  intros Hdisk. pose proof (room_on_disk fsA freeA s Hdisk) as Hroom.
  unfold cut_short. rewrite Hroom.
  assert (Hfit : fits s zp (firstn freeA d) = true).
  { unfold fits. fold (room s zp). rewrite Hroom. apply Nat.leb_le.
    rewrite length_firstn. apply Nat.le_min_l. }
  destruct (stored_on_disk fsA freeA s _ z Hdisk Hfit) as (D & S & B).
  repeat split; try assumption; try apply D; try apply S.
  intros Hlen. simpl. fold (room s zp). rewrite Hroom, length_firstn.
  rewrite Nat.min_l by lia. apply Nat.sub_diag.
Qed.

(** [zf.write] with the archive open, and one turn of the loop, as
    equations. *)
Lemma zf_write_eq (s : state) (l : list entry) (p a : Path) :
  zf s = Some (mkZipFile zp l true false false) ->
  zf_write body p a s
  = match lookup (fs s) p with
    | Some (File true d) =>
        if fits s zp (body (l ++ [(a, d)])) then
          mkOutcome (Return tt)
            (stored s zp (body (l ++ [(a, d)]))
               (mkZipFile zp (l ++ [(a, d)]) true false false))
            [Ev (ReadFile p) None; Ev (WriteEntry a) None]
        else
          mkOutcome (Raise NoSpaceError)
            (cut_short s zp (body (l ++ [(a, d)]))
               (mkZipFile zp l true false true))
            [Ev (ReadFile p) None; Ev (WriteEntry a) (Some NoSpaceError)]
    | Some (File false _) =>
        mkOutcome (Raise (PermissionError p)) s
          [Ev (ReadFile p) (Some (PermissionError p))]
    | Some _ =>
        mkOutcome (Raise (IsADirectoryError p)) s
          [Ev (ReadFile p) (Some (IsADirectoryError p))]
    | None =>
        mkOutcome (Raise (FileNotFoundError p)) s
          [Ev (ReadFile p) (Some (FileNotFoundError p))]
    end.
Proof.
  intros Hzf. unfold zf_write, bind, get. simpl. rewrite Hzf. simpl.
  destruct (lookup (fs s) p) as [[[|] d | |]|]; try reflexivity.
  simpl. destruct (fits s zp (body (l ++ [(a, d)]))); reflexivity.
Qed.

Lemma add_file_eq (s : state) (p : Path) :
  add_file body file p s
  = if qualifies (fs s) p then
      match relative_to p base with
      | Return a =>
          let o := zf_write body p a s in
          match res o with
          | Return _ =>
              mkOutcome (Return tt) (post o)
                (trace o ++ [Ev (Print ("  Added: " +++ str a)) None])
          | Raise e => mkOutcome (Raise e) (post o) (trace o)
          end
      | Raise e => mkOutcome (Raise e) s []
      end
    else mkOutcome (Return tt) s [].
Proof.
  unfold add_file, path_is_file, bind at 1 2, get, ret.
  cbn [res post trace app]. fold (qualifies (fs s) p).
  destruct (qualifies (fs s) p); [|reflexivity].
  destruct (relative_to p base) as [a|e]; [|reflexivity].
  unfold lift, bind, ret, print, emit. cbn [res post trace app].
  destruct (res (zf_write body p a s)); reflexivity.
Qed.

(** One turn of the loop, with the archive open. *)
Lemma add_file_spec fsA freeA (scan : node) (s : state) (l : list entry)
  (p : Path) :
  zf s = Some (mkZipFile zp l true false false) ->
  on_disk zp fsA freeA s ->
  same_files zp scan (fs s) ->
  (exists r, p = base ++ r) ->
  let o := add_file body file p s in
  (qualifies scan p = false /\ o = mkOutcome (Return tt) s [])
  \/ (qualifies scan p = true /\
      exists e t, added base zp scan p e
        /\ res o = Return tt
        /\ zf (post o) = Some (mkZipFile zp (l ++ [e]) true false false)
        /\ on_disk zp fsA freeA (post o)
        /\ same_files zp scan (fs (post o))
        /\ trace o = t /\ Forall loop_ok t)
  \/ (qualifies scan p = true /\
      exists c e t pend, res o = Raise e
        /\ zf (post o) = Some (mkZipFile zp l true false pend)
        /\ on_disk zp fsA freeA (post o)
        /\ same_files zp scan (fs (post o))
        /\ trace o = t ++ [Ev c (Some e)]
        /\ Forall loop_ok t /\ loop_call c).
Proof.
  intros Hzf Hdisk Hsame (r & ->) o. subst o.
  rewrite add_file_eq, (qualifies_same zp scan (fs s) _ Hsame).
  destruct (qualifies scan (base ++ r)) eqn:Q;
    [right | left; split; reflexivity].
  assert (Hfile : is_file_node (lookup (fs s) (base ++ r)) = true).
  { destruct Hsame as [A _]. rewrite A. unfold qualifies in Q.
    now apply andb_prop in Q. }
  rewrite relative_to_app. cbv zeta. rewrite (zf_write_eq s l) by exact Hzf.
  destruct (lookup (fs s) (base ++ r)) as [[[|] d | |]|] eqn:Hl;
    try discriminate Hfile; cbv beta iota.
  - (* a readable file *)
    match goal with
    | |- context [fits ?x ?y ?z] => destruct (fits x y z) eqn:Hfit
    end; cbn [res post trace app].
    + left. split; [reflexivity|].
      destruct (stored_on_disk fsA freeA s _
                  (mkZipFile zp (l ++ [(r, d)]) true false false) Hdisk Hfit)
        as (D & S & _).
      exists (r, d). eexists.
      split; [|split; [reflexivity|split; [reflexivity|split; [exact D|
        split; [eapply same_files_trans; eassumption|
        split; [reflexivity|]]]]]].
      * split; [reflexivity|]. split; [exact Q|].
        intros Hne. destruct Hsame as [_ B]. rewrite <- B by exact Hne.
        now rewrite Hl.
      * repeat constructor.
    + right. split; [reflexivity|].
      destruct (cut_short_on_disk fsA freeA s (body (l ++ [(r, d)]))
                  (mkZipFile zp l true false true) Hdisk) as (D & S & _).
      exists (WriteEntry r), NoSpaceError, [Ev (ReadFile (base ++ r)) None],
        true.
      split; [reflexivity|]. split; [reflexivity|]. split; [exact D|].
      split; [eapply same_files_trans; eassumption|].
      repeat split; repeat constructor.
  - (* a file that cannot be read *)
    right. split; [reflexivity|].
    exists (ReadFile (base ++ r)), (PermissionError (base ++ r)), [], false.
    cbn [res post trace]. repeat split; try assumption; try apply Hdisk;
      try apply Hsame; constructor.
Qed.

Lemma for_each_cons {A} (x : A) (xs : list A) (f : A -> M unit) (s : state) :
  for_each (x :: xs) f s
  = match res (f x s) with
    | Return _ =>
        mkOutcome (res (for_each xs f (post (f x s))))
                  (post (for_each xs f (post (f x s))))
                  (trace (f x s) ++ trace (for_each xs f (post (f x s))))
    | Raise e => mkOutcome (Raise e) (post (f x s)) (trace (f x s))
    end.
Proof. reflexivity. Qed.

(** The loop: the entries of the files it got through are added in order;
    it stops at the first call that fails. *)
Lemma loop_spec fsA freeA (scan : node) (ps : list Path) :
  Forall (fun p => exists r, p = base ++ r) ps ->
  forall (s : state) (l : list entry),
  zf s = Some (mkZipFile zp l true false false) ->
  on_disk zp fsA freeA s ->
  same_files zp scan (fs s) ->
  let o := for_each ps (add_file body file) s in
  exists l' t pend,
    zf (post o) = Some (mkZipFile zp (l ++ l') true false pend)
    /\ on_disk zp fsA freeA (post o)
    /\ same_files zp scan (fs (post o))
    /\ Forall loop_ok t
    /\ ((res o = Return tt /\ pend = false /\ trace o = t
         /\ Forall2 (added base zp scan) (filter (qualifies scan) ps) l')
        \/ (exists ps1 p ps2 c e,
              ps = ps1 ++ p :: ps2 /\ res o = Raise e
              /\ trace o = t ++ [Ev c (Some e)] /\ loop_call c
              /\ Forall2 (added base zp scan)
                         (filter (qualifies scan) ps1) l')).
Proof.
  induction 1 as [|p ps Hp Hps IH]; intros s l Hzf Hdisk Hsame.
  - exists [], [], false. simpl. rewrite app_nil_r.
    repeat split; try assumption; try apply Hdisk; try apply Hsame.
    + constructor.
    + left. repeat split. constructor.
  - cbv zeta. rewrite for_each_cons.
    destruct (add_file_spec fsA freeA scan s l p Hzf Hdisk Hsame Hp)
      as [[Q E] | [[Q H] | [Q H]]].
    + (* not a file to add *)
      rewrite E. cbn [res post trace app].
      destruct (IH s l Hzf Hdisk Hsame) as (l' & t & pend & Z & D & S & T & R).
      exists l', t, pend.
      repeat split; try assumption; try apply D; try apply S.
      destruct R as [(R1 & R0 & R2 & R3) | (ps1 & p' & ps2 & c & e & R)].
      * left. cbn [filter]. rewrite Q. auto.
      * right. exists (p :: ps1), p', ps2, c, e.
        destruct R as (-> & R2 & R3 & R4 & R5). cbn [filter]. rewrite Q. auto.
    + (* an entry is added *)
      destruct H as (e & t1 & Ha & Hr & Z1 & D1 & S1 & Ht & T1).
      rewrite Hr.
      destruct (IH _ _ Z1 D1 S1) as (l' & t & pend & Z & D & S & T & R).
      cbn [res post trace].
      exists (e :: l'), (t1 ++ t), pend.
      rewrite <- app_assoc in Z. simpl in Z.
      split; [exact Z|]. split; [exact D|]. split; [exact S|].
      split; [now apply Forall_app|]. rewrite Ht.
      destruct R as [(R1 & R0 & R2 & R3) | (ps1 & p' & ps2 & c & e' & R)].
      * left. cbn [filter]. rewrite Q, R2. repeat split; try assumption.
        now constructor.
      * right. exists (p :: ps1), p', ps2, c, e'.
        destruct R as (-> & R2 & R3 & R4 & R5). cbn [filter]. rewrite Q, R3.
        rewrite app_assoc. repeat split; try assumption. now constructor.
    + (* a call fails *)
      destruct H as (c & e & t & pend & Hr & Z & D & S & Ht & T & C).
      rewrite Hr, Ht. cbn [res post trace].
      exists [], t, pend. rewrite app_nil_r.
      repeat split; try assumption; try apply D; try apply S.
      right. exists [], p, ps, c, e. repeat split; try assumption.
      constructor.
Qed.

(** Closing an open archive. *)
Lemma zf_close_eq (s : state) (l : list entry) (pend : bool) :
  zf s = Some (mkZipFile zp l true false pend) ->
  zf_close body trailer s
  = if pend then
      mkOutcome (Raise NoSpaceError)
        (mkState (fs s) (free s) (Some (mkZipFile zp l false false true)))
        [Ev EndRecord (Some NoSpaceError); Ev CloseFp None]
    else if fits s zp (body l ++ trailer l) then
      mkOutcome (Return tt)
        (stored s zp (body l ++ trailer l) (mkZipFile zp l false true false))
        [Ev EndRecord None; Ev CloseFp None]
    else
      mkOutcome (Raise NoSpaceError)
        (cut_short s zp (body l ++ trailer l) (mkZipFile zp l false false true))
        [Ev EndRecord (Some NoSpaceError); Ev CloseFp None].
Proof.
  intros Hzf. unfold zf_close, bind, get. simpl. rewrite Hzf. simpl.
  destruct pend; [reflexivity|].
  destruct (fits s zp (body l ++ trailer l)); reflexivity.
Qed.

Lemma lookup_zp (n : node) :
  lookup n zp
  = match lookup n (parent zp) with
    | Some (Dir _ _ ch) => assoc (name zp) ch
    | _ => None
    end.
Proof.
  rewrite (zip_path_split file) at 1. rewrite lookup_below.
  destruct (lookup n (parent zp)) as [[| l w ch |]|]; try reflexivity.
  now destruct (assoc (name zp) ch).
Qed.

(** Opening the archive where nothing is in the way. *)
Lemma ZipFile_open_spec (s : state) :
  lookup (fs s) zp = None ->
  (exists e, ZipFile_open zp s = mkOutcome (Raise e) s [Ev (Open zp) (Some e)])
  \/ (exists l ch,
        lookup (fs s) (parent zp) = Some (Dir l true ch)
        /\ assoc (name zp) ch = None
        /\ ZipFile_open zp s
           = mkOutcome (Return tt)
               (mkState (update_dir (add_entry (name zp) (File true []))
                                    (fs s) (parent zp))
                        (free s) (Some (mkZipFile zp [] true false false)))
               [Ev (Open zp) None]).
Proof.
  intros Hno. rewrite lookup_zp in Hno.
  unfold ZipFile_open, bind, get. simpl.
  destruct (lookup (fs s) (parent zp)) as [[| l w ch |]|];
    try (left; eexists; reflexivity).
  rewrite Hno. destruct w; [right|left; eexists; reflexivity].
  exists l, ch. repeat split. exact Hno.
Qed.

(** Deleting an old archive. *)
Lemma remove_old_spec (s : state) :
  (exists e, lookup (fs s) zp <> None
             /\ remove_old file s = mkOutcome (Raise e) s [Ev (Unlink zp) (Some e)])
  \/ (exists fsA freeA pre,
        removal zp (fs s) (free s) fsA freeA pre
        /\ remove_old file s = mkOutcome (Return tt) (mkState fsA freeA (zf s)) pre).
Proof.
  assert (Hx : forall e,
             lookup (fs s) zp <> None ->
             exists e0 : exn, lookup (fs s) zp <> None /\
               mkOutcome (A:=unit) (Raise e) s [Ev (Unlink zp) (Some e)]
               = mkOutcome (Raise e0) s [Ev (Unlink zp) (Some e0)])
    by (intros e H; exists e; split; [exact H|reflexivity]).
  pose proof (lookup_zp (fs s)) as Hz.
  destruct (lookup (fs s) zp) as [m|] eqn:Hl.
  - assert (Hne : Some m <> None) by discriminate.
    unfold remove_old, path_exists, unlink, bind, get, ret, print, emit,
      put, fail.
    simpl. rewrite Hl. simpl.
    destruct (lookup (fs s) (parent zp)) as [[| l w ch |]|] eqn:Hp;
      try discriminate Hz.
    rewrite <- Hz.
    destruct w; [|left; now apply Hx].
    destruct m as [r d | l' w' ch' |]; try (left; now apply Hx); right.
    + eexists _, _, _. split; [|reflexivity].
      eapply (removal_done zp (fs s) (free s) (File r d)); eassumption.
    + eexists _, _, _. split; [|reflexivity].
      eapply (removal_done zp (fs s) (free s) Other); eassumption.
  - right. exists (fs s), (free s), []. split.
    + now constructor.
    + unfold remove_old, path_exists, bind, get, ret. simpl. rewrite Hl.
      destruct s; reflexivity.
Qed.

(** After that step nothing is left at the path of the archive, and the
    tree is the old one without that entry. *)
Lemma removal_fs (root : node) (space : nat) fsA freeA pre :
  removal zp root space fsA freeA pre ->
  fsA = update_dir (remove_entry (name zp)) root (parent zp)
  /\ lookup fsA zp = None.
Proof.
  intros [Hno | m l ch Hm Hp].
  - split; [|exact Hno]. symmetry. apply update_dir_id.
    intros l w ch Hd. apply remove_entry_absent.
    rewrite lookup_zp, Hd in Hno. exact Hno.
  - split; [reflexivity|].
    rewrite (zip_path_split file) at 3. apply lookup_remove_entry.
Qed.

End Steps.

(** ** A run, case by case *)

Lemma script_dir_below_parent (file : Path) :
  exists x, script_dir file = parent (script_dir file) ++ x.
Proof.
  destruct (script_dir file) as [|c sd] eqn:E.
  - now exists [].
  - exists [name (c :: sd)]. apply parent_name. discriminate.
Qed.

Section Run.

Variables body trailer : list entry -> bytes.
Variable file : Path.

Local Abbreviation zp := (zip_path file).
Local Abbreviation sd := (script_dir file).
Local Abbreviation base := (parent (script_dir file)).

Lemma package_eq (sA s1 : state) :
  ZipFile_open zp sA = mkOutcome (Return tt) s1 [Ev (Open zp) None] ->
  package body trailer file sA
  = let L := for_each (rglob (fs s1) sd) (add_file body file) s1 in
    let C := zf_close body trailer (post L) in
    mkOutcome (match res C with
               | Raise e => Raise e
               | Return _ => res L
               end)
              (post C) (Ev (Open zp) None :: trace L ++ trace C).
Proof.
  intros E. unfold package, with_ZipFile, bind at 1. rewrite E.
  unfold finally, path_rglob, bind, get, ret. reflexivity.
Qed.

(** The state right after the archive has been created. *)
Lemma created_on_disk (sA : state) l ch :
  lookup (fs sA) (parent zp) = Some (Dir l true ch) ->
  assoc (name zp) ch = None ->
  on_disk zp (fs sA) (free sA)
    (mkState (update_dir (add_entry (name zp) (File true [])) (fs sA) (parent zp))
             (free sA) (Some (mkZipFile zp [] true false false))).
Proof.
  intros Hd Hc. split.
  - exists []. simpl. split; [|lia].
    rewrite (zip_path_split file) at 3. eapply lookup_add_entry; eassumption.
  - simpl. rewrite update_dir_twice.
    rewrite (update_dir_ext _ (remove_entry (name zp)))
      by (intros; apply remove_add_entry).
    apply update_dir_id. intros l' w' ch' Hd'.
    rewrite Hd in Hd'. injection Hd' as <- <- <-.
    now apply remove_entry_absent.
Qed.

Lemma package_spec (sA : state) :
  lookup (fs sA) zp = None ->
  let o := package body trailer file sA in
  let scan := update_dir (add_entry (name zp) (File true [])) (fs sA) (parent zp) in
  (exists e, o = mkOutcome (Raise e) sA [Ev (Open zp) (Some e)])
  \/ (exists l ch ps1 es fin t tail,
        lookup (fs sA) (parent zp) = Some (Dir l true ch)
        /\ assoc (name zp) ch = None
        /\ zf (post o) = Some (mkZipFile zp es false fin (negb fin))
        /\ on_disk zp (fs sA) (free sA) (post o)
        /\ same_files zp scan (fs (post o))
        /\ Forall2 (added base zp scan) (filter (qualifies scan) ps1) es
        /\ Forall loop_ok t
        /\ ending (rglob scan sd) ps1 fin (res o) tail
        /\ trace o = Ev (Open zp) None :: t ++ tail).
Proof.
  intros Hno o scan.
  destruct (ZipFile_open_spec file sA Hno) as [(e & E) | (l & ch & Hd & Hc & E)].
  - left. exists e. subst o. unfold package, with_ZipFile, bind at 1.
    rewrite E. reflexivity.
  - right. subst o scan. rewrite (package_eq sA _ E). cbv zeta. cbn [fs].
    set (scan := update_dir (add_entry (name zp) (File true [])) (fs sA)
                   (parent zp)).
    set (s1 := mkState scan (free sA) (Some (mkZipFile zp [] true false false))).
    assert (Hps : Forall (fun p => exists r, p = base ++ r) (rglob scan sd)).
    { apply Forall_forall. intros p Hp.
      destruct (rglob_below _ _ _ Hp) as (r & _ & ->).
      destruct (script_dir_below_parent file) as (x & Hx).
      exists (x ++ r). rewrite app_assoc, <- Hx. reflexivity. }
    destruct (loop_spec body file (fs sA) (free sA) scan _ Hps s1 []
                eq_refl (created_on_disk sA l ch Hd Hc)
                (same_files_refl zp scan))
      as (es & t & pend & Z & D & S & T & R).
    simpl in Z.
    set (L := for_each (rglob scan sd) (add_file body file) s1) in *.
    rewrite (zf_close_eq body trailer file (post L) es pend Z).
    destruct pend.
    { (* bytes are pending: a write of the loop failed *)
      cbn [res post trace].
      destruct R as [(_ & R0 & _) | (ps1 & p & ps2 & c & e & R)];
        [discriminate R0|].
      destruct R as (Hsplit & R2 & R3 & R4 & R5).
      exists l, ch, ps1, es, false, t,
        [Ev c (Some e); Ev EndRecord (Some NoSpaceError); Ev CloseFp None].
      rewrite R3, <- app_assoc.
      repeat split; try assumption; try apply D; try apply S.
      econstructor; eassumption. }
    destruct (fits (post L) zp (body es ++ trailer es)) eqn:Hfit;
      cbn [res post trace].
    + destruct (stored_on_disk file (fs sA) (free sA) (post L) _
                  (mkZipFile zp es false true false) D Hfit) as (D' & S' & _).
      destruct R as [(R1 & _ & R2 & R3) | (ps1 & p & ps2 & c & e & R)].
      * exists l, ch, (rglob scan sd), es, true, t,
          [Ev EndRecord None; Ev CloseFp None].
        rewrite R1, R2.
        repeat split; try assumption; try apply D'.
        -- eapply same_files_trans; eassumption.
        -- eapply same_files_trans; eassumption.
        -- constructor.
      * destruct R as (Hsplit & R2 & R3 & R4 & R5).
        exists l, ch, ps1, es, true, t,
          [Ev c (Some e); Ev EndRecord None; Ev CloseFp None].
        rewrite R2, R3, <- app_assoc.
        repeat split; try assumption; try apply D'.
        -- eapply same_files_trans; eassumption.
        -- eapply same_files_trans; eassumption.
        -- econstructor; eassumption.
    + destruct (cut_short_on_disk file (fs sA) (free sA) (post L)
                  (body es ++ trailer es) (mkZipFile zp es false false true) D)
        as (D' & S' & _).
      destruct R as [(R1 & _ & R2 & R3) | (ps1 & p & ps2 & c & e & R)].
      * exists l, ch, (rglob scan sd), es, false, t,
          [Ev EndRecord (Some NoSpaceError); Ev CloseFp None].
        rewrite R2.
        repeat split; try assumption; try apply D'.
        -- eapply same_files_trans; eassumption.
        -- eapply same_files_trans; eassumption.
        -- constructor.
      * destruct R as (Hsplit & R2 & R3 & R4 & R5).
        exists l, ch, ps1, es, false, t,
          [Ev c (Some e); Ev EndRecord (Some NoSpaceError); Ev CloseFp None].
        rewrite R3, <- app_assoc.
        repeat split; try assumption; try apply D'.
        -- eapply same_files_trans; eassumption.
        -- eapply same_files_trans; eassumption.
        -- econstructor; eassumption.
Qed.

Lemma main_eq (s sA : state) (pre : list event) :
  remove_old file s = mkOutcome (Return tt) sA pre ->
  main body trailer file s
  = match res (package body trailer file sA) with
    | Return _ =>
        mkOutcome (Return tt) (post (package body trailer file sA))
          (pre ++ packaging_line file
               :: trace (package body trailer file sA) ++ [success_line file])
    | Raise e =>
        mkOutcome (Raise e) (post (package body trailer file sA))
          (pre ++ packaging_line file :: trace (package body trailer file sA))
    end.
Proof.
  intros E. unfold main, bind at 1. rewrite E.
  unfold bind, print, emit. cbn [res post trace app].
  destruct (res (package body trailer file sA)); reflexivity.
Qed.

(** Every run is of one of three kinds: the old archive could not be
    deleted, the new one could not be created, or it was created, filled
    as far as the loop got, and closed. *)
Lemma run_spec (root : node) (space : nat) :
  let o := run body trailer file root space in
  (exists e, lookup root zp <> None
             /\ o = mkOutcome (Raise e) (mkState root space None)
                     [Ev (Unlink zp) (Some e)])
  \/ (exists fsA freeA pre,
        removal zp root space fsA freeA pre
        /\ ((exists e, o = mkOutcome (Raise e) (mkState fsA freeA None)
                           (pre ++ [packaging_line file;
                                    Ev (Open zp) (Some e)]))
            \/ packaged file root o fsA freeA pre)).
Proof.
  intros o. subst o. unfold run.
  destruct (remove_old_spec file (mkState root space None))
    as [(e & Hne & E) | (fsA & freeA & pre & Hrem & E)]; simpl fs in *;
    simpl free in *; simpl zf in *.
  - left. exists e. split; [exact Hne|].
    unfold main, bind at 1. rewrite E. reflexivity.
  - right. exists fsA, freeA, pre. split; [exact Hrem|].
    rewrite (main_eq _ _ _ E).
    destruct (removal_fs file root space fsA freeA pre Hrem) as [HfsA Hno].
    pose proof (package_spec (mkState fsA freeA None) Hno) as H.
    cbv zeta in H. simpl fs in H. simpl free in H.
    set (P := package body trailer file (mkState fsA freeA None)) in *.
    destruct H as [(e & E') | H].
    + left. exists e. rewrite E'. reflexivity.
    + right.
      destruct H as (l & ch & ps1 & es & fin & t & tail & Hd & Hc & Z & D
                       & S & A & T & En & Tr).
      assert (Hscan : update_dir (add_entry (name zp) (File true [])) fsA
                        (parent zp) = scan_fs file root)
        by (unfold scan_fs; now rewrite HfsA).
      rewrite Hscan in *.
      exists l, ch, ps1, fin, t, tail.
      destruct (res P) eqn:Hres; unfold archive; cbn [res post trace];
        rewrite Z; cbn [filelist]; rewrite Tr;
        repeat split; try assumption; try apply D; try apply S.
      * inversion En; subst; constructor.
      * cbn [last_line app]. now rewrite <- app_assoc.
      * cbn [last_line]. now rewrite !app_nil_r.
Qed.

End Run.

(** ** The loop, event by event *)

Lemma fits_on_disk (zp : Path) fsA freeA (s : state) (d : bytes) :
  on_disk zp fsA freeA s -> fits s zp d = Nat.leb (List.length d) freeA.
Proof.
  intros [(b & Hb & Hfree) _]. unfold fits. rewrite Hb. simpl.
  now rewrite Hfree.
Qed.

Section Loop.

Variables body trailer : list entry -> bytes.
Variable file : Path.

Local Abbreviation zp := (zip_path file).
Local Abbreviation base := (parent (script_dir file)).

(** One turn of the loop: nothing to add, an entry added, or a call that
    fails. *)
Lemma add_file_exact fsA freeA (scan : node) (s : state) (l : list entry)
  (p : Path) :
  zf s = Some (mkZipFile zp l true false false) ->
  on_disk zp fsA freeA s ->
  same_files zp scan (fs s) ->
  (exists r, p = base ++ r) ->
  let o := add_file body file p s in
  (qualifies scan p = false /\ o = mkOutcome (Return tt) s [])
  \/ (qualifies scan p = true /\
      exists e, added base zp scan p e
        /\ fits s zp (body (l ++ [e])) = true
        /\ o = mkOutcome (Return tt)
                 (stored s zp (body (l ++ [e]))
                    (mkZipFile zp (l ++ [e]) true false false))
                 (turn base e))
  \/ (qualifies scan p = true /\
      exists e tl s', o = mkOutcome (Raise e) s' tl
        /\ turn_fails body base zp scan freeA l p s e tl s').
Proof.
  intros Hzf Hdisk Hsame (r & ->) o. subst o.
  rewrite add_file_eq, (qualifies_same zp scan (fs s) _ Hsame).
  destruct (qualifies scan (base ++ r)) eqn:Q;
    [right | left; split; reflexivity].
  assert (Hfile : is_file_node (lookup (fs s) (base ++ r)) = true).
  { destruct Hsame as [A _]. rewrite A. unfold qualifies in Q.
    now apply andb_prop in Q. }
  rewrite relative_to_app. cbv zeta.
  rewrite (zf_write_eq body file s l) by exact Hzf.
  destruct (lookup (fs s) (base ++ r)) as [[[|] d | |]|] eqn:Hl;
    try discriminate Hfile; cbv beta iota.
  - (* a readable file *)
    assert (Ha : added base zp scan (base ++ r) (r, d)).
    { split; [reflexivity|]. split; [exact Q|].
      intros Hne. destruct Hsame as [_ B]. rewrite <- B by exact Hne.
      now rewrite Hl. }
    match goal with
    | |- context [fits ?x ?y ?z] => destruct (fits x y z) eqn:Hfit
    end; cbn [res post trace app].
    + left. split; [reflexivity|]. exists (r, d).
      split; [exact Ha|]. split; [exact Hfit|]. reflexivity.
    + right. split; [reflexivity|].
      eexists NoSpaceError, _, _. split; [reflexivity|].
      apply (fails_write body base zp scan freeA l (base ++ r) s (r, d) Ha).
      rewrite (fits_on_disk zp fsA freeA s _ Hdisk) in Hfit.
      now apply Nat.leb_gt in Hfit.
  - (* a file that cannot be read *)
    right. split; [reflexivity|].
    eexists (PermissionError (base ++ r)), _, _. split; [reflexivity|].
    assert (Hne : base ++ r <> zp).
    { intros E. destruct Hdisk as [(b & Hb & _) _]. rewrite E in Hl.
      rewrite Hb in Hl. discriminate Hl. }
    apply (fails_read body base zp scan freeA l (base ++ r) s d Hne).
    destruct Hsame as [_ B]. rewrite <- B by exact Hne. now rewrite Hl.
Qed.

(** The loop: a turn for each file that passes the test, in the order of
    the walk, up to the first call that fails; [sk] is the state in which
    that call was made. *)
Lemma loop_exact fsA freeA (scan : node) (ps : list Path) :
  Forall (fun p => exists r, p = base ++ r) ps ->
  forall (s : state) (l : list entry),
  zf s = Some (mkZipFile zp l true false false) ->
  on_disk zp fsA freeA s ->
  same_files zp scan (fs s) ->
  let o := for_each ps (add_file body file) s in
  exists l',
    (res o = Return tt
     /\ zf (post o) = Some (mkZipFile zp (l ++ l') true false false)
     /\ on_disk zp fsA freeA (post o)
     /\ trace o = flat_map (turn base) l'
     /\ Forall2 (added base zp scan) (filter (qualifies scan) ps) l')
    \/ (exists ps1 p ps2 e tl sk,
          ps = ps1 ++ p :: ps2 /\ qualifies scan p = true
          /\ res o = Raise e
          /\ trace o = flat_map (turn base) l' ++ tl
          /\ Forall2 (added base zp scan) (filter (qualifies scan) ps1) l'
          /\ zf sk = Some (mkZipFile zp (l ++ l') true false false)
          /\ on_disk zp fsA freeA sk
          /\ turn_fails body base zp scan freeA (l ++ l') p sk e tl (post o)).
Proof.
  induction 1 as [|p ps Hp Hps IH]; intros s l Hzf Hdisk Hsame.
  - exists []. left. simpl. rewrite app_nil_r.
    repeat split; try assumption; try apply Hdisk. constructor.
  - cbv zeta. rewrite for_each_cons.
    destruct (add_file_exact fsA freeA scan s l p Hzf Hdisk Hsame Hp)
      as [[Q E] | [[Q H] | [Q H]]].
    + (* not a file to add *)
      rewrite E. cbn [res post trace app].
      destruct (IH s l Hzf Hdisk Hsame) as (l' & R).
      exists l'.
      destruct R as [(R1 & R2 & R3 & R4 & R5)
                    | (ps1 & p' & ps2 & e & tl & sk & R)].
      * left. cbn [filter]. rewrite Q. auto.
      * right. exists (p :: ps1), p', ps2, e, tl, sk.
        destruct R as (-> & R2 & R3 & R4 & R5 & R6 & R7 & R8).
        cbn [filter]. rewrite Q. auto 10.
    + (* an entry is added *)
      destruct H as (e & Ha & Hfit & E). rewrite E. cbn [res post trace].
      destruct (stored_on_disk file fsA freeA s _
                  (mkZipFile zp (l ++ [e]) true false false) Hdisk Hfit)
        as (D1 & S1 & _).
      destruct (IH (stored s zp (body (l ++ [e]))
                      (mkZipFile zp (l ++ [e]) true false false))
                  (l ++ [e]) eq_refl D1
                  (same_files_trans _ _ _ _ Hsame S1))
        as (l' & R).
      rewrite <- app_assoc in R. simpl in R.
      exists (e :: l').
      destruct R as [(R1 & R2 & R3 & R4 & R5)
                    | (ps1 & p' & ps2 & e' & tl & sk & R)].
      * left. cbn [filter flat_map]. rewrite Q, R4.
        split; [exact R1|]. split; [exact R2|]. split; [exact R3|].
        split; [reflexivity|]. now constructor.
      * right. exists (p :: ps1), p', ps2, e', tl, sk.
        destruct R as (-> & R2 & R3 & R4 & R5 & R6 & R7 & R8).
        cbn [filter flat_map]. rewrite Q, R4, <- app_assoc.
        split; [reflexivity|]. split; [exact R2|]. split; [exact R3|].
        split; [reflexivity|]. split; [now constructor|]. auto.
    + (* a call fails *)
      destruct H as (e & tl & s' & E & F). rewrite E. cbn [res post trace].
      exists []. rewrite app_nil_r. right.
      exists [], p, ps, e, tl, s.
      split; [reflexivity|]. split; [exact Q|]. split; [reflexivity|].
      split; [reflexivity|]. split; [constructor|]. auto.
Qed.

End Loop.

(** ** A run, event by event *)

Section Run_exact.

Variables body trailer : list entry -> bytes.
Variable file : Path.

Local Abbreviation zp := (zip_path file).
Local Abbreviation sd := (script_dir file).
Local Abbreviation base := (parent (script_dir file)).

(** Deleting the old archive, and creating the new one where nothing is
    left, as equations. *)
Lemma remove_old_exact (s : state) :
  remove_old file s
  = match lookup (fs s) zp with
    | None => mkOutcome (Return tt) s []
    | Some m =>
        if destination_ok (fs s) zp then
          mkOutcome (Return tt)
            (mkState (update_dir (remove_entry (name zp)) (fs s) (parent zp))
                     (free s + size m) (zf s))
            [Ev (Unlink zp) None;
             Ev (Print ("Removed old: " +++ name zp)) None]
        else
          mkOutcome (Raise (destination_error (fs s) zp)) s
            [Ev (Unlink zp) (Some (destination_error (fs s) zp))]
    end.
Proof.
  pose proof (lookup_zp file (fs s)) as Hz.
  unfold destination_ok, destination_error.
  destruct (lookup (fs s) zp) as [m|] eqn:Hl.
  - unfold remove_old, path_exists, unlink, bind, get, ret, print, emit,
      put, fail.
    simpl. rewrite Hl. simpl.
    destruct (lookup (fs s) (parent zp)) as [[| l w ch |]|] eqn:Hp;
      try discriminate Hz.
    rewrite <- Hz.
    destruct w; destruct m as [r d | l' w' ch' |]; reflexivity.
  - unfold remove_old, path_exists, bind, get, ret. simpl. rewrite Hl.
    destruct s; reflexivity.
Qed.

Lemma ZipFile_open_exact (s : state) :
  lookup (fs s) zp = None ->
  ZipFile_open zp s
  = if destination_ok (fs s) zp then
      mkOutcome (Return tt)
        (mkState (update_dir (add_entry (name zp) (File true []))
                             (fs s) (parent zp))
                 (free s) (Some (mkZipFile zp [] true false false)))
        [Ev (Open zp) None]
    else
      mkOutcome (Raise (destination_error (fs s) zp)) s
        [Ev (Open zp) (Some (destination_error (fs s) zp))].
Proof.
  intros Hno. pose proof (lookup_zp file (fs s)) as Hz. rewrite Hno in Hz.
  unfold destination_ok, destination_error. rewrite Hno.
  unfold ZipFile_open, bind, get, put, emit, fail. simpl.
  destruct (lookup (fs s) (parent zp)) as [[| l w ch |]|]; try reflexivity.
  rewrite <- Hz. destruct w; reflexivity.
Qed.

(** Once the old archive is deleted nothing stands in the way of the new
    one. *)
Lemma destination_ok_removed (root : node) :
  destination_ok root zp = true ->
  exists l ch,
    lookup (update_dir (remove_entry (name zp)) root (parent zp)) (parent zp)
    = Some (Dir l true ch)
    /\ assoc (name zp) ch = None
    /\ lookup (update_dir (remove_entry (name zp)) root (parent zp)) zp = None
    /\ destination_ok (update_dir (remove_entry (name zp)) root (parent zp)) zp
       = true.
Proof.
  intros Hok.
  set (fsA := update_dir (remove_entry (name zp)) root (parent zp)).
  assert (Hno : lookup fsA zp = None).
  { subst fsA. rewrite (zip_path_split file) at 3. apply lookup_remove_entry. }
  assert (Hp : lookup fsA (parent zp)
               = option_map (fun m => update_dir (remove_entry (name zp)) m [])
                   (lookup root (parent zp))).
  { pose proof (lookup_update_dir_above (remove_entry (name zp)) root
                  (parent zp) []) as H.
    now rewrite app_nil_r in H. }
  unfold destination_ok in *. rewrite Hno, Hp.
  destruct (lookup root (parent zp)) as [[| l [|] ch |]|] eqn:Hd;
    try discriminate Hok.
  simpl. exists l, (remove_entry (name zp) ch).
  repeat split.
  pose proof (lookup_zp file fsA) as Hz. rewrite Hno, Hp in Hz.
  simpl in Hz. now symmetry.
Qed.

Local Ltac trace_eq :=
  cbn [last_line app]; rewrite <- ?app_assoc; cbn [app]; reflexivity.

(** The end of a run whose loop left the state [sL], no bytes pending. *)
Lemma close_exact fsA freeA (sL : state) (es : list entry) :
  zf sL = Some (mkZipFile zp es true false false) ->
  on_disk zp fsA freeA sL ->
  exists fin data,
    closes body trailer es freeA fin data
    /\ res (zf_close body trailer sL)
       = (if fin then Return tt else Raise NoSpaceError)
    /\ trace (zf_close body trailer sL)
       = [Ev EndRecord (if fin then None else Some NoSpaceError);
          Ev CloseFp None]
    /\ zf (post (zf_close body trailer sL))
       = Some (mkZipFile zp es false fin (negb fin))
    /\ lookup (fs (post (zf_close body trailer sL))) zp = Some (File true data)
    /\ on_disk zp fsA freeA (post (zf_close body trailer sL)).
Proof.
  intros Z D. rewrite (zf_close_eq body trailer file sL es false Z).
  rewrite (fits_on_disk zp fsA freeA sL _ D). unfold closes.
  exists (Nat.leb (List.length (body es ++ trailer es)) freeA).
  destruct (Nat.leb (List.length (body es ++ trailer es)) freeA) eqn:Hfin.
  - assert (Hfit : fits sL zp (body es ++ trailer es) = true)
      by (now rewrite (fits_on_disk zp fsA freeA sL _ D)).
    destruct (stored_on_disk file fsA freeA sL _
                (mkZipFile zp es false true false) D Hfit) as (D' & _ & B').
    eexists. split; [split; reflexivity|]. cbn [res post trace].
    repeat split; try assumption; apply D'.
  - destruct (cut_short_on_disk file fsA freeA sL (body es ++ trailer es)
                (mkZipFile zp es false false true) D) as (D' & _ & B' & _).
    eexists. split; [split; reflexivity|]. cbn [res post trace].
    repeat split; try assumption; apply D'.
Qed.

Lemma on_disk_bytes (q : Path) fsA freeA (s : state) (data : bytes) :
  on_disk q fsA freeA s ->
  lookup (fs s) q = Some (File true data) ->
  free s + List.length data = freeA
  /\ update_dir (remove_entry (name q)) (fs s) (parent q) = fsA.
Proof.
  intros [(b & Hb & Hf) Ht] B. rewrite B in Hb. injection Hb as <-. auto.
Qed.

(** Every run: the destination cannot be written and nothing changes, or
    the archive is created, filled as far as the loop gets, and closed. *)
Lemma run_exact (root : node) (space : nat) :
  let o := run body trailer file root space in
  if destination_ok root zp then filled body trailer file root space o
  else post o = mkState root space None
       /\ res o = Raise (destination_error root zp)
       /\ trace o
          = if exists_node (lookup root zp)
            then [Ev (Unlink zp) (Some (destination_error root zp))]
            else [packaging_line file;
                  Ev (Open zp) (Some (destination_error root zp))].
Proof.
  intros o. subst o. unfold run.
  set (s0 := mkState root space None).
  pose proof (remove_old_exact s0) as ER. cbn [fs free zf s0] in ER.
  destruct (destination_ok root zp) eqn:Hok.
  - (* the archive is created *)
    set (fsA := update_dir (remove_entry (name zp)) root (parent zp)).
    set (freeA := space + old_size root zp).
    set (pre := if exists_node (lookup root zp)
                then [Ev (Unlink zp) None;
                      Ev (Print ("Removed old: " +++ name zp)) None]
                else []).
    assert (E : remove_old file s0
                = mkOutcome (Return tt) (mkState fsA freeA None) pre).
    { rewrite ER. subst fsA freeA pre. unfold old_size.
      destruct (lookup root zp) as [m|] eqn:Hl; [reflexivity|].
      simpl. rewrite Nat.add_0_r. subst s0. f_equal. f_equal.
      symmetry. apply update_dir_id. intros l w ch Hd.
      apply remove_entry_absent.
      rewrite (lookup_zp file), Hd in Hl. exact Hl. }
    destruct (destination_ok_removed root Hok)
      as (l & ch & Hd & Hc & Hno & Hok').
    fold fsA in Hd, Hno, Hok'.
    set (sA := mkState fsA freeA None) in *.
    set (scan := scan_fs file root).
    set (s1 := mkState scan freeA (Some (mkZipFile zp [] true false false))).
    assert (E2 : ZipFile_open zp sA
                 = mkOutcome (Return tt) s1 [Ev (Open zp) None]).
    { rewrite ZipFile_open_exact by exact Hno. cbn [fs free sA].
      now rewrite Hok'. }
    rewrite (main_eq body trailer file s0 sA pre E).
    rewrite (package_eq body trailer file sA s1 E2). cbv zeta. cbn [fs s1].
    assert (Hps : Forall (fun p => exists r, p = base ++ r) (rglob scan sd)).
    { apply Forall_forall. intros p Hp.
      destruct (rglob_below _ _ _ Hp) as (r & _ & ->).
      destruct (script_dir_below_parent file) as (x & Hx).
      exists (x ++ r). rewrite app_assoc, <- Hx. reflexivity. }
    destruct (loop_exact body file fsA freeA scan _ Hps s1 []
                eq_refl (created_on_disk file sA l ch Hd Hc)
                (same_files_refl zp scan))
      as (es & R).
    simpl app in R.
    set (L := for_each (rglob scan sd) (add_file body file) s1) in *.
    unfold filled. cbv zeta. fold scan. fold freeA. fold fsA. fold pre.
    destruct R as [(R1 & Z & D & R2 & R3)
                  | (ps1 & p & ps2 & e & tl & sk & Hps1 & Q & R1 & R2 & R3
                       & Zk & Dk & F)].
    + (* the loop got through *)
      destruct (close_exact fsA freeA (post L) es Z D)
        as (fin & data & Hc' & Cr & Ct & Cz & Cb & Cd).
      destruct (on_disk_bytes zp fsA freeA _ data Cd Cb) as [Hf Ht].
      exists (rglob scan sd), [], fin, data.
      rewrite R1, R2, Cr, Ct.
      destruct fin; unfold archive; cbn [res post trace]; rewrite Cz;
        cbn [filelist];
        (split; [reflexivity|]); (split; [exact Cb|]); (split; [exact Hf|]);
        (split; [exact Ht|]); (split; [exact R3|]);
        (split; [trace_eq|]); left; auto.
    + inversion F as [d Hne Hd' I1 I2 I3 | e' Ha Hlen I1 I2 I3].
      * (* a file could not be read *)
        subst e tl sk.
        destruct (close_exact fsA freeA (post L) es Zk Dk)
          as (fin & data & Hc' & Cr & Ct & Cz & Cb & Cd).
        destruct (on_disk_bytes zp fsA freeA _ data Cd Cb) as [Hf Ht].
        exists ps1, [Ev (ReadFile p) (Some (PermissionError p))], fin, data.
        rewrite R1, R2, Cr, Ct.
        destruct fin; unfold archive; cbn [res post trace]; rewrite Cz;
          cbn [filelist];
          (split; [reflexivity|]); (split; [exact Cb|]); (split; [exact Hf|]);
          (split; [exact Ht|]); (split; [exact R3|]);
          (split; [trace_eq|]); right; left; exists p, ps2, d; auto 10.
      * (* an entry did not fit *)
        subst e tl.
        destruct (cut_short_on_disk file fsA freeA sk (body (es ++ [e']))
                    (mkZipFile zp es true false true) Dk)
          as (D' & _ & B' & _).
        rewrite (zf_close_eq body trailer file
                   (cut_short sk zp (body (es ++ [e']))
                      (mkZipFile zp es true false true)) es true eq_refl).
        destruct (on_disk_bytes zp fsA freeA _ _ D' B') as [Hf Ht].
        exists ps1,
          [Ev (ReadFile p) None; Ev (WriteEntry (fst e')) (Some NoSpaceError)],
          false, (firstn freeA (body (es ++ [e']))).
        rewrite R1, R2. unfold archive.
        cbn [res post trace zf fs free filelist].
        split; [reflexivity|]. split; [exact B'|]. split; [exact Hf|].
        split; [exact Ht|]. split; [exact R3|].
        split; [trace_eq|].
        right. right. exists p, ps2, e'. auto 10.
  - (* the destination cannot be written *)
    destruct (lookup root zp) as [m|] eqn:Hl.
    + assert (E : main body trailer file s0
                  = mkOutcome (Raise (destination_error root zp)) s0
                      [Ev (Unlink zp) (Some (destination_error root zp))])
        by (unfold main, bind at 1; rewrite ER; reflexivity).
      rewrite E. cbn [res post trace exists_node]. auto.
    + assert (EP : package body trailer file s0
                   = mkOutcome (Raise (destination_error root zp)) s0
                       [Ev (Open zp) (Some (destination_error root zp))]).
      { unfold package, with_ZipFile, bind at 1.
        rewrite (ZipFile_open_exact s0) by exact Hl. cbn [fs s0].
        rewrite Hok. reflexivity. }
      rewrite (main_eq body trailer file s0 s0 [] ER), EP.
      cbn [res post trace exists_node app]. auto.
Qed.

End Run_exact.

(** ** What the archive holds *)

Lemma Forall2_In_r {A B} (R : A -> B -> Prop) (l : list A) (l' : list B) (y : B) :
  Forall2 R l l' -> In y l' -> exists x, In x l /\ R x y.
Proof.
  induction 1 as [|x y' l l' HR _ IH]; simpl; [contradiction|].
  intros [<- | H].
  - exists x. auto.
  - destruct (IH H) as (x' & Hx & HR'). exists x'. auto.
Qed.

Lemma Forall2_In_l {A B} (R : A -> B -> Prop) (l : list A) (l' : list B) (x : A) :
  Forall2 R l l' -> In x l -> exists y, In y l' /\ R x y.
Proof.
  induction 1 as [|x' y l l' HR _ IH]; simpl; [contradiction|].
  intros [<- | H].
  - exists y. auto.
  - destruct (IH H) as (y' & Hy & HR'). exists y'. auto.
Qed.

Lemma ending_incl (ps ps1 : list Path) fin r t :
  ending ps ps1 fin r t -> incl ps1 ps.
Proof.
  intros [ | | ps1' p ps2 c e -> _ | ps1' p ps2 c e -> _]; intros x Hx;
    try assumption; apply in_or_app; now left.
Qed.

Section Archive_facts.

Variables body trailer : list entry -> bytes.
Variable file : Path.
Variable root : node.
Variable space : nat.

Local Abbreviation zp := (zip_path file).
Local Abbreviation sd := (script_dir file).
Local Abbreviation base := (parent (script_dir file)).
Local Abbreviation o := (run body trailer file root space).
Local Abbreviation scan := (scan_fs file root).

(** Every entry was added for a path of the walk that passed the test. *)
Lemma archive_added (e : entry) :
  In e (archive o) ->
  exists p, In p (rglob scan sd) /\ added base zp scan p e.
Proof.
  destruct (run_spec body trailer file root space)
    as [(x & _ & E) | (fsA & freeA & pre & _ & [(x & E) | H])].
  - rewrite E. contradiction.
  - rewrite E. contradiction.
  - destruct H as (l & ch & ps1 & fin & t & tail & _ & _ & _ & _ & _ & A
                     & _ & En & _).
    intros Hin. destruct (Forall2_In_r _ _ _ _ A Hin) as (p & Hp & Ha).
    exists p. split; [|exact Ha].
    apply filter_In in Hp. eapply ending_incl; [exact En|apply Hp].
Qed.

(** The file an entry was added for. *)
Lemma archive_file (n : Path) (d : bytes) :
  In (n, d) (archive o) ->
  exists r, r <> [] /\ base ++ n = sd ++ r
            /\ qualifies scan (base ++ n) = true.
Proof.
  intros Hin. destruct (archive_added _ Hin) as (p & Hp & Hbase & Hq & _).
  simpl in Hbase. subst p.
  destruct (rglob_below _ _ _ Hp) as (r & Hr & E).
  exists r. auto.
Qed.

End Archive_facts.

(** ** Names of the entries *)

Lemma prefix_append (s t : string) : String.prefix s (s +++ t) = true.
Proof.
  induction s as [|a s IH]; simpl.
  - now destruct t.
  - destruct (ascii_dec a a); [exact IH|contradiction].
Qed.

Lemma prefix_str_cons (s : string) (r : Path) :
  r <> [] -> String.prefix s (str (s :: r)) = true.
Proof.
  intros Hr. destruct r as [|c r]; [contradiction|].
  unfold str. cbn [String.concat]. apply prefix_append.
Qed.


(** C3. Exclusion goes by base name alone: a path whose last component is
    [repackage.py], at whatever depth and whether or not it is the script
    that runs, has no entry in the archive. *)
Theorem repackage_py_excluded
  (body trailer : list entry -> bytes) (file : Path) (root : node) (space : nat)
  (p n : Path) :
  name p = "repackage.py" ->
  relative_to p (parent (script_dir file)) = Return n ->
  ~ In n (namelist (run body trailer file root space)).
Proof.
  intros Hname Hrel Hin. apply relative_to_inv in Hrel.
  unfold namelist in Hin. apply in_map_iff in Hin.
  destruct Hin as ([n' d] & Hn & Hin). simpl in Hn. subst n'.
  destruct (archive_file body trailer file root space n d Hin)
    as (r & _ & _ & Q).
  rewrite <- Hrel in Q. unfold qualifies in Q. rewrite Hname in Q.
  rewrite andb_comm in Q. discriminate Q.
Qed.

Lemma repackage_py_excluded_witness :
  name ["x"; "debug"; "b"; "repackage.py"] = "repackage.py"
  /\ relative_to ["x"; "debug"; "b"; "repackage.py"]
       (parent (script_dir demo_file))
     = Return ["debug"; "b"; "repackage.py"]
  /\ ~ In ["debug"; "b"; "repackage.py"]
          (namelist (run demo_body demo_trailer demo_file demo_tree 100)).
Proof.
  split; [reflexivity|]. split; [reflexivity|].
  apply (repackage_py_excluded demo_body demo_trailer demo_file demo_tree 100
           ["x"; "debug"; "b"; "repackage.py"]); reflexivity.
Defined.

(** The run of the usage example: the nested [b/repackage.py], which is
    not the script that runs, is left out like the script itself. *)
Example demo_namelist :
  namelist (run demo_body demo_trailer demo_file demo_tree 100)
  = [["debug"; "a.txt"]; ["debug"; "b"; "c.txt"]].
Proof. reflexivity. Qed.

(** ** Where the archive lies *)

Lemma zip_path_outside (file : Path) :
  script_dir file <> [] -> forall r, zip_path file <> script_dir file ++ r.
Proof.
  intros Hsd r E. rewrite zip_path_eq in E.
  rewrite (script_dir_split file Hsd) in E at 2.
  rewrite <- app_assoc in E. apply app_inv_head in E.
  injection E as E _. now apply zip_name_neq in E.
Qed.

(** C10, as stated, fails for a script in the root directory: the root is
    its own parent and its base name is empty, so the archive is [/.zip],
    created inside the tree that is walked; the walk yields it and it is
    added to itself. *)
Lemma archive_in_root_holds_itself :
  let file := ["repackage.py"] in
  let root := Dir true true [("repackage.py", File true [Byte.x23])] in
  let o := run demo_body demo_trailer file root 100 in
  script_dir file = []
  /\ zip_path file = [".zip"]
  /\ In (zip_path file) (rglob (scan_fs file root) (script_dir file))
  /\ res o = Return tt
  /\ namelist o = [[".zip"]]
  /\ parent (script_dir file) ++ [".zip"] = zip_path file.
Proof. repeat split. vm_compute. auto. Qed.

(** C10, amended.  When the script path holds no [..] and the source
    directory is not the root, the archive lies in the parent of the source
    directory and outside the tree that is walked: the walk does not yield
    it and no entry is added for it. *)
Theorem archive_outside_source
  (body trailer : list entry -> bytes) (file : Path) (root : node) (space : nat) :
  normalized file = true ->
  script_dir file <> [] ->
  parent (zip_path file) = parent (script_dir file)
  /\ (forall r, zip_path file <> script_dir file ++ r)
  /\ ~ In (zip_path file) (rglob (scan_fs file root) (script_dir file))
  /\ forall n, In n (namelist (run body trailer file root space)) ->
               parent (script_dir file) ++ n <> zip_path file.
Proof.
  intros _ Hsd.
  pose proof (zip_path_outside file Hsd) as Hout.
  split; [apply parent_zip_path|]. split; [exact Hout|]. split.
  - intros Hin. destruct (rglob_below _ _ _ Hin) as (r & _ & E).
    now apply (Hout r).
  - intros n Hin E. unfold namelist in Hin. apply in_map_iff in Hin.
    destruct Hin as ([n' d] & Hn & Hin). simpl in Hn. subst n'.
    destruct (archive_file body trailer file root space n d Hin)
      as (r & _ & E' & _).
    apply (Hout r). now rewrite <- E, E'.
Qed.

Lemma archive_outside_source_witness :
  normalized demo_file = true
  /\ script_dir demo_file <> []
  /\ (parent (zip_path demo_file) = parent (script_dir demo_file)
      /\ (forall r, zip_path demo_file <> script_dir demo_file ++ r)
      /\ ~ In (zip_path demo_file)
              (rglob (scan_fs demo_file demo_tree) (script_dir demo_file))
      /\ forall n,
           In n (namelist (run demo_body demo_trailer demo_file demo_tree 100)) ->
           parent (script_dir demo_file) ++ n <> zip_path demo_file).
Proof.
  split; [reflexivity|]. split.
  - discriminate.
  - apply (archive_outside_source demo_body demo_trailer demo_file demo_tree 100).
    + reflexivity.
    + discriminate.
Defined.

(** ** The trace of a run *)

Lemma loop_ok_inner (t : list event) :
  Forall loop_ok t -> Forall inner t /\ Forall succeeded t.
Proof.
  induction 1 as [|[c e] t [He Hc] _ [IH1 IH2]]; split; constructor;
    try assumption.
  simpl in *. unfold inner. simpl. now destruct c.
Qed.

Lemma removal_events (zp : Path) (root : node) (space : nat) fsA freeA pre :
  removal zp root space fsA freeA pre ->
  Forall succeeded pre
  /\ (forall q e, ~ In (Ev (Open q) e) pre)
  /\ (lookup root zp <> None -> In (Ev (Unlink zp) None) pre).
Proof.
  intros [Hno | m l ch Hm Hp].
  - repeat split; [constructor|intros q e H; destruct H|congruence].
  - repeat split.
    + repeat constructor.
    + intros q e [H | [H | []]]; discriminate H.
    + intros _. now left.
Qed.

(** The trace of a run that opened the archive: the loop, the call that
    failed if one did, and the two calls of [close]. *)
Lemma packaged_trace (file : Path) (root : node) (o : outcome unit)
  fsA freeA pre :
  packaged file root o fsA freeA pre ->
  exists (t bad : list event) (fin : bool),
    Forall loop_ok t
    /\ trace o = pre ++ packaging_line file :: Ev (Open (zip_path file)) None
                   :: t ++ bad
                   ++ [Ev EndRecord (if fin then None else Some NoSpaceError);
                       Ev CloseFp None]
                   ++ last_line file (res o)
    /\ zf (post o)
       = Some (mkZipFile (zip_path file) (archive o) false fin (negb fin))
    /\ (bad = [] \/ exists c e, loop_call c /\ bad = [Ev c (Some e)])
    /\ (fin = false -> res o = Raise NoSpaceError)
    /\ (fin = true -> bad = [] -> res o = Return tt)
    /\ (fin = true -> forall c e, bad = [Ev c (Some e)] -> res o = Raise e).
Proof.
  intros (l & ch & ps1 & fin & t & tail & _ & _ & Z & _ & _ & _ & T & En & Tr).
  exists t.
  inversion En as [ E1 E2 E3 E4 | E1 E2 E3 E4
                  | ps1' p ps2 c e Hs Hc E1 E2 E3 E4
                  | ps1' p ps2 c e Hs Hc E1 E2 E3 E4 ]; subst.
  - exists [], true. rewrite <- E3 in *.
    repeat split; try assumption; try discriminate; auto.
  - exists [], false. rewrite <- E3 in *.
    repeat split; try assumption; try discriminate; auto.
  - exists [Ev c (Some e)], true. rewrite <- E3 in *.
    repeat split; try assumption; try discriminate.
    + right. now exists c, e.
    + intros _ c' e' E. now injection E as _ ->.
  - exists [Ev c (Some e)], false. rewrite <- E3 in *.
    repeat split; try assumption; try discriminate.
    right. now exists c, e.
Qed.

(** ** The destination *)

(** The calls of the loop that succeed neither delete nor create a file;
    no call after the opening of the archive does. *)
Lemma turns_loop_ok (base : Path) (es : list entry) :
  Forall loop_ok (flat_map (turn base) es).
Proof.
  induction es as [|e es IH]; [constructor|].
  cbn [flat_map turn app]. repeat (constructor; [now split|]). exact IH.
Qed.

Lemma filled_after_open
  (body trailer : list entry -> bytes) (file : Path) (root : node) (space : nat)
  (o : outcome unit) :
  filled body trailer file root space o ->
  exists pre rest tl,
    trace o = pre ++ [packaging_line file; Ev (Open (zip_path file)) None]
                  ++ rest
    /\ pre = (if exists_node (lookup root (zip_path file))
              then [Ev (Unlink (zip_path file)) None;
                    Ev (Print ("Removed old: " +++ name (zip_path file))) None]
              else [])
    /\ Forall inner rest
    /\ (forall c e, loop_call c -> In (Ev c (Some e)) (trace o) ->
          In (Ev c (Some e)) tl)
    /\ (forall a, In (Ev (WriteEntry a) (Some NoSpaceError)) (trace o) <->
          In (Ev (WriteEntry a) (Some NoSpaceError)) tl)
    /\ exists ps1 fin data,
         zf (post o)
         = Some (mkZipFile (zip_path file) (archive o) false fin (negb fin))
         /\ In (Ev EndRecord (if fin then None else Some NoSpaceError))
               (trace o)
         /\ lookup (fs (post o)) (zip_path file) = Some (File true data)
         /\ free (post o) + List.length data
            = space + old_size root (zip_path file)
         /\ Forall2 (added (parent (script_dir file)) (zip_path file)
                           (scan_fs file root))
              (filter (qualifies (scan_fs file root)) ps1) (archive o)
         /\ ((ps1 = rglob (scan_fs file root) (script_dir file) /\ tl = []
              /\ closes body trailer (archive o)
                   (space + old_size root (zip_path file)) fin data
              /\ res o = if fin then Return tt else Raise NoSpaceError)
             \/ (exists p ps2 d,
                   rglob (scan_fs file root) (script_dir file)
                   = ps1 ++ p :: ps2
                   /\ qualifies (scan_fs file root) p = true
                   /\ p <> zip_path file
                   /\ file_of (lookup (scan_fs file root) p) = Some (false, d)
                   /\ tl = [Ev (ReadFile p) (Some (PermissionError p))]
                   /\ closes body trailer (archive o)
                        (space + old_size root (zip_path file)) fin data
                   /\ res o = Raise (if fin then PermissionError p
                                     else NoSpaceError))
             \/ (exists p ps2 e,
                   rglob (scan_fs file root) (script_dir file)
                   = ps1 ++ p :: ps2
                   /\ qualifies (scan_fs file root) p = true
                   /\ added (parent (script_dir file)) (zip_path file)
                            (scan_fs file root) p e
                   /\ space + old_size root (zip_path file)
                      < List.length (body (archive o ++ [e]))
                   /\ tl = [Ev (ReadFile p) None;
                            Ev (WriteEntry (fst e)) (Some NoSpaceError)]
                   /\ fin = false
                   /\ data = firstn (space + old_size root (zip_path file))
                               (body (archive o ++ [e]))
                   /\ res o = Raise NoSpaceError)).
Proof.
  intros (ps1 & tl & fin & data & Z & B & Fr & _ & A & T & R).
  set (pre := if exists_node (lookup root (zip_path file))
              then [Ev (Unlink (zip_path file)) None;
                    Ev (Print ("Removed old: " +++ name (zip_path file))) None]
              else []) in *.
  set (turns := flat_map (turn (parent (script_dir file))) (archive o)) in *.
  set (closing := [Ev EndRecord (if fin then None else Some NoSpaceError);
                   Ev CloseFp None]) in *.
  assert (Htl : Forall inner tl).
  { destruct R as [(_ & -> & _) | [(p & ps2 & d & _ & _ & _ & _ & -> & _)
                                  | (p & ps2 & e & _ & _ & _ & _ & -> & _)]];
      repeat constructor. }
  assert (Hpre : forall ev, In ev pre ->
                   ev_err ev = None /\ ~ loop_call (ev_call ev)
                   \/ exists s, ev = Ev (Print s) None).
  { intros ev Hin. subst pre.
    destruct (exists_node (lookup root (zip_path file)));
      [|contradiction].
    destruct Hin as [<- | [<- | []]]; [left; split; auto | right; eauto]. }
  assert (Hother : forall c e,
             In (Ev c (Some e)) (trace o) ->
             In (Ev c (Some e)) tl \/ c = EndRecord).
  { intros c e Hin. rewrite T in Hin.
    apply in_app_or in Hin. destruct Hin as [Hin | Hin].
    { destruct (Hpre _ Hin) as [[H _] | (s & H)]; discriminate H. }
    destruct Hin as [Hin | [Hin | Hin]]; try discriminate Hin.
    cbn [app] in Hin.
    apply in_app_or in Hin. destruct Hin as [Hin | Hin].
    { pose proof (turns_loop_ok (parent (script_dir file)) (archive o)) as Hok.
      rewrite Forall_forall in Hok. destruct (Hok _ Hin) as [H _].
      discriminate H. }
    apply in_app_or in Hin. destruct Hin as [Hin | Hin]; [now left|].
    destruct Hin as [Hin | [Hin | Hin]]; try discriminate Hin.
    - injection Hin as <- _. now right.
    - destruct (res o); [destruct Hin as [Hin | []]; discriminate Hin
                        | contradiction]. }
  exists pre, (turns ++ tl ++ closing ++ last_line file (res o)), tl.
  split; [exact T|]. split; [reflexivity|]. split.
  { apply Forall_app. split.
    - apply (loop_ok_inner _ (turns_loop_ok _ _)).
    - apply Forall_app. split; [exact Htl|].
      constructor; [exact I|]. constructor; [exact I|].
      destruct (res o); repeat constructor. }
  split.
  { intros c e Hc Hin. destruct (Hother c e Hin) as [H | ->];
      [exact H | destruct Hc]. }
  split.
  { intros a. split.
    - intros Hin. destruct (Hother _ _ Hin) as [H | H];
        [exact H | discriminate H].
    - intros Hin. rewrite T. apply in_or_app. right. cbn [app].
      right. right. apply in_or_app. right. apply in_or_app. now left. }
  exists ps1, fin, data. split; [exact Z|]. split.
  { rewrite T. subst closing. apply in_or_app. right. cbn [app].
    right. right. apply in_or_app. right. apply in_or_app. right.
    cbn [app]. now left. }
  auto.
Qed.

(** C4. The archive is written to the parent of the source directory,
    under the base name of the source directory followed by [.zip].  For a
    script path without [..]: when that destination can be written, the
    first step of a run deletes what is at the path, if something is, and
    leaves nothing there; only then is the archive opened, at that path, and
    after that nothing is deleted or opened; a file, the new one, is at the
    path when the run ends.  When the destination cannot be written the run
    ends with the error of the deletion, or of the opening, and has changed
    nothing: nothing is opened unless the deletion has succeeded. *)
Theorem old_archive_removed_first
  (body trailer : list entry -> bytes) (file : Path) (root : node) (space : nat) :
  let o := run body trailer file root space in
  let zp := zip_path file in
  let s0 := mkState root space None in
  normalized file = true ->
  zp = truediv (parent (script_dir file)) (name (script_dir file) +++ ".zip")
  /\ zp = parent (script_dir file) ++ [name (script_dir file) +++ ".zip"]
  /\ if destination_ok root zp then
       res (remove_old file s0) = Return tt
       /\ trace (remove_old file s0)
          = (if exists_node (lookup root zp)
             then [Ev (Unlink zp) None;
                   Ev (Print ("Removed old: " +++ name zp)) None]
             else [])
       /\ lookup (fs (post (remove_old file s0))) zp = None
       /\ (exists rest,
             trace o = trace (remove_old file s0)
                         ++ [packaging_line file; Ev (Open zp) None] ++ rest
             /\ Forall inner rest)
       /\ exists data, lookup (fs (post o)) zp = Some (File true data)
     else
       post o = s0
       /\ exit_status (res o) = 1
       /\ trace o
          = if exists_node (lookup root zp)
            then [Ev (Unlink zp) (Some (destination_error root zp))]
            else [packaging_line file;
                  Ev (Open zp) (Some (destination_error root zp))].
Proof.
  intros o zp s0 _. subst zp.
  split; [reflexivity|]. split; [apply zip_path_eq|].
  pose proof (run_exact body trailer file root space) as H.
  cbv zeta in H. fold o in H.
  pose proof (remove_old_exact file s0) as ER. cbn [fs free zf s0] in ER.
  destruct (destination_ok root (zip_path file)) eqn:Hok.
  - destruct (filled_after_open _ _ _ _ _ _ H)
      as (pre & rest & tl & T & Hpre & Hin & _ & _ & ps1 & fin & data & _ & _
            & B & _).
    assert (Et : trace (remove_old file s0) = pre).
    { rewrite ER, Hpre. now destruct (lookup root (zip_path file)). }
    split; [rewrite ER; now destruct (lookup root (zip_path file))|].
    split; [now rewrite Et|]. split.
    { rewrite ER. destruct (lookup root (zip_path file)) eqn:Hl;
        cbn [post fs s0]; [|exact Hl].
      rewrite (zip_path_split file) at 3. apply lookup_remove_entry. }
    split; [exists rest; rewrite Et; auto|]. now exists data.
  - destruct H as (-> & -> & ->). auto.
Qed.

Lemma old_archive_removed_first_witness :
  let o := run demo_body demo_trailer demo_file demo_tree_old 100 in
  let zp := zip_path demo_file in
  let s0 := mkState demo_tree_old 100 None in
  normalized demo_file = true
  /\ lookup demo_tree_old zp = Some (File true [Byte.x6f; Byte.x6c; Byte.x64])
  /\ destination_ok demo_tree_old zp = true
  /\ res (remove_old demo_file s0) = Return tt
  /\ trace (remove_old demo_file s0)
     = [Ev (Unlink zp) None; Ev (Print ("Removed old: " +++ name zp)) None]
  /\ lookup (fs (post (remove_old demo_file s0))) zp = None
  /\ (exists rest,
        trace o = trace (remove_old demo_file s0)
                    ++ [packaging_line demo_file; Ev (Open zp) None] ++ rest
        /\ Forall inner rest)
  /\ exists data, lookup (fs (post o)) zp = Some (File true data).
Proof.
  split; [reflexivity|]. split; [reflexivity|]. split; [reflexivity|].
  exact (proj2 (proj2 (old_archive_removed_first demo_body demo_trailer
                         demo_file demo_tree_old 100 eq_refl))).
Defined.

Lemma closing_calls (x : option exn) :
  Forall closing [Ev EndRecord x; Ev CloseFp None]
  /\ Forall closing [Ev CloseFp None].
Proof.
  split; repeat (constructor; [first [now left | now right]|]); constructor.
Qed.

(** ** Failures *)

(** C7, as stated, fails: a source directory that cannot be listed is no
    error.  The walk yields nothing for it, no call fails, and the run ends
    with exit status 0 and an archive without entries, although a regular
    file lies in the directory. *)
Lemma unlistable_source_exits_zero :
  let o := run demo_body demo_trailer demo_file demo_tree_unlistable 100 in
  source_unreadable demo_tree_unlistable (script_dir demo_file)
  /\ content_at demo_tree_unlistable ["x"; "debug"; "a.txt"] [Byte.x61]
  /\ res o = Return tt
  /\ exit_status (res o) = 0
  /\ Forall succeeded (trace o)
  /\ archive o = [].
Proof.
  split; [exact I|]. split; [now exists true|].
  repeat split. vm_compute. repeat constructor.
Qed.

(** C7, amended.  The script catches and retries nothing: the trace of a
    run is a sequence of calls that succeeded, followed by nothing, and then
    the run ends with exit status 0, or by one failed call, after which
    only the closing of the archive takes place and the run ends with that
    error (with the error of [close] when closing fails as well) and exit
    status 1.  A source directory that is missing or cannot be listed is
    no failure: the archive is left without entries. *)
Theorem failed_call_aborts
  (body trailer : list entry -> bytes) (file : Path) (root : node) (space : nat) :
  let o := run body trailer file root space in
  (exists good bad,
      trace o = good ++ bad
      /\ Forall succeeded good
      /\ ((bad = [] /\ res o = Return tt /\ exit_status (res o) = 0)
          \/ (exists c e rest,
                bad = Ev c (Some e) :: rest
                /\ Forall closing rest
                /\ exit_status (res o) = 1
                /\ (res o = Raise e
                    \/ (res o = Raise NoSpaceError
                        /\ In (Ev EndRecord (Some NoSpaceError)) rest)))))
  /\ (source_unreadable (scan_fs file root) (script_dir file) ->
      namelist o = []).
Proof.
  intros o. subst o. split.
  - destruct (run_spec body trailer file root space)
      as [(x & _ & E) | (fsA & freeA & pre & Hrem & [(x & E) | H])].
    + exists [], [Ev (Unlink (zip_path file)) (Some x)]. rewrite E.
      repeat split; [constructor|]. right.
      exists (Unlink (zip_path file)), x, []. repeat split; auto.
    + destruct (removal_events _ _ _ _ _ _ Hrem) as (Hs & _ & _).
      exists (pre ++ [packaging_line file]),
        [Ev (Open (zip_path file)) (Some x)].
      rewrite E. simpl trace. rewrite <- app_assoc.
      repeat split.
      * apply Forall_app. split; [exact Hs|]. repeat constructor.
      * right. exists (Open (zip_path file)), x, []. repeat split; auto.
    + destruct (removal_events _ _ _ _ _ _ Hrem) as (Hs & _ & _).
      destruct (packaged_trace _ _ _ _ _ _ H)
        as (t & bad & fin & T & Tr & _ & Hbad & R1 & R2 & R3).
      destruct (loop_ok_inner t T) as [_ Ts].
      assert (Hgood : Forall succeeded
                        (pre ++ packaging_line file
                             :: Ev (Open (zip_path file)) None :: t)).
      { apply Forall_app. split; [exact Hs|]. now repeat constructor. }
      destruct Hbad as [-> | (c & e & Hc & ->)]; destruct fin.
      * (* nothing failed *)
        rewrite (R2 eq_refl eq_refl) in *.
        exists (trace (run body trailer file root space)), [].
        rewrite app_nil_r. split; [reflexivity|]. split.
        -- rewrite Tr. apply Forall_app. split; [exact Hs|].
           constructor; [reflexivity|]. constructor; [reflexivity|].
           apply Forall_app. split; [exact Ts|]. now repeat constructor.
        -- left. auto.
      * (* the end record could not be written *)
        rewrite (R1 eq_refl) in *.
        eexists _, [Ev EndRecord (Some NoSpaceError); Ev CloseFp None].
        split; [rewrite Tr; cbn [last_line app];
                rewrite app_comm_cons, app_comm_cons, app_assoc; reflexivity|].
        split; [exact Hgood|]. right.
        exists EndRecord, NoSpaceError, [Ev CloseFp None].
        split; [reflexivity|]. split; [apply (closing_calls None)|].
        split; [reflexivity|]. now left.
      * (* a call of the loop failed *)
        rewrite (R3 eq_refl c e eq_refl) in *.
        eexists _, [Ev c (Some e); Ev EndRecord None; Ev CloseFp None].
        split; [rewrite Tr; cbn [last_line app];
                rewrite app_comm_cons, app_comm_cons, app_assoc; reflexivity|].
        split; [exact Hgood|]. right.
        exists c, e, [Ev EndRecord None; Ev CloseFp None].
        split; [reflexivity|]. split; [apply closing_calls|].
        split; [reflexivity|]. now left.
      * (* a call of the loop failed, and then the end record *)
        rewrite (R1 eq_refl) in *.
        eexists _, [Ev c (Some e); Ev EndRecord (Some NoSpaceError);
                    Ev CloseFp None].
        split; [rewrite Tr; cbn [last_line app];
                rewrite app_comm_cons, app_comm_cons, app_assoc; reflexivity|].
        split; [exact Hgood|]. right.
        exists c, e, [Ev EndRecord (Some NoSpaceError); Ev CloseFp None].
        split; [reflexivity|]. split; [apply closing_calls|].
        split; [reflexivity|]. right. split; [reflexivity|]. now left.
  - intros Hun. unfold namelist.
    destruct (archive (run body trailer file root space)) as [|e l] eqn:Ea;
      [reflexivity|exfalso].
    destruct (archive_added body trailer file root space e) as (p & Hp & _).
    { rewrite Ea. now left. }
    unfold rglob, source_unreadable in *.
    destruct (lookup (scan_fs file root) (script_dir file))
      as [[| [|] w ch |]|]; contradiction.
Qed.

(** ** The [with] block *)

(** C8, as stated, fails: when the device is full the end record cannot be
    written, and [close] releases the handle without having finalised the
    archive.  Here one byte is free: the first entry fits, the second does
    not, and neither does the end record. *)
Lemma full_disk_leaves_archive_unfinalized :
  let o := run demo_body demo_trailer demo_file demo_tree 1 in
  res o = Raise NoSpaceError
  /\ In (Ev (WriteEntry ["debug"; "b"; "c.txt"]) (Some NoSpaceError)) (trace o)
  /\ In (Ev EndRecord (Some NoSpaceError)) (trace o)
  /\ zf (post o)
     = Some (mkZipFile (zip_path demo_file) [(["debug"; "a.txt"], [Byte.x61])]
               false false true).
Proof. repeat split; vm_compute; auto 10. Qed.

(** C8, amended.  On every path out of the archiving step, those on which a
    read or a write of the loop raised included, the handle is closed before
    the program ends: closing is the last call after the opening, but for the
    line printed on success.  The archive is finalised on each of these
    paths unless writing the end record fails, in which case the run ends
    with that error. *)
Theorem archive_handle_closed
  (body trailer : list entry -> bytes) (file : Path) (root : node) (space : nat)
  (z : ZipFile) :
  let o := run body trailer file root space in
  zf (post o) = Some z ->
  fp z = false
  /\ filename z = zip_path file
  /\ (exists before inside,
        trace o = before ++ Ev (Open (zip_path file)) None
                    :: inside ++ Ev CloseFp None :: last_line file (res o)
        /\ Forall inner inside)
  /\ ((end_record z = true /\ In (Ev EndRecord None) (trace o))
      \/ (end_record z = false
          /\ In (Ev EndRecord (Some NoSpaceError)) (trace o)
          /\ res o = Raise NoSpaceError)).
Proof.
  intros o Hz. subst o.
  destruct (run_spec body trailer file root space)
    as [(x & _ & E) | (fsA & freeA & pre & Hrem & [(x & E) | H])];
    try (rewrite E in Hz; discriminate Hz).
  destruct (packaged_trace _ _ _ _ _ _ H)
    as (t & bad & fin & T & Tr & Z & Hbad & R1 & _).
  destruct (loop_ok_inner t T) as [Ti _].
  rewrite Z in Hz. injection Hz as <-. cbn [fp filename end_record].
  split; [reflexivity|]. split; [reflexivity|]. split.
  - exists (pre ++ [packaging_line file]),
      (t ++ bad ++ [Ev EndRecord (if fin then None else Some NoSpaceError)]).
    split.
    + rewrite Tr. repeat rewrite <- app_assoc. reflexivity.
    + apply Forall_app. split; [exact Ti|]. apply Forall_app. split.
      * destruct Hbad as [-> | (c & e & Hc & ->)]; repeat constructor.
        unfold inner. simpl. now destruct c.
      * repeat constructor.
  - assert (Hin : In (Ev EndRecord (if fin then None else Some NoSpaceError))
                     (trace (run body trailer file root space))).
    { rewrite Tr. apply in_or_app. right. right. right.
      apply in_or_app. right. apply in_or_app. right. now left. }
    destruct fin; [left | right]; auto.
Qed.

Lemma archive_handle_closed_witness :
  let o := run demo_body demo_trailer demo_file demo_tree_unreadable 100 in
  let z := mkZipFile (zip_path demo_file) [(["debug"; "a.txt"], [Byte.x61])]
             false true false in
  zf (post o) = Some z
  /\ (fp z = false
      /\ filename z = zip_path demo_file
      /\ (exists before inside,
            trace o = before ++ Ev (Open (zip_path demo_file)) None
                        :: inside ++ Ev CloseFp None
                        :: last_line demo_file (res o)
            /\ Forall inner inside)
      /\ ((end_record z = true /\ In (Ev EndRecord None) (trace o))
          \/ (end_record z = false
              /\ In (Ev EndRecord (Some NoSpaceError)) (trace o)
              /\ res o = Raise NoSpaceError))).
Proof.
  split.
  - reflexivity.
  - apply (archive_handle_closed demo_body demo_trailer demo_file
             demo_tree_unreadable 100).
    reflexivity.
Defined.

(** C9, as stated, fails: when a file cannot be read mid-way, the [with]
    block still closes the archive, and the archive left at the destination
    is finalised; it holds the entry added before the failure. *)
Lemma failed_read_leaves_finalized_archive :
  let o := run demo_body demo_trailer demo_file demo_tree_unreadable 100 in
  res o = Raise (PermissionError ["x"; "debug"; "b.txt"])
  /\ In (Ev (ReadFile ["x"; "debug"; "b.txt"])
            (Some (PermissionError ["x"; "debug"; "b.txt"]))) (trace o)
  /\ zf (post o)
     = Some (mkZipFile (zip_path demo_file) [(["debug"; "a.txt"], [Byte.x61])]
               false true false)
  /\ lookup (fs (post o)) (zip_path demo_file)
     = Some (File true (demo_body [(["debug"; "a.txt"], [Byte.x61])]
                        ++ demo_trailer [(["debug"; "a.txt"], [Byte.x61])])).
Proof. repeat split; vm_compute; auto 10. Qed.

(** C9, amended.  When a read or a write of the loop fails in a run
    started by a script path without [..], the run ends with exit status 1
    and nothing is cleaned up: no file is deleted after the archive has
    been opened, and the archive file stays at the destination.  The call
    that failed is the read of a file of the walk, or the write of its
    entry, and the entries of the archive are those of the files of the
    walk that come before that file.  After a failure for want of space the
    archive is not finalised: closing fails as well and the device is full.
    After any other failure the [with] block closes the archive and
    finalises it whenever the end record fits; the file is then the archive
    of the earlier entries, and the run ends with the error of the call.
    The presence of the file, even of a valid archive, is therefore no
    evidence of success. *)
Theorem failed_run_leaves_archive
  (body trailer : list entry -> bytes) (file : Path) (root : node) (space : nat)
  (c : call) (e : exn) :
  let o := run body trailer file root space in
  let zp := zip_path file in
  let scan := scan_fs file root in
  let es := archive o in
  normalized file = true ->
  write_call c ->
  In (Ev c (Some e)) (trace o) ->
  exit_status (res o) = 1
  /\ (exists data, lookup (fs (post o)) zp = Some (File true data))
  /\ (exists before after,
        trace o = before ++ Ev (Open zp) None :: after
        /\ Forall inner after)
  /\ exists ps1 p ps2,
       rglob scan (script_dir file) = ps1 ++ p :: ps2
       /\ qualifies scan p = true
       /\ (c = ReadFile p
           \/ exists a, c = WriteEntry a /\ p = parent (script_dir file) ++ a)
       /\ Forall2 (added (parent (script_dir file)) zp scan)
            (filter (qualifies scan) ps1) es
       /\ (e = NoSpaceError ->
           res o = Raise NoSpaceError
           /\ zf (post o) = Some (mkZipFile zp es false false true)
           /\ In (Ev EndRecord (Some NoSpaceError)) (trace o)
           /\ free (post o) = 0)
       /\ (e <> NoSpaceError ->
           exists fin,
             zf (post o) = Some (mkZipFile zp es false fin (negb fin))
             /\ fin = Nat.leb (List.length (body es ++ trailer es))
                              (space + old_size root zp)
             /\ (fin = true ->
                 res o = Raise e
                 /\ lookup (fs (post o)) zp
                    = Some (File true (body es ++ trailer es)))
             /\ (fin = false ->
                 res o = Raise NoSpaceError
                 /\ In (Ev EndRecord (Some NoSpaceError)) (trace o))).
Proof.
  intros o zp scan es _ Hc Hin. subst zp scan es.
  assert (Hl : loop_call c) by (destruct c; try exact I; destruct Hc).
  pose proof (run_exact body trailer file root space) as H.
  cbv zeta in H. fold o in H.
  destruct (destination_ok root (zip_path file)) eqn:Hok.
  - destruct (filled_after_open _ _ _ _ _ _ H)
      as (pre & rest & tl & T & Hpre & Hinner & Htl & _ & ps1 & fin & data
            & Z & Hend & B & Fr & A & R).
    specialize (Htl c e Hl Hin).
    assert (Hopen : exists before after,
               trace o = before ++ Ev (Open (zip_path file)) None :: after
               /\ Forall inner after).
    { exists (pre ++ [packaging_line file]), rest.
      split; [rewrite T, <- app_assoc; reflexivity | exact Hinner]. }
    destruct R as [(_ & -> & _) | [(p & ps2 & d & Hps & Q & _ & _ & -> & Cl & Hr)
                                  | (p & ps2 & e' & Hps & Q & Ha & Hlen & ->
                                       & -> & -> & Hr)]].
    + destruct Htl.
    + destruct Htl as [E | []]. injection E as <- <-.
      split; [rewrite Hr; reflexivity|].
      split; [now exists data|]. split; [exact Hopen|].
      exists ps1, p, ps2. split; [exact Hps|]. split; [exact Q|].
      split; [now left|]. split; [exact A|].
      split; [discriminate|]. intros _.
      exists fin. split; [exact Z|]. destruct Cl as [Cf Cd].
      split; [exact Cf|]. split.
      * intros ->. split; [exact Hr|]. now rewrite B, Cd.
      * intros ->. split; [exact Hr | exact Hend].
    + destruct Htl as [E | [E | []]]; [discriminate E|].
      injection E as <- <-.
      split; [rewrite Hr; reflexivity|].
      split; [eexists; exact B|]. split; [exact Hopen|].
      exists ps1, p, ps2. split; [exact Hps|]. split; [exact Q|].
      split; [right; exists (fst e'); split; [reflexivity | apply Ha]|].
      split; [exact A|]. split; [|intros Hne; now contradiction Hne].
      intros _. split; [exact Hr|]. split; [exact Z|]. split; [exact Hend|].
      rewrite length_firstn, Nat.min_l in Fr by lia. lia.
  - destruct H as (_ & _ & Ht). rewrite Ht in Hin.
    destruct (exists_node (lookup root (zip_path file))).
    + destruct Hin as [E | []]. injection E as <- _. destruct Hc.
    + destruct Hin as [E | [E | []]]; [discriminate E|].
      injection E as <- _. destruct Hc.
Qed.

Lemma failed_run_leaves_archive_witness :
  let o := run demo_body demo_trailer demo_file demo_tree_unreadable 100 in
  let zp := zip_path demo_file in
  let scan := scan_fs demo_file demo_tree_unreadable in
  let es := archive o in
  let c := ReadFile ["x"; "debug"; "b.txt"] in
  let e := PermissionError ["x"; "debug"; "b.txt"] in
  normalized demo_file = true
  /\ write_call c
  /\ In (Ev c (Some e)) (trace o)
  /\ e <> NoSpaceError
  /\ (exit_status (res o) = 1
      /\ (exists data, lookup (fs (post o)) zp = Some (File true data))
      /\ (exists before after,
            trace o = before ++ Ev (Open zp) None :: after
            /\ Forall inner after)
      /\ exists ps1 p ps2,
           rglob scan (script_dir demo_file) = ps1 ++ p :: ps2
           /\ qualifies scan p = true
           /\ (c = ReadFile p
               \/ exists a,
                    c = WriteEntry a /\ p = parent (script_dir demo_file) ++ a)
           /\ Forall2 (added (parent (script_dir demo_file)) zp scan)
                (filter (qualifies scan) ps1) es
           /\ (e = NoSpaceError ->
               res o = Raise NoSpaceError
               /\ zf (post o) = Some (mkZipFile zp es false false true)
               /\ In (Ev EndRecord (Some NoSpaceError)) (trace o)
               /\ free (post o) = 0)
           /\ (e <> NoSpaceError ->
               exists fin,
                 zf (post o) = Some (mkZipFile zp es false fin (negb fin))
                 /\ fin = Nat.leb
                            (List.length (demo_body es ++ demo_trailer es))
                            (100 + old_size demo_tree_unreadable zp)
                 /\ (fin = true ->
                     res o = Raise e
                     /\ lookup (fs (post o)) zp
                        = Some (File true (demo_body es ++ demo_trailer es)))
                 /\ (fin = false ->
                     res o = Raise NoSpaceError
                     /\ In (Ev EndRecord (Some NoSpaceError)) (trace o)))).
Proof.
  split; [reflexivity|]. split; [exact I|].
  split; [vm_compute; auto 10|]. split; [discriminate|].
  apply (failed_run_leaves_archive demo_body demo_trailer demo_file
           demo_tree_unreadable 100 (ReadFile ["x"; "debug"; "b.txt"])
           (PermissionError ["x"; "debug"; "b.txt"])).
  - reflexivity.
  - exact I.
  - vm_compute. auto 10.
Defined.

(** ** Well-formed trees *)

Lemma nodupb_NoDup (l : list string) : nodupb l = true <-> NoDup l.
Proof.
  induction l as [|a l IH]; simpl.
  - split; [constructor|reflexivity].
  - rewrite andb_true_iff, negb_true_iff, IH. split.
    + intros [H1 H2]. constructor; [|exact H2]. intros Hin.
      assert (E : existsb (String.eqb a) l = true)
        by (apply existsb_exists; exists a; split;
            [exact Hin|apply String.eqb_refl]).
      congruence.
    + intros H. inversion H as [|x l' Hn Hd]; subst. split; [|exact Hd].
      destruct (existsb (String.eqb a) l) eqn:E; [|reflexivity].
      apply existsb_exists in E. destruct E as (y & Hy & Ey).
      apply String.eqb_eq in Ey. subst y. contradiction.
Qed.

Lemma wf_Dir l w ch :
  wf (Dir l w ch) = true
  <-> NoDup (map fst ch) /\ forall k m, In (k, m) ch -> wf m = true.
Proof.
  simpl. rewrite andb_true_iff, nodupb_NoDup, forallb_forall. split.
  - intros [H1 H2]. split; [exact H1|]. intros k m Hin. exact (H2 _ Hin).
  - intros [H1 H2]. split; [exact H1|]. intros [k m] Hin. now apply (H2 k).
Qed.

Lemma assoc_In (k : string) ch (m : node) :
  assoc k ch = Some m -> In (k, m) ch.
Proof.
  induction ch as [|[k' m'] ch IH]; simpl; [discriminate|].
  destruct (String.eqb_spec k' k) as [->|].
  - intros E. injection E as ->. now left.
  - intros E. right. now apply IH.
Qed.

Lemma In_assoc (k : string) (m : node) ch :
  NoDup (map fst ch) -> In (k, m) ch -> assoc k ch = Some m.
Proof.
  induction ch as [|[k' m'] ch IH]; simpl; [contradiction|].
  intros Hnd [E | Hin].
  - injection E as -> ->. now rewrite String.eqb_refl.
  - inversion Hnd as [|x l Hn Hd]; subst.
    destruct (String.eqb_spec k' k) as [->|]; [|now apply IH].
    exfalso. apply Hn. apply in_map_iff. now exists (k, m).
Qed.

Lemma In_assoc_some (k : string) (m : node) ch :
  In (k, m) ch -> assoc k ch <> None.
Proof.
  induction ch as [|[k' m'] ch IH]; simpl; [contradiction|].
  intros [E | Hin].
  - injection E as -> ->. now rewrite String.eqb_refl.
  - destruct (String.eqb k' k); [discriminate|now apply IH].
Qed.

Lemma update_entry_names (c : string) (g : node -> node) ch :
  map fst (update_entry c g ch) = map fst ch.
Proof.
  induction ch as [|[k m] ch IH]; simpl; [reflexivity|].
  destruct (String.eqb k c); simpl; [reflexivity|now rewrite IH].
Qed.

Lemma update_entry_In (c : string) (g : node -> node) ch k m :
  In (k, m) (update_entry c g ch) ->
  In (k, m) ch \/ exists m0, In (k, m0) ch /\ m = g m0.
Proof.
  induction ch as [|[k' m'] ch IH]; simpl; [contradiction|].
  destruct (String.eqb k' c); simpl.
  - intros [E | Hin]; [|auto]. injection E as -> <-. right. exists m'. auto.
  - intros [E | Hin]; [auto|].
    destruct (IH Hin) as [H | (m0 & H & ->)]; [auto|]. right. exists m0. auto.
Qed.

Lemma wf_update_dir f (d : Path) :
  (forall ch, NoDup (map fst ch) ->
              (forall k m, In (k, m) ch -> wf m = true) ->
              NoDup (map fst (f ch))
              /\ forall k m, In (k, m) (f ch) -> wf m = true) ->
  forall n, wf n = true -> wf (update_dir f n d) = true.
Proof.
  intros Hf. induction d as [|c d IH]; intros n Hn.
  - destruct n as [| l w ch |]; try exact Hn.
    simpl update_dir. apply wf_Dir. apply wf_Dir in Hn. now apply Hf.
  - destruct n as [| l w ch |]; try exact Hn.
    simpl update_dir. apply wf_Dir. apply wf_Dir in Hn. destruct Hn as [H1 H2].
    rewrite update_entry_names. split; [exact H1|].
    intros k m Hin. apply update_entry_In in Hin.
    destruct Hin as [Hin | (m0 & Hin & ->)]; [now apply (H2 k)|].
    apply IH. now apply (H2 k).
Qed.

Lemma remove_entry_names (c : string) ch :
  map fst (remove_entry c ch)
  = filter (fun k => negb (String.eqb k c)) (map fst ch).
Proof.
  induction ch as [|[k m] ch IH]; simpl; [reflexivity|].
  destruct (String.eqb k c); simpl; now rewrite IH.
Qed.

Lemma wf_scan_fs (file : Path) (root : node) :
  wf root = true -> wf (scan_fs file root) = true.
Proof.
  intros H. unfold scan_fs. rewrite update_dir_twice.
  apply wf_update_dir; [|exact H].
  intros ch Hnd Hch. unfold add_entry. split.
  - rewrite map_app. simpl. apply NoDup_app.
    + rewrite remove_entry_names. now apply NoDup_filter.
    + repeat constructor. intros [].
    + intros a Ha [<- | []]. rewrite remove_entry_names in Ha.
      apply filter_In in Ha. destruct Ha as [_ Ha].
      now rewrite String.eqb_refl in Ha.
  - intros k m Hin. apply in_app_or in Hin.
    destruct Hin as [Hin | [E | []]].
    + apply filter_In in Hin. now apply (Hch k).
    + now injection E as <- <-.
Qed.

Lemma all_listable_lookup (n : node) (q : Path) l w ch :
  all_listable n = true -> lookup n q = Some (Dir l w ch) -> l = true.
Proof.
  revert n. induction q as [|c q IH]; intros n Hn; simpl.
  - intros E. injection E as ->. simpl in Hn. now apply andb_prop in Hn.
  - destruct n as [| l' w' ch' |]; try discriminate.
    destruct (assoc c ch') as [m|] eqn:Ea; [|discriminate].
    apply IH. simpl in Hn. apply andb_prop in Hn. destruct Hn as [_ Hn].
    rewrite forallb_forall in Hn. exact (Hn _ (assoc_In _ _ _ Ea)).
Qed.

(** ** What the walk finds *)

Lemma rglob_from_iff (n : node) :
  wf n = true ->
  forall d r,
    In (d ++ r) (rglob_from d n)
    <-> (r <> [] /\ lookup n r <> None
         /\ forall q q', r = q ++ q' -> q' <> [] ->
              exists w ch, lookup n q = Some (Dir true w ch)).
Proof.
  induction n as [r0 d0 | | l w ch IH] using node_ind'; intros Hwf d r.
  - split; [intros []|]. intros (Hr & _ & H).
    destruct (H [] r eq_refl Hr) as (w & ch & E). discriminate E.
  - split; [intros []|]. intros (Hr & _ & H).
    destruct (H [] r eq_refl Hr) as (w & ch & E). discriminate E.
  - apply wf_Dir in Hwf. destruct Hwf as [Hnd Hch].
    rewrite Forall_forall in IH.
    destruct l.
    2:{ split; [intros []|]. intros (Hr & _ & H).
        destruct (H [] r eq_refl Hr) as (w' & ch' & E). discriminate E. }
    cbn [rglob_from]. rewrite in_app_iff, in_map_iff, in_flat_map. split.
    + intros [([k m] & E & Hin) | ([k m] & Hin & Hp)].
      * simpl in E. apply app_inv_head in E. subst r.
        split; [discriminate|]. split.
        -- simpl. destruct (assoc k ch) eqn:Ea; [discriminate|].
           now apply In_assoc_some in Hin.
        -- intros q q' E Hq'. destruct q as [|x q].
           ++ simpl. eauto.
           ++ destruct q; [|discriminate E]. simpl in E.
              injection E as _ <-. contradiction.
      * destruct (rglob_from_below _ _ _ Hp) as (r' & Hr' & E).
        rewrite <- app_assoc in E. apply app_inv_head in E. simpl in E. subst r.
        replace (d ++ k :: r') with ((d ++ [k]) ++ r') in Hp
          by (now rewrite <- app_assoc).
        apply (IH (k, m) Hin (Hch k m Hin)) in Hp.
        destruct Hp as (_ & Hl & Hpre).
        split; [discriminate|].
        simpl. rewrite (In_assoc k m ch Hnd Hin). split; [exact Hl|].
        intros q q' E Hq'. destruct q as [|x q].
        -- simpl. eauto.
        -- simpl in E. injection E as <- E. simpl.
           rewrite (In_assoc k m ch Hnd Hin). now apply (Hpre q q').
    + intros (Hr & Hl & Hpre). destruct r as [|k r']; [contradiction|].
      simpl in Hl. destruct (assoc k ch) as [m|] eqn:Ea; [|contradiction].
      pose proof (assoc_In _ _ _ Ea) as Hin.
      destruct r' as [|k' r''].
      * left. exists (k, m). auto.
      * right. exists (k, m). split; [exact Hin|].
        replace (d ++ k :: k' :: r'') with ((d ++ [k]) ++ k' :: r'')
          by (now rewrite <- app_assoc).
        apply (IH (k, m) Hin (Hch k m Hin)).
        split; [discriminate|]. split; [exact Hl|].
        intros q q' E Hq'.
        destruct (Hpre (k :: q) q') as (w' & ch' & El);
          [simpl; now rewrite E | exact Hq' |].
        simpl in El. rewrite Ea in El. eauto.
Qed.

Lemma rglob_iff (root : node) (d p : Path) :
  wf root = true ->
  In p (rglob root d) <-> found root d p.
Proof.
  intros Hwf. unfold rglob, found.
  assert (Hsub : forall n, lookup root d = Some n -> wf n = true).
  { clear p. revert root Hwf. induction d as [|c d IH]; intros root Hwf n; simpl.
    - intros E. now injection E as <-.
    - destruct root as [| l w ch |]; try discriminate.
      destruct (assoc c ch) as [m|] eqn:Ea; [|discriminate].
      apply IH. apply wf_Dir in Hwf. destruct Hwf as [_ Hch].
      exact (Hch _ _ (assoc_In _ _ _ Ea)). }
  destruct (lookup root d) as [n|] eqn:El.
  - split.
    + intros Hin. destruct (rglob_from_below _ _ _ Hin) as (r & Hr & ->).
      apply (rglob_from_iff n (Hsub n eq_refl)) in Hin.
      destruct Hin as (_ & Hl & Hpre).
      exists r. split; [exact Hr|]. split; [reflexivity|].
      rewrite lookup_app, El. split; [exact Hl|].
      intros q q' E Hq'. rewrite lookup_app, El. now apply (Hpre q q').
    + intros (r & Hr & -> & Hl & Hpre).
      apply (rglob_from_iff n (Hsub n eq_refl)).
      rewrite lookup_app, El in Hl. split; [exact Hr|]. split; [exact Hl|].
      intros q q' E Hq'. destruct (Hpre q q' E Hq') as (w & ch & Eq).
      rewrite lookup_app, El in Eq. eauto.
  - split; [intros []|]. intros (r & Hr & -> & _ & Hpre).
    destruct (Hpre [] r eq_refl Hr) as (w & ch & E).
    rewrite app_nil_r in E. congruence.
Qed.

Lemma wf_lookup (root : node) (d : Path) (n : node) :
  wf root = true -> lookup root d = Some n -> wf n = true.
Proof.
  revert root. induction d as [|c d IH]; intros root Hwf; simpl.
  - intros E. now injection E as <-.
  - destruct root as [| l w ch |]; try discriminate.
    destruct (assoc c ch) as [m|] eqn:Ea; [|discriminate].
    apply IH. apply wf_Dir in Hwf. destruct Hwf as [_ Hch].
    exact (Hch _ _ (assoc_In _ _ _ Ea)).
Qed.

Lemma rglob_from_NoDup (n : node) :
  wf n = true -> forall d, NoDup (rglob_from d n).
Proof.
  induction n as [r0 d0 | | l w ch IH] using node_ind'; intros Hwf d;
    try constructor.
  apply wf_Dir in Hwf. destruct Hwf as [Hnd Hch].
  rewrite Forall_forall in IH.
  destruct l; [|constructor]. cbn [rglob_from]. apply NoDup_app.
  - rewrite <- (map_map fst (fun k => d ++ [k])).
    apply NoDup_map_NoDup_ForallPairs; [|exact Hnd].
    intros k k' _ _ E. apply app_inv_head in E. now injection E.
  - assert (H : forall ch', incl ch' ch -> NoDup (map fst ch') ->
                  NoDup (flat_map (fun kv : string * node =>
                                     let (k, m) := kv in
                                     rglob_from (d ++ [k]) m) ch')).
    { induction ch' as [|[k m] ch' IHch]; intros Hincl Hnd'; simpl;
        [constructor|].
      inversion Hnd' as [|x l' Hn Hd]; subst.
      assert (Hin : In (k, m) ch) by (apply Hincl; now left).
      apply NoDup_app.
      - apply (IH (k, m) Hin (Hch k m Hin)).
      - apply IHch; [|exact Hd]. intros x Hx. apply Hincl. now right.
      - intros a Ha Hb. apply in_flat_map in Hb.
        destruct Hb as ([k' m'] & Hin' & Hb).
        destruct (rglob_from_below _ _ _ Ha) as (r & _ & ->).
        destruct (rglob_from_below _ _ _ Hb) as (r' & _ & E).
        rewrite <- !app_assoc in E. apply app_inv_head in E. simpl in E.
        injection E as -> _. apply Hn. apply in_map_iff. now exists (k', m'). }
    apply H; [apply incl_refl|exact Hnd].
  - intros a Ha Hb. apply in_map_iff in Ha. destruct Ha as ([k m] & <- & _).
    apply in_flat_map in Hb. destruct Hb as ([k' m'] & _ & Hb).
    destruct (rglob_from_below _ _ _ Hb) as (r & Hr & E).
    rewrite <- app_assoc in E. apply app_inv_head in E. simpl in E.
    injection E as _ E. now subst r.
Qed.

Lemma rglob_NoDup (root : node) (d : Path) :
  wf root = true -> NoDup (rglob root d).
Proof.
  intros Hwf. unfold rglob. destruct (lookup root d) as [n|] eqn:E.
  - apply rglob_from_NoDup. exact (wf_lookup _ _ _ Hwf E).
  - constructor.
Qed.

(** Below a source directory that is not the root the tree is at scan
    time what it was at the start. *)
Lemma scan_fs_below (file : Path) (root : node) (r : Path) :
  script_dir file <> [] ->
  lookup (scan_fs file root) (script_dir file ++ r)
  = lookup root (script_dir file ++ r).
Proof.
  intros Hsd. unfold scan_fs. rewrite update_dir_twice, parent_zip_path.
  rewrite (script_dir_split file Hsd) at 2 3. rewrite <- !app_assoc. simpl.
  apply (lookup_update_dir_other _ (name (zip_path file))).
  - intros k ch Hk. rewrite (keeps_others_add _ _ k _ Hk).
    now apply keeps_others_remove.
  - rewrite name_zip_path. intros E. symmetry in E. now apply zip_name_neq in E.
Qed.

Lemma Forall2_added_paths (base zp : Path) (scan : node) ps es :
  Forall2 (added base zp scan) ps es ->
  map (fun e : entry => base ++ fst e) es = ps.
Proof.
  induction 1 as [|p e ps es (Hp & _) _ IH]; simpl; [reflexivity|].
  now rewrite IH, Hp.
Qed.


Lemma found_listable (t : node) (d p : Path) :
  listable_below t d = true ->
  found t d p
  <-> (exists r, r <> [] /\ p = d ++ r) /\ lookup t p <> None.
Proof.
  intros Hlist. unfold found. split.
  - intros (r & Hr & -> & Hl & _). split; [now exists r | exact Hl].
  - intros [(r & Hr & ->) Hl]. exists r. repeat split; try assumption.
    intros q q' -> Hq'. unfold listable_below in Hlist.
    rewrite app_assoc, lookup_app in Hl.
    rewrite lookup_app in *.
    destruct (lookup t d) as [n|]; [|contradiction].
    destruct (lookup n q) as [[| l w ch |]|] eqn:Eq;
      try (destruct q'; [contradiction | simpl in Hl; contradiction]).
    rewrite (all_listable_lookup n q l w ch Hlist Eq). eauto.
Qed.

(** ** Names as strings *)

Lemma append_slash_inj (a : string) :
  forall (b x y : string),
    no_slash a = true -> no_slash b = true ->
    (x = "" \/ exists x', x = String "/" x') ->
    (y = "" \/ exists y', y = String "/" y') ->
    a +++ x = b +++ y -> a = b /\ x = y.
Proof.
  induction a as [|c a IH]; intros b x y Ha Hb Hx Hy E.
  - destruct b as [|c' b]; simpl in E; [auto|exfalso].
    destruct Hx as [-> | (x' & ->)]; [discriminate E|].
    injection E as <- _. discriminate Hb.
  - destruct b as [|c' b]; simpl in E.
    + exfalso. destruct Hy as [-> | (y' & ->)]; [discriminate E|].
      injection E as -> _. discriminate Ha.
    + injection E as -> E. simpl in Ha, Hb.
      apply andb_prop in Ha, Hb.
      destruct Ha as [_ Ha]. destruct Hb as [_ Hb].
      destruct (IH b x y Ha Hb Hx Hy E) as [-> ->]. auto.
Qed.

Lemma append_empty_r (s : string) : s +++ "" = s.
Proof. induction s; simpl; congruence. Qed.

Lemma concat_cons (a : string) (l : Path) :
  String.concat "/" (a :: l)
  = a +++ match l with
          | [] => ""
          | _ => String "/" (String.concat "/" l)
          end.
Proof. destruct l; simpl; [now rewrite append_empty_r|reflexivity]. Qed.

(** [str] tells apart the non-empty paths whose components hold no
    slash. *)
Lemma str_inj (n1 : Path) :
  forall n2 : Path,
    n1 <> [] -> n2 <> [] ->
    Forall (fun k => no_slash k = true) n1 ->
    Forall (fun k => no_slash k = true) n2 ->
    str n1 = str n2 -> n1 = n2.
Proof.
  induction n1 as [|a l1 IH]; intros n2 H1 H2 F1 F2 E; [contradiction|].
  destruct n2 as [|b l2]; [contradiction|].
  unfold str in E. rewrite !concat_cons in E.
  inversion F1 as [|? ? Ha F1']; inversion F2 as [|? ? Hb F2']; subst.
  apply append_slash_inj in E; try assumption.
  - destruct E as [-> E]. f_equal.
    destruct l1 as [|a1 l1]; destruct l2 as [|b1 l2];
      try reflexivity; try discriminate E.
    injection E as E. apply IH; try assumption; try discriminate.
  - destruct l1; [now left | right; eauto].
  - destruct l2; [now left | right; eauto].
Qed.

Lemma names_ok_lookup (t : node) (q : Path) (m : node) :
  names_ok t = true -> lookup t q = Some m ->
  Forall (fun k => no_slash k = true) q.
Proof.
  revert t. induction q as [|c q IH]; intros t Ht El; [constructor|].
  destruct t as [| l w ch |]; try discriminate El.
  simpl in El. destruct (assoc c ch) as [m0|] eqn:Ea; [|discriminate El].
  simpl in Ht. rewrite forallb_forall in Ht.
  specialize (Ht _ (assoc_In _ _ _ Ea)). simpl in Ht.
  apply andb_prop in Ht. destruct Ht as [Hc Hm].
  constructor; [exact Hc|]. now apply (IH m0).
Qed.

(** ** A run that succeeds *)

Lemma success_packaged
  (body trailer : list entry -> bytes) (file : Path) (root : node) (space : nat) :
  let o := run body trailer file root space in
  res o = Return tt ->
  exists fsA freeA pre,
    removal (zip_path file) root space fsA freeA pre
    /\ packaged file root o fsA freeA pre
    /\ Forall2 (added (parent (script_dir file)) (zip_path file)
                      (scan_fs file root))
               (filter (qualifies (scan_fs file root))
                       (rglob (scan_fs file root) (script_dir file)))
               (archive o)
    /\ zf (post o) = Some (mkZipFile (zip_path file) (archive o) false true false).
Proof.
  intros o Hres. subst o.
  destruct (run_spec body trailer file root space)
    as [(x & _ & E) | (fsA & freeA & pre & Hrem & [(x & E) | H])];
    try (rewrite E in Hres; discriminate Hres).
  exists fsA, freeA, pre. split; [exact Hrem|]. split; [exact H|].
  destruct H as (l & ch & ps1 & fin & t & tail & _ & _ & Z & _ & _ & A & _
                   & En & _).
  rewrite Hres in En.
  inversion En as [ E1 E2 E3 E4 | | | ]; subst. auto.
Qed.

(** ** Running twice *)

Lemma remove_old_file (file : Path) (s : state) r b l ch :
  lookup (fs s) (zip_path file) = Some (File r b) ->
  lookup (fs s) (parent (zip_path file)) = Some (Dir l true ch) ->
  remove_old file s
  = mkOutcome (Return tt)
      (mkState (update_dir (remove_entry (name (zip_path file))) (fs s)
                           (parent (zip_path file)))
               (free s + List.length b) (zf s))
      [Ev (Unlink (zip_path file)) None;
       Ev (Print ("Removed old: " +++ name (zip_path file))) None].
Proof.
  intros Hf Hd. pose proof (lookup_zp file (fs s)) as Hz.
  rewrite Hf, Hd in Hz.
  unfold remove_old, path_exists, unlink, bind, get, ret, print, emit, put.
  simpl. rewrite Hf. simpl. rewrite Hd, <- Hz. reflexivity.
Qed.

Lemma remove_old_absent (file : Path) (s : state) :
  lookup (fs s) (zip_path file) = None ->
  remove_old file s = mkOutcome (Return tt) s [].
Proof.
  intros Hl. unfold remove_old, path_exists, bind, get, ret. simpl.
  rewrite Hl. destruct s; reflexivity.
Qed.

(** C5. A second run on the tree the first run left behind ends as the
    first one did and leaves the same archive: the same entries, names and
    bytes, in the same order, and the same tree.  The archive left by the
    first run is deleted at the start of the second, which gives back the
    room it took, so the second run continues from the very state the first
    one was in at that point; in particular it succeeds when the first one
    did. *)
Theorem second_run_same_archive
  (body trailer : list entry -> bytes) (file : Path) (root : node) (space : nat) :
  let o1 := run body trailer file root space in
  let o2 := run body trailer file (fs (post o1)) (free (post o1)) in
  res o2 = res o1
  /\ archive o2 = archive o1
  /\ fs (post o2) = fs (post o1)
  /\ free (post o2) = free (post o1)
  /\ (res o1 = Return tt ->
      res o2 = Return tt /\ In (Ev (Unlink (zip_path file)) None) (trace o2)).
Proof.
  intros o1 o2. subst o1 o2. unfold run in *.
  destruct (remove_old_spec file (mkState root space None))
    as [(x & _ & E) | (fsA & freeA & pre & Hrem & E)];
    simpl fs in *; simpl free in *; simpl zf in *.
  { assert (E1 : main body trailer file (mkState root space None)
                 = mkOutcome (Raise x) (mkState root space None)
                     [Ev (Unlink (zip_path file)) (Some x)])
      by (unfold main, bind at 1; now rewrite E).
    rewrite E1. cbn [post fs free]. rewrite E1.
    do 4 (split; [reflexivity|]). intros H. discriminate H. }
  rewrite (main_eq _ _ _ _ _ _ E) in *.
  destruct (removal_fs file root space fsA freeA pre Hrem) as [_ Hno].
  pose proof (package_spec body trailer file (mkState fsA freeA None) Hno) as H.
  cbv zeta in H. simpl fs in H. simpl free in H.
  set (P := package body trailer file (mkState fsA freeA None)) in *.
  assert (Hpost : forall t1 t2,
             post (match res P with
                   | Return _ => mkOutcome (Return tt) (post P) t1
                   | Raise e => mkOutcome (Raise e) (post P) t2
                   end) = post P)
    by (intros; now destruct (res P)).
  rewrite !Hpost.
  assert (Hsame : exists pre2,
             remove_old file (mkState (fs (post P)) (free (post P)) None)
             = mkOutcome (Return tt) (mkState fsA freeA None) pre2
             /\ (res P = Return tt -> In (Ev (Unlink (zip_path file)) None) pre2)).
  { destruct H as [(x & E') | H].
    - exists []. rewrite E'. cbn [post fs free res].
      split; [now apply remove_old_absent | discriminate].
    - destruct H as (l & ch & ps1 & es & fin & t & tail & Hd & Hc & Z
                       & [(b & Hb & Hfree) Hrest] & _).
      assert (Hd' : exists ch', lookup (fs (post P)) (parent (zip_path file))
                                = Some (Dir l true ch')).
      { pose proof (lookup_update_dir_above
                      (remove_entry (name (zip_path file))) (fs (post P))
                      (parent (zip_path file)) []) as Ha.
        rewrite app_nil_r, Hrest, Hd in Ha.
        destruct (lookup (fs (post P)) (parent (zip_path file)))
          as [[| l' w' ch' |]|]; try discriminate Ha.
        simpl in Ha. injection Ha as <- <- _. now exists ch'. }
      destruct Hd' as (ch' & Hd').
      pose proof (remove_old_file file
                    (mkState (fs (post P)) (free (post P)) None)
                    true b l ch' Hb Hd') as E2.
      cbn [fs free zf] in E2. rewrite Hrest, Hfree in E2.
      eexists. split; [exact E2|]. intros _. now left. }
  destruct Hsame as (pre2 & E2 & Hun).
  rewrite (main_eq _ _ _ _ _ _ E2). fold P.
  destruct (res P) as [u|x] eqn:HP; cbn [res post trace archive];
    repeat split; try discriminate.
  apply in_or_app. left. apply Hun. now destruct u.
Qed.

(** The usage example, run twice. *)
Example demo_second_run :
  let o1 := run demo_body demo_trailer demo_file demo_tree 100 in
  let o2 := run demo_body demo_trailer demo_file (fs (post o1)) (free (post o1)) in
  res o2 = Return tt /\ archive o2 = archive o1 /\ post o2 = post o1.
Proof. repeat split. Qed.

(** ** Extraction *)

Lemma extract_one_spec (a : Path) :
  forall (t0 : node) (d : bytes),
    a <> [] ->
    is_dir_node (Some t0) = true ->
    (forall q x, a = q ++ x -> x <> [] -> dir_or_absent (lookup t0 q)) ->
    lookup t0 a = None ->
    exists t1,
      extract_one t0 a d = Some t1
      /\ is_dir_node (Some t1) = true
      /\ lookup t1 a = Some (File true d)
      /\ (forall q x, a = q ++ x -> x <> [] -> is_dir_node (lookup t1 q) = true)
      /\ (forall q, (forall x, a <> q ++ x) -> lookup t1 q = lookup t0 q).
Proof.
  induction a as [|c a IH]; intros t0 d Ha Hdir Hpre Hno; [contradiction|].
  destruct t0 as [| l w ch |]; try discriminate Hdir.
  destruct a as [|c' a'].
  - (* the last component *)
    simpl in Hno. destruct (assoc c ch) as [m|] eqn:Ea; [discriminate Hno|].
    exists (Dir l w (add_entry c (File true d) ch)).
    cbn [extract_one]. rewrite Ea.
    split; [reflexivity|]. split; [reflexivity|]. split; [|split].
    + simpl. now rewrite assoc_add_entry, Ea, String.eqb_refl.
    + intros q x E Hx. destruct q as [|k q]; [reflexivity|].
      simpl in E. injection E as _ E.
      destruct q; [simpl in E; subst; contradiction | discriminate E].
    + intros q Hq.
      destruct q as [|k q]; [exfalso; now apply (Hq [c])|].
      simpl. rewrite assoc_add_entry.
      destruct (assoc k ch) as [m|] eqn:Ek; [reflexivity|].
      destruct (String.eqb_spec c k) as [->|]; [|reflexivity].
      destruct q as [|k' q]; [exfalso; now apply (Hq [])|reflexivity].
  - (* a directory on the way *)
    assert (Hc : dir_or_absent (assoc c ch)).
    { specialize (Hpre [c] (c' :: a') eq_refl). simpl in Hpre.
      destruct (assoc c ch); apply Hpre; discriminate. }
    destruct (assoc c ch) as [m0|] eqn:Ea.
    + destruct m0 as [| l0 w0 ch0 |]; try contradiction.
      destruct (IH (Dir l0 w0 ch0) d) as (m' & E & Hd' & Hf & Hp & Ho).
      * discriminate.
      * reflexivity.
      * intros q x Eq Hx. specialize (Hpre (c :: q) x). simpl in Hpre.
        rewrite Ea in Hpre. apply Hpre; [now rewrite Eq | exact Hx].
      * simpl in Hno. rewrite Ea in Hno. exact Hno.
      * exists (Dir l w (update_entry c (fun _ => m') ch)).
        split; [cbn [extract_one]; rewrite Ea; cbn [extract_one] in E;
                now rewrite E|].
        split; [reflexivity|]. split; [|split].
        -- cbn [lookup]. rewrite assoc_update_entry, String.eqb_refl, Ea.
           exact Hf.
        -- intros q x Eq Hx. destruct q as [|k q]; [reflexivity|].
           simpl in Eq. injection Eq as <- Eq.
           cbn [lookup]. rewrite assoc_update_entry, String.eqb_refl, Ea.
           now apply (Hp q x).
        -- intros q Hq.
           destruct q as [|k q]; [exfalso; now apply (Hq (c :: c' :: a'))|].
           cbn [lookup]. rewrite assoc_update_entry.
           destruct (String.eqb_spec c k) as [<-|]; [|reflexivity].
           rewrite Ea. cbn [option_map]. apply Ho.
           intros x Ex. apply (Hq x). simpl. now rewrite Ex.
    + destruct (IH (Dir true true []) d) as (m' & E & Hd' & Hf & Hp & Ho).
      * discriminate.
      * reflexivity.
      * intros q x Eq Hx. destruct q; exact I.
      * reflexivity.
      * exists (Dir l w (add_entry c m' ch)).
        split; [cbn [extract_one]; rewrite Ea; cbn [extract_one] in E;
                now rewrite E|].
        split; [reflexivity|]. split; [|split].
        -- cbn [lookup]. rewrite assoc_add_entry, Ea, String.eqb_refl.
           exact Hf.
        -- intros q x Eq Hx. destruct q as [|k q]; [reflexivity|].
           simpl in Eq. injection Eq as <- Eq.
           cbn [lookup]. rewrite assoc_add_entry, Ea, String.eqb_refl.
           now apply (Hp q x).
        -- intros q Hq.
           destruct q as [|k q]; [exfalso; now apply (Hq (c :: c' :: a'))|].
           cbn [lookup]. rewrite assoc_add_entry.
           destruct (assoc k ch) as [m|] eqn:Ek; [reflexivity|].
           destruct (String.eqb_spec c k) as [<-|]; [|reflexivity].
           rewrite Ho.
           ++ destruct q as [|k' q]; [|reflexivity].
              exfalso. now apply (Hq (c' :: a')).
           ++ intros x Ex. apply (Hq x). simpl. now rewrite Ex.
Qed.

Lemma prefix_dec (q a : Path) :
  (exists x, a = q ++ x) \/ (forall x, a <> q ++ x).
Proof.
  destruct (path_trichotomy q a) as [(rest & ->) | [(k & q' & ->) | H]].
  - left. now exists rest.
  - right. intros x E. apply (f_equal (@List.length string)) in E.
    rewrite !length_app in E. simpl in E. lia.
  - destruct H as (common & x & y & q1 & d1 & Hxy & -> & ->).
    right. intros z E. rewrite <- app_assoc in E. apply app_inv_head in E.
    simpl in E. injection E as E _. congruence.
Qed.

Lemma extractall_spec (es : list entry) :
  forall (t0 : node) (done : list entry),
    extracted t0 done ->
    NoDup (map fst (done ++ es)) ->
    prefix_free (map fst (done ++ es)) ->
    ~ In [] (map fst es) ->
    exists t, extractall es t0 = Some t /\ extracted t (done ++ es).
Proof.
  induction es as [|[a d] es IH]; intros t0 done Hex Hnd Hpf Hne.
  - exists t0. rewrite app_nil_r. auto.
  - destruct Hex as (Hdir & Hnodes & Hfiles).
    assert (Ha : a <> []) by (intros ->; apply Hne; now left).
    assert (Hin_a : In a (map fst (done ++ (a, d) :: es)))
      by (rewrite map_app; apply in_or_app; right; now left).
    assert (Hdone : forall b, In b (map fst done) ->
                              In b (map fst (done ++ (a, d) :: es)))
      by (intros b Hb; rewrite map_app; apply in_or_app; now left).
    assert (Hfresh : ~ In a (map fst done)).
    { rewrite map_app in Hnd. simpl in Hnd.
      apply NoDup_remove_2 in Hnd. intros Hb. apply Hnd.
      apply in_or_app. now left. }
    destruct (extract_one_spec a t0 d Ha Hdir) as (t1 & E & Hd1 & Hf1 & Hp1 & Ho1).
    { intros q x Eq Hx. destruct (lookup t0 q) as [m|] eqn:El; [|exact I].
      destruct (Hnodes q m El) as [-> | [(d' & -> & Hin) | [Hm _]]].
      - simpl in El. injection El as <-. now destruct t0.
      - exfalso. apply Hx. apply (Hpf q a x); [|exact Hin_a|exact Eq].
        apply Hdone. apply in_map_iff. now exists (q, d').
      - now destruct m. }
    { destruct (lookup t0 a) as [m|] eqn:El; [exfalso|reflexivity].
      destruct (Hnodes a m El) as [-> | [(d' & -> & Hin) | [_ H]]].
      - contradiction.
      - apply Hfresh. apply in_map_iff. now exists (a, d').
      - destruct H as (b & x & Hb & -> & Hx). apply Hx.
        apply (Hpf a (a ++ x) x); [exact Hin_a| now apply Hdone | reflexivity]. }
    destruct (IH t1 (done ++ [(a, d)])) as (t & Et & Hext).
    + split; [exact Hd1|]. split.
      * intros q m El.
        destruct (prefix_dec q a) as [(x & Ex) | Hq].
        -- destruct x as [|k x].
           ++ rewrite app_nil_r in Ex. subst q. rewrite Hf1 in El.
              injection El as <-. right; left. exists d. split; [reflexivity|].
              apply in_or_app. right. now left.
           ++ destruct q as [|k' q]; [now left|]. right; right.
              pose proof (Hp1 _ _ Ex) as Hd. rewrite El in Hd.
              split; [apply Hd; discriminate|].
              exists a, (k :: x). split; [|split; [exact Ex|discriminate]].
              rewrite map_app. apply in_or_app. right. now left.
        -- rewrite (Ho1 q Hq) in El.
           destruct (Hnodes q m El) as [-> | [(d' & -> & Hin) | [Hm H]]].
           ++ now left.
           ++ right; left. exists d'. split; [reflexivity|].
              apply in_or_app. now left.
           ++ right; right. split; [exact Hm|].
              destruct H as (b & x & Hb & Eb & Hx). exists b, x.
              split; [|auto]. rewrite map_app. apply in_or_app. now left.
      * intros q d' Hin. apply in_app_or in Hin.
        destruct Hin as [Hin | [Eq | []]].
        -- rewrite Ho1; [now apply Hfiles|].
           intros x Ex.
           assert (Hq : In q (map fst done))
             by (apply in_map_iff; now exists (q, d')).
           assert (x = []) by (apply (Hpf q a x); auto).
           subst x. rewrite app_nil_r in Ex. subst q. contradiction.
        -- injection Eq as <- <-. exact Hf1.
    + now rewrite <- app_assoc.
    + now rewrite <- app_assoc.
    + intros H. apply Hne. now right.
    + exists t. split.
      * simpl. now rewrite E.
      * now rewrite <- app_assoc in Hext.
Qed.

Lemma extractall_files (es : list entry) :
  NoDup (map fst es) -> prefix_free (map fst es) -> ~ In [] (map fst es) ->
  exists t,
    extractall es (Dir true true []) = Some t
    /\ forall q rd d, lookup t q = Some (File rd d) <-> rd = true /\ In (q, d) es.
Proof.
  intros Hnd Hpf Hne.
  destruct (extractall_spec es (Dir true true []) []) as (t & E & Hext);
    try assumption.
  - split; [reflexivity|]. split.
    + intros q m El. destruct q; [now left | discriminate El].
    + intros q d [].
  - exists t. split; [exact E|]. destruct Hext as (Hdir & Hnodes & Hfiles).
    simpl in Hnodes, Hfiles. intros q rd d. split.
    + intros El.
      destruct (Hnodes q _ El) as [-> | [(d' & Em & Hin) | [Hm _]]].
      * simpl in El. injection El as ->. discriminate Hdir.
      * injection Em as -> ->. auto.
      * discriminate Hm.
    + intros [-> Hin]. now apply Hfiles.
Qed.

(** ** Round trip *)

Section Round_trip.

Variables body trailer : list entry -> bytes.
Variable file : Path.
Variable root : node.
Variable space : nat.

Local Abbreviation zp := (zip_path file).
Local Abbreviation sd := (script_dir file).
Local Abbreviation base := (parent (script_dir file)).
Local Abbreviation o := (run body trailer file root space).
Local Abbreviation scan := (scan_fs file root).

Hypothesis Hwf : wf root = true.
Hypothesis Hres : res o = Return tt.

Lemma success_paths :
  map (app base) (namelist o) = filter (qualifies scan) (rglob scan sd).
Proof.
  destruct (success_packaged body trailer file root space Hres)
    as (fsA & freeA & pre & _ & _ & A & _).
  apply Forall2_added_paths in A. unfold namelist. now rewrite map_map.
Qed.

Lemma namelist_NoDup : NoDup (namelist o).
Proof.
  apply (NoDup_map_inv (app base)). rewrite success_paths.
  apply NoDup_filter. apply rglob_NoDup. now apply wf_scan_fs.
Qed.

Lemma namelist_prefix_free : prefix_free (namelist o).
Proof.
  intros a b x Ha Hb ->. destruct x as [|k x]; [reflexivity|exfalso].
  assert (Hq : forall n, In n (namelist o) -> qualifies scan (base ++ n) = true).
  { intros n Hn. apply (in_map (app base)) in Hn. rewrite success_paths in Hn.
    now apply filter_In in Hn. }
  pose proof (Hq _ Ha) as Qa. pose proof (Hq _ Hb) as Qb.
  unfold qualifies in Qa, Qb. apply andb_prop in Qa, Qb.
  destruct Qa as [Qa _]. destruct Qb as [Qb _].
  rewrite app_assoc, lookup_below_file in Qb; [discriminate Qb|].
  destruct (lookup scan (base ++ a)) as [[| |]|]; discriminate.
Qed.

Lemma namelist_nonempty : ~ In [] (namelist o).
Proof.
  intros Hin. unfold namelist in Hin. apply in_map_iff in Hin.
  destruct Hin as ([n d] & E & Hin). simpl in E. subst n.
  destruct (archive_file body trailer file root space [] d Hin)
    as (r & Hr & E & _).
  destruct (script_dir_below_parent file) as (x & Hx).
  apply (f_equal (@List.length string)) in E, Hx.
  rewrite !length_app in *. simpl in E.
  destruct r; [contradiction|]. simpl in E. lia.
Qed.

(** The entries of the archive, with their bytes, when the source
    directory is not the root. *)
Lemma archive_data (n : Path) (d : bytes) :
  sd <> [] ->
  In (n, d) (archive o) ->
  In (base ++ n) (rglob scan sd)
  /\ qualifies scan (base ++ n) = true
  /\ file_of (lookup scan (base ++ n)) = Some (true, d).
Proof.
  intros Hsd Hin.
  destruct (archive_added body trailer file root space _ Hin)
    as (p & Hp & E & Q & Hdata).
  simpl in E, Hdata. subst p. split; [exact Hp|]. split; [exact Q|].
  apply Hdata. intros Ez.
  destruct (rglob_below _ _ _ Hp) as (r & _ & Er).
  apply (zip_path_outside file Hsd r). now rewrite <- Ez.
Qed.

Lemma added_for_found (n : Path) :
  sd <> [] ->
  In (base ++ n) (rglob scan sd) ->
  qualifies scan (base ++ n) = true ->
  exists d, In (n, d) (archive o)
            /\ file_of (lookup scan (base ++ n)) = Some (true, d).
Proof.
  intros Hsd Hp Q.
  destruct (success_packaged body trailer file root space Hres)
    as (fsA & freeA & pre & _ & _ & A & _).
  assert (Hf : In (base ++ n) (filter (qualifies scan) (rglob scan sd)))
    by (apply filter_In; auto).
  destruct (Forall2_In_l _ _ _ _ A Hf) as ([n' d'] & Hin & E & _ & Hd').
  simpl in E, Hd'. apply app_inv_head in E. subst n'.
  exists d'. split; [exact Hin|]. apply Hd'. intros Ez.
  destruct (rglob_below _ _ _ Hp) as (r & _ & Er).
  apply (zip_path_outside file Hsd r). now rewrite <- Ez.
Qed.

End Round_trip.

(** ** The entries of any run *)

(** The entries of a run, whether it succeeds or not, are those of the
    files of an initial part of the walk; of all of it when the run
    succeeds. *)
Lemma run_walk
  (body trailer : list entry -> bytes) (file : Path) (root : node) (space : nat) :
  let o := run body trailer file root space in
  exists ps1 ps2,
    rglob (scan_fs file root) (script_dir file) = ps1 ++ ps2
    /\ Forall2 (added (parent (script_dir file)) (zip_path file)
                      (scan_fs file root))
         (filter (qualifies (scan_fs file root)) ps1) (archive o)
    /\ (res o = Return tt -> ps2 = []).
Proof.
  intros o. pose proof (run_exact body trailer file root space) as H.
  cbv zeta in H. fold o in H.
  destruct (destination_ok root (zip_path file)).
  - destruct H as (ps1 & tl & fin & data & _ & _ & _ & _ & A & _ & R).
    destruct R as [(-> & _) | [(p & ps2 & d & Hps & _ & _ & _ & _ & _ & Hr)
                              | (p & ps2 & e & Hps & _ & _ & _ & _ & _ & _ & Hr)]].
    + exists (rglob (scan_fs file root) (script_dir file)), [].
      rewrite app_nil_r. auto.
    + exists ps1, (p :: ps2). split; [exact Hps|]. split; [exact A|].
      rewrite Hr. discriminate.
    + exists ps1, (p :: ps2). split; [exact Hps|]. split; [exact A|].
      rewrite Hr. discriminate.
  - destruct H as (Hpost & Hr & _).
    exists [], (rglob (scan_fs file root) (script_dir file)).
    split; [reflexivity|]. unfold archive. rewrite Hpost. simpl.
    split; [constructor|]. rewrite Hr. discriminate.
Qed.

Lemma all_namelist_NoDup
  (body trailer : list entry -> bytes) (file : Path) (root : node) (space : nat) :
  wf root = true -> NoDup (namelist (run body trailer file root space)).
Proof.
  intros Hwf.
  destruct (run_walk body trailer file root space) as (ps1 & ps2 & Hps & A & _).
  apply Forall2_added_paths in A.
  apply (NoDup_map_inv (app (parent (script_dir file)))).
  unfold namelist. rewrite map_map.
  change (NoDup (map (fun e : entry => parent (script_dir file) ++ fst e)
                   (archive (run body trailer file root space)))).
  rewrite A. apply NoDup_filter.
  assert (Hnd : NoDup (ps1 ++ ps2))
    by (rewrite <- Hps; apply rglob_NoDup; now apply wf_scan_fs).
  now apply NoDup_app_remove_r in Hnd.
Qed.

Lemma all_namelist_prefix_free
  (body trailer : list entry -> bytes) (file : Path) (root : node) (space : nat) :
  prefix_free (namelist (run body trailer file root space)).
Proof.
  intros a b x Ha Hb ->. destruct x as [|k x]; [reflexivity|exfalso].
  assert (Hq : forall n,
             In n (namelist (run body trailer file root space)) ->
             qualifies (scan_fs file root) (parent (script_dir file) ++ n)
             = true).
  { intros n Hn. unfold namelist in Hn. apply in_map_iff in Hn.
    destruct Hn as ([n' d] & E & Hin). simpl in E. subst n'.
    now destruct (archive_file body trailer file root space n d Hin)
      as (r & _ & _ & Q). }
  pose proof (Hq _ Ha) as Qa. pose proof (Hq _ Hb) as Qb.
  unfold qualifies in Qa, Qb. apply andb_prop in Qa, Qb.
  destruct Qa as [Qa _]. destruct Qb as [Qb _].
  rewrite app_assoc, lookup_below_file in Qb; [discriminate Qb|].
  destruct (lookup (scan_fs file root) (parent (script_dir file) ++ a))
    as [[| |]|]; discriminate.
Qed.

(** An archive that has been finalised is closed, nothing is pending, and
    the file at the destination holds its entries and the end record. *)
Lemma finalised_archive
  (body trailer : list entry -> bytes) (file : Path) (root : node) (space : nat)
  (z : ZipFile) :
  let o := run body trailer file root space in
  zf (post o) = Some z ->
  end_record z = true ->
  z = mkZipFile (zip_path file) (archive o) false true false
  /\ lookup (fs (post o)) (zip_path file)
     = Some (File true (body (archive o) ++ trailer (archive o))).
Proof.
  intros o Hz Hfin. pose proof (run_exact body trailer file root space) as H.
  cbv zeta in H. fold o in H.
  destruct (destination_ok root (zip_path file)).
  - destruct H as (ps1 & tl & fin & data & Z & B & _ & _ & _ & _ & R).
    rewrite Z in Hz. injection Hz as <-. cbn [end_record] in Hfin. subst fin.
    split; [reflexivity|]. rewrite B.
    destruct R as [(_ & _ & [_ ->] & _)
                  | [(p & ps2 & d & _ & _ & _ & _ & _ & [_ ->] & _)
                    | (p & ps2 & e & _ & _ & _ & _ & _ & Hf & _)]];
      [reflexivity | reflexivity | discriminate Hf].
  - destruct H as (Hpost & _). rewrite Hpost in Hz. discriminate Hz.
Qed.

Lemma success_finalised
  (body trailer : list entry -> bytes) (file : Path) (root : node) (space : nat) :
  let o := run body trailer file root space in
  res o = Return tt ->
  zf (post o) = Some (mkZipFile (zip_path file) (archive o) false true false)
  /\ lookup (fs (post o)) (zip_path file)
     = Some (File true (body (archive o) ++ trailer (archive o))).
Proof.
  intros o Hres.
  destruct (success_packaged body trailer file root space Hres)
    as (fsA & freeA & pre & _ & _ & _ & Z).
  split; [exact Z|].
  now apply (finalised_archive body trailer file root space _ Z).
Qed.

(** ** The entries of a successful run *)

(** C1, as stated, fails for a run that ends with an error: when a file
    cannot be read the [with] block still closes and finalises the archive,
    and the archive that the run leaves at the destination lacks a regular
    file the walk has found. *)
Lemma finalized_archive_misses_found_file :
  let o := run demo_body demo_trailer demo_file demo_tree_unreadable 100 in
  let scan := scan_fs demo_file demo_tree_unreadable in
  let p := ["x"; "debug"; "b.txt"] in
  res o = Raise (PermissionError p)
  /\ zf (post o)
     = Some (mkZipFile (zip_path demo_file) [(["debug"; "a.txt"], [Byte.x61])]
               false true false)
  /\ lookup (fs (post o)) (zip_path demo_file)
     = Some (File true [Byte.x61; Byte.x50; Byte.x4b])
  /\ In p (rglob scan (script_dir demo_file))
  /\ is_file_node (lookup scan p) = true
  /\ name p <> "repackage.py"
  /\ relative_to p (parent (script_dir demo_file)) = Return ["debug"; "b.txt"]
  /\ ~ In ["debug"; "b.txt"] (namelist o).
Proof.
  repeat split; try (vm_compute; auto 10; fail); try discriminate.
  vm_compute. intros [H | []]. discriminate H.
Qed.

(** C1, amended.  A run that ends without error, started by a script path
    without [..], on a tree that names every entry once, leaves at the
    destination an archive that is closed and finalised, the file holding
    its entries and the end record.  It holds exactly one entry for each
    regular file that the scan finds under the source directory and that
    is not named [repackage.py], and nothing else; no two entries have the
    same name, as paths and, where the names of the tree hold no slash, as
    the strings the archive stores.  A file is found when the walk can reach
    it, that is through directories that can be listed; where all of them
    can, these are all the entries below the source directory.  Unless the
    source directory is the root, the tree below it is at scan time what it
    was when the run began. *)
Theorem archive_lists_found_files
  (body trailer : list entry -> bytes) (file : Path) (root : node) (space : nat) :
  let o := run body trailer file root space in
  let scan := scan_fs file root in
  normalized file = true ->
  wf root = true ->
  res o = Return tt ->
  (zf (post o) = Some (mkZipFile (zip_path file) (archive o) false true false)
   /\ lookup (fs (post o)) (zip_path file)
      = Some (File true (body (archive o) ++ trailer (archive o))))
  /\ NoDup (namelist o)
  /\ (forall n,
        In n (namelist o)
        <-> exists p,
              found scan (script_dir file) p
              /\ is_file_node (lookup scan p) = true
              /\ name p <> "repackage.py"
              /\ relative_to p (parent (script_dir file)) = Return n)
  /\ (names_ok scan = true -> NoDup (map str (namelist o)))
  /\ (listable_below scan (script_dir file) = true ->
      forall p, found scan (script_dir file) p
                <-> (exists r, r <> [] /\ p = script_dir file ++ r)
                    /\ lookup scan p <> None)
  /\ (script_dir file <> [] ->
      forall r, lookup scan (script_dir file ++ r)
                = lookup root (script_dir file ++ r)).
Proof.
  intros o scan _ Hwf Hres. subst o scan.
  pose proof (success_paths body trailer file root space Hres) as Hnames.
  pose proof (wf_scan_fs file root Hwf) as Hwfs.
  assert (Hn : forall n,
             In n (namelist (run body trailer file root space))
             <-> In (parent (script_dir file) ++ n)
                    (filter (qualifies (scan_fs file root))
                       (rglob (scan_fs file root) (script_dir file)))).
  { intros n. rewrite <- Hnames, in_map_iff. split.
    - intros H. now exists n.
    - intros (n' & E & H). apply app_inv_head in E. now subst n'. }
  split; [now apply success_finalised|].
  split; [|split; [|split; [|split]]].
  - now apply namelist_NoDup.
  - intros n.
    rewrite Hn, filter_In, (rglob_iff _ _ _ Hwfs). unfold qualifies.
    rewrite andb_true_iff, negb_true_iff, String.eqb_neq. split.
    + intros (Hf & Hfile & Hname).
      exists (parent (script_dir file) ++ n).
      repeat split; try assumption. apply relative_to_app.
    + intros (p & Hf & Hfile & Hname & Hrel).
      apply relative_to_inv in Hrel. subst p. auto.
  - intros Hok. apply NoDup_map_NoDup_ForallPairs;
      [|now apply namelist_NoDup].
    assert (Hcomp : forall n,
               In n (namelist (run body trailer file root space)) ->
               n <> [] /\ Forall (fun k => no_slash k = true) n).
    { intros n Hin. split.
      - intros ->. now apply (namelist_nonempty body trailer file root space).
      - apply Hn, filter_In in Hin. destruct Hin as [_ Q].
        unfold qualifies in Q. apply andb_prop in Q. destruct Q as [Q _].
        destruct (lookup (scan_fs file root) (parent (script_dir file) ++ n))
          as [m|] eqn:El; [|discriminate Q].
        apply (names_ok_lookup _ _ _ Hok) in El.
        apply Forall_app in El. apply El. }
    intros a b Ha Hb E.
    destruct (Hcomp a Ha) as [Ha1 Ha2]. destruct (Hcomp b Hb) as [Hb1 Hb2].
    now apply str_inj.
  - intros Hlist p. now apply found_listable.
  - intros Hsd r. now apply scan_fs_below.
Qed.

Lemma archive_lists_found_files_witness :
  let o := run demo_body demo_trailer demo_file demo_tree 100 in
  let scan := scan_fs demo_file demo_tree in
  normalized demo_file = true
  /\ wf demo_tree = true
  /\ res o = Return tt
  /\ ((zf (post o)
       = Some (mkZipFile (zip_path demo_file) (archive o) false true false)
       /\ lookup (fs (post o)) (zip_path demo_file)
          = Some (File true (demo_body (archive o) ++ demo_trailer (archive o))))
      /\ NoDup (namelist o)
      /\ (forall n,
            In n (namelist o)
            <-> exists p,
                  found scan (script_dir demo_file) p
                  /\ is_file_node (lookup scan p) = true
                  /\ name p <> "repackage.py"
                  /\ relative_to p (parent (script_dir demo_file)) = Return n)
      /\ (names_ok scan = true -> NoDup (map str (namelist o)))
      /\ (listable_below scan (script_dir demo_file) = true ->
          forall p, found scan (script_dir demo_file) p
                    <-> (exists r, r <> [] /\ p = script_dir demo_file ++ r)
                        /\ lookup scan p <> None)
      /\ (script_dir demo_file <> [] ->
          forall r, lookup scan (script_dir demo_file ++ r)
                    = lookup demo_tree (script_dir demo_file ++ r))).
Proof.
  split; [reflexivity|]. split; [reflexivity|]. split; [reflexivity|].
  apply (archive_lists_found_files demo_body demo_trailer demo_file
           demo_tree 100); reflexivity.
Defined.

(** C2, as stated, fails for a script in the root directory: the base name
    of the root is empty, the entries are named by the bare paths of the
    files, and extracting the archive recreates no directory: the files lie
    in the target itself. *)
Lemma root_entries_not_under_directory :
  let o := run demo_body demo_trailer demo_root_file demo_root_tree 100 in
  script_dir demo_root_file = []
  /\ skill_name demo_root_file = ""
  /\ res o = Return tt
  /\ namelist o = [["a.txt"]; [".zip"]]
  /\ extractall (archive o) (Dir true true [])
     = Some (Dir true true
               [("a.txt", File true [Byte.x61]);
                (".zip", File true [Byte.x61])]).
Proof. repeat split. Qed.

(** C2, amended.  For a script path without [..] whose directory is not
    the root: the name of every entry is the path of its file relative to
    the parent of the source directory, so it begins with the base name of
    the source directory, as a component and as a string, and the entry
    holds the bytes of that file.  Extracting a finalised archive, which
    the file at the destination then is, recreates the source directory as
    a subdirectory of the target: whatever is extracted lies below the
    base name of the source directory, each file with the bytes of the file
    it was made from, and that name is a directory as soon as the archive
    has an entry. *)
Theorem arcname_relative_to_parent
  (body trailer : list entry -> bytes) (file : Path) (root : node) (space : nat) :
  let o := run body trailer file root space in
  let sd := script_dir file in
  normalized file = true ->
  sd <> [] ->
  wf root = true ->
  (forall n d,
     In (n, d) (archive o) ->
     exists r,
       r <> []
       /\ n = skill_name file :: r
       /\ relative_to (sd ++ r) (parent sd) = Return n
       /\ content_at root (sd ++ r) d
       /\ String.prefix (skill_name file) (str n) = true)
  /\ (forall z,
        zf (post o) = Some z -> end_record z = true ->
        lookup (fs (post o)) (zip_path file)
        = Some (File true (body (archive o) ++ trailer (archive o)))
        /\ exists t,
             extractall (archive o) (Dir true true []) = Some t
             /\ (forall q m, lookup t q = Some m ->
                   q = [] \/ exists r, q = skill_name file :: r)
             /\ (forall q d, content_at t q d ->
                   exists r, r <> [] /\ q = skill_name file :: r
                             /\ content_at root (sd ++ r) d)
             /\ (archive o <> [] ->
                 is_dir_node (lookup t [skill_name file]) = true)).
Proof.
  intros o sd _ Hsd Hwf. subst o sd.
  assert (Hq : forall r, parent (script_dir file) ++ skill_name file :: r
                         = script_dir file ++ r).
  { intros r. rewrite (script_dir_split file Hsd) at 2.
    now rewrite <- app_assoc. }
  assert (Hentry : forall n d,
             In (n, d) (archive (run body trailer file root space)) ->
             exists r,
               r <> [] /\ n = skill_name file :: r
               /\ relative_to (script_dir file ++ r) (parent (script_dir file))
                  = Return n
               /\ content_at root (script_dir file ++ r) d
               /\ String.prefix (skill_name file) (str n) = true).
  { intros n d Hin.
    destruct (archive_data body trailer file root space n d Hsd Hin)
      as (Hp & _ & Hdata).
    destruct (rglob_below _ _ _ Hp) as (r & Hr & Er).
    assert (En : n = skill_name file :: r).
    { rewrite <- Hq in Er. now apply app_inv_head in Er. }
    exists r. split; [exact Hr|]. split; [exact En|].
    split; [rewrite <- Hq, En; apply relative_to_app|].
    split.
    - rewrite Er, scan_fs_below in Hdata by exact Hsd. exists true.
      destruct (lookup root (script_dir file ++ r)) as [[rd' d' | |]|];
        try discriminate Hdata.
      simpl in Hdata. now injection Hdata as -> ->.
    - rewrite En. now apply prefix_str_cons. }
  split; [exact Hentry|].
  intros z Hz Hfin.
  destruct (finalised_archive body trailer file root space z Hz Hfin)
    as [_ Hbytes].
  split; [exact Hbytes|].
  destruct (extractall_spec (archive (run body trailer file root space))
              (Dir true true []) [])
    as (t & E & Hdir & Hnodes & Hfiles).
  { split; [reflexivity|]. split.
    - intros q m El. destruct q; [now left | discriminate El].
    - intros q d []. }
  { apply (all_namelist_NoDup body trailer file root space Hwf). }
  { apply (all_namelist_prefix_free body trailer file root space). }
  { apply (namelist_nonempty body trailer file root space). }
  simpl in Hnodes, Hfiles.
  assert (Hname : forall b,
             In b (map fst (archive (run body trailer file root space))) ->
             exists r, r <> [] /\ b = skill_name file :: r).
  { intros b Hb. apply in_map_iff in Hb. destruct Hb as ([n d] & <- & Hin).
    destruct (Hentry n d Hin) as (r & Hr & En & _). now exists r. }
  exists t. split; [exact E|]. split; [|split].
  - intros q m El.
    destruct (Hnodes q m El) as [-> | [(d & _ & Hin) | (_ & b & x & Hb & -> & Hx)]].
    + now left.
    + right. destruct (Hentry q d Hin) as (r & _ & -> & _). now exists r.
    + destruct (Hname _ Hb) as (r & _ & Er).
      destruct q as [|k q]; [now left|]. right.
      simpl in Er. injection Er as -> _. now exists q.
  - intros q d (rd & El).
    destruct (Hnodes q _ El) as [-> | [(d' & Em & Hin) | (Hm & _)]].
    + simpl in El. injection El as ->. discriminate Hdir.
    + injection Em as _ <-.
      destruct (Hentry q d Hin) as (r & Hr & En & _ & Hc & _). now exists r.
    + discriminate Hm.
  - intros Hne.
    destruct (archive (run body trailer file root space)) as [|[n d] es] eqn:Ea;
      [contradiction|].
    destruct (Hentry n d (or_introl eq_refl)) as (r & Hr & -> & _).
    pose proof (Hfiles _ _ (or_introl eq_refl)) as El.
    change (skill_name file :: r) with ([skill_name file] ++ r) in El.
    rewrite lookup_app in El.
    destruct (lookup t [skill_name file]) as [[| l w ch |]|];
      try discriminate El; [|reflexivity| ];
      destruct r; try contradiction; discriminate El.
Qed.

Lemma arcname_relative_to_parent_witness :
  let o := run demo_body demo_trailer demo_file demo_tree 100 in
  let sd := script_dir demo_file in
  normalized demo_file = true
  /\ sd <> []
  /\ wf demo_tree = true
  /\ In (["debug"; "b"; "c.txt"], [Byte.x62; Byte.x63]) (archive o)
  /\ zf (post o)
     = Some (mkZipFile (zip_path demo_file) (archive o) false true false)
  /\ (forall n d,
        In (n, d) (archive o) ->
        exists r,
          r <> []
          /\ n = skill_name demo_file :: r
          /\ relative_to (sd ++ r) (parent sd) = Return n
          /\ content_at demo_tree (sd ++ r) d
          /\ String.prefix (skill_name demo_file) (str n) = true)
  /\ (forall z,
        zf (post o) = Some z -> end_record z = true ->
        lookup (fs (post o)) (zip_path demo_file)
        = Some (File true (demo_body (archive o) ++ demo_trailer (archive o)))
        /\ exists t,
             extractall (archive o) (Dir true true []) = Some t
             /\ (forall q m, lookup t q = Some m ->
                   q = [] \/ exists r, q = skill_name demo_file :: r)
             /\ (forall q d, content_at t q d ->
                   exists r, r <> [] /\ q = skill_name demo_file :: r
                             /\ content_at demo_tree (sd ++ r) d)
             /\ (archive o <> [] ->
                 is_dir_node (lookup t [skill_name demo_file]) = true)).
Proof.
  split; [reflexivity|]. split; [discriminate|]. split; [reflexivity|].
  split; [vm_compute; auto|]. split; [reflexivity|].
  apply (arcname_relative_to_parent demo_body demo_trailer demo_file
           demo_tree 100); [reflexivity | discriminate | reflexivity].
Defined.

(** C6, as stated, fails: a file in a subdirectory that cannot be listed
    is not found by the walk, which raises no error for it; the run
    succeeds, and extracting its archive does not bring that file back. *)
Lemma unlistable_subdirectory_not_extracted :
  let o := run demo_body demo_trailer demo_file demo_tree_hidden 100 in
  wf demo_tree_hidden = true
  /\ content_at demo_tree_hidden
       (script_dir demo_file ++ ["secret"; "k.txt"]) [Byte.x6b]
  /\ name (script_dir demo_file ++ ["secret"; "k.txt"]) <> "repackage.py"
  /\ res o = Return tt
  /\ extractall (archive o) (Dir true true [])
     = Some (Dir true true
               [("debug", Dir true true [("a.txt", File true [Byte.x61])])]).
Proof.
  split; [reflexivity|]. split; [now exists true|].
  split; [discriminate|]. split; reflexivity.
Qed.

(** C6, amended.  Where every directory below the source directory can be
    listed, the script path holds no [..] and the source directory is not
    the root, a run that ends without error leaves a finalised archive, the
    file at the destination holding its entries and the end record, and
    extracting these entries into an empty directory gives, below the name
    of the source directory, exactly the regular files below the source
    directory with their bytes, but for the files named [repackage.py]. *)
Theorem extract_round_trip
  (body trailer : list entry -> bytes) (file : Path) (root : node) (space : nat) :
  let o := run body trailer file root space in
  normalized file = true ->
  wf root = true ->
  res o = Return tt ->
  script_dir file <> [] ->
  listable_below root (script_dir file) = true ->
  zf (post o) = Some (mkZipFile (zip_path file) (archive o) false true false)
  /\ lookup (fs (post o)) (zip_path file)
     = Some (File true (body (archive o) ++ trailer (archive o)))
  /\ exists t,
       extractall (archive o) (Dir true true []) = Some t
       /\ forall q d,
            content_at t q d
            <-> exists r,
                  r <> []
                  /\ q = skill_name file :: r
                  /\ content_at root (script_dir file ++ r) d
                  /\ name (script_dir file ++ r) <> "repackage.py".
Proof.
  intros o _ Hwf Hres Hsd Hlist. subst o.
  destruct (success_finalised body trailer file root space Hres) as [Hz Hb].
  split; [exact Hz|]. split; [exact Hb|].
  destruct (extractall_files (archive (run body trailer file root space)))
    as (t & E & Ht).
  { apply (namelist_NoDup body trailer file root space Hwf Hres). }
  { apply (namelist_prefix_free body trailer file root space Hres). }
  { apply (namelist_nonempty body trailer file root space). }
  exists t. split; [exact E|]. intros q d.
  assert (Hq : forall r, parent (script_dir file) ++ skill_name file :: r
                         = script_dir file ++ r).
  { intros r. rewrite (script_dir_split file Hsd) at 2.
    now rewrite <- app_assoc. }
  split.
  - intros (rd & El). apply Ht in El. destruct El as [_ Hin].
    destruct (archive_data body trailer file root space q d Hsd Hin)
      as (Hp & Q & Hdata).
    destruct (rglob_below _ _ _ Hp) as (r & Hr & Er).
    exists r. split; [exact Hr|].
    assert (Eq : q = skill_name file :: r).
    { rewrite <- Hq in Er. now apply app_inv_head in Er. }
    split; [exact Eq|].
    rewrite Er in Q, Hdata. rewrite scan_fs_below in Hdata by exact Hsd.
    split.
    + exists true.
      destruct (lookup root (script_dir file ++ r)) as [[rd' d' | |]|];
        try discriminate Hdata.
      simpl in Hdata. now injection Hdata as -> ->.
    + unfold qualifies in Q. apply andb_prop in Q. destruct Q as [_ Q].
      apply negb_true_iff in Q. now apply String.eqb_neq in Q.
  - intros (r & Hr & -> & (rd & El) & Hname).
    assert (Hfound : In (script_dir file ++ r)
                        (rglob (scan_fs file root) (script_dir file))).
    { apply rglob_iff; [now apply wf_scan_fs|]. apply found_listable.
      - unfold listable_below in *.
        pose proof (scan_fs_below file root [] Hsd) as E0.
        rewrite app_nil_r in E0. now rewrite E0.
      - split; [now exists r|]. rewrite scan_fs_below by exact Hsd.
        now rewrite El. }
    assert (Q : qualifies (scan_fs file root) (script_dir file ++ r) = true).
    { unfold qualifies. rewrite scan_fs_below by exact Hsd. rewrite El.
      simpl. apply negb_true_iff. now apply String.eqb_neq. }
    rewrite <- Hq in Hfound, Q.
    destruct (added_for_found body trailer file root space Hres _ Hsd Hfound Q)
      as (d' & Hin & Hdata).
    rewrite Hq, scan_fs_below, El in Hdata by exact Hsd.
    simpl in Hdata. injection Hdata as -> <-.
    exists true. apply Ht. auto.
Qed.

Lemma extract_round_trip_witness :
  let o := run demo_body demo_trailer demo_file demo_tree 100 in
  normalized demo_file = true
  /\ wf demo_tree = true
  /\ res o = Return tt
  /\ script_dir demo_file <> []
  /\ listable_below demo_tree (script_dir demo_file) = true
  /\ zf (post o)
     = Some (mkZipFile (zip_path demo_file) (archive o) false true false)
  /\ lookup (fs (post o)) (zip_path demo_file)
     = Some (File true (demo_body (archive o) ++ demo_trailer (archive o)))
  /\ exists t,
       extractall (archive o) (Dir true true []) = Some t
       /\ forall q d,
            content_at t q d
            <-> exists r,
                  r <> []
                  /\ q = skill_name demo_file :: r
                  /\ content_at demo_tree (script_dir demo_file ++ r) d
                  /\ name (script_dir demo_file ++ r) <> "repackage.py".
Proof.
  split; [reflexivity|]. split; [reflexivity|]. split; [reflexivity|].
  split; [discriminate|]. split; [reflexivity|].
  apply (extract_round_trip demo_body demo_trailer demo_file demo_tree 100);
    try reflexivity.
  discriminate.
Defined.

(** For a script in the root directory the archive holds an entry for
    itself, which extraction turns into a file the original tree did not
    have. *)
Example root_archive_extracts_itself :
  extractall
    (archive (run demo_body demo_trailer ["repackage.py"]
                (Dir true true [("a.txt", File true [Byte.x61]);
                                ("repackage.py", File true [Byte.x23])])
                100))
    (Dir true true [])
  = Some (Dir true true [("a.txt", File true [Byte.x61]);
                         (".zip", File true [Byte.x61])]).
Proof. reflexivity. Qed.

(** The extraction of the usage example. *)
Example demo_extraction :
  extractall (archive (run demo_body demo_trailer demo_file demo_tree 100))
             (Dir true true [])
  = Some (Dir true true
            [("debug", Dir true true
                [("a.txt", File true [Byte.x61]);
                 ("b", Dir true true
                    [("c.txt", File true [Byte.x62; Byte.x63])])])]).
Proof. reflexivity. Qed.

(** ** Boundary cases *)

(** An empty source directory gives an empty archive that is finalised,
    and so does a source directory that holds the script only. *)
Example empty_directory_run :
  let o := run demo_body demo_trailer demo_file demo_tree_empty 100 in
  res o = Return tt /\ archive o = []
  /\ zf (post o) = Some (mkZipFile (zip_path demo_file) [] false true false).
Proof. repeat split. Qed.

Example script_only_run :
  let o := run demo_body demo_trailer demo_file demo_tree_script_only 100 in
  res o = Return tt /\ archive o = []
  /\ zf (post o) = Some (mkZipFile (zip_path demo_file) [] false true false).
Proof. repeat split. Qed.

(** The usage example on a device with two free bytes: the first entry
    fits, the second does not.  The file keeps the bytes that fitted, no
    byte is free, closing fails as the write did, and the archive is left
    with its first entry and without an end record. *)
Example full_device_run :
  let o := run demo_body demo_trailer demo_file demo_tree 2 in
  res o = Raise NoSpaceError
  /\ lookup (fs (post o)) (zip_path demo_file)
     = Some (File true [Byte.x61; Byte.x62])
  /\ free (post o) = 0
  /\ zf (post o)
     = Some (mkZipFile (zip_path demo_file) [(["debug"; "a.txt"], [Byte.x61])]
               false false true)
  /\ map ev_err (trace o)
     = [None; None; None; None; None; None; Some NoSpaceError;
        Some NoSpaceError; None].
Proof. repeat split. Qed.

(** Whatever the layout of the archive file, as long as an archive without
    entries takes up some bytes: on a device without room the archive is
    created but cannot be finalised; the handle is closed all the same. *)
Lemma end_record_needs_room (body trailer : list entry -> bytes) :
  body [] ++ trailer [] <> [] ->
  let o := run body trailer demo_file demo_tree_script_only 0 in
  res o = Raise NoSpaceError
  /\ zf (post o)
     = Some (mkZipFile (zip_path demo_file) [] false false true).
Proof.
  intros Hne o. subst o.
  pose proof (length_zero_iff_nil (body [] ++ trailer [])) as Hlen.
  destruct (List.length (body [] ++ trailer [])) as [|k] eqn:El;
    [exfalso; now apply Hne, Hlen|].
  unfold run, main, remove_old, package, with_ZipFile, finally, bind,
    path_exists, path_rglob, get, ret, print, emit.
  cbn. unfold fits. cbn. rewrite El. split; reflexivity.
Qed.

(** ** What a run prints and reads *)

Lemma printed_app (a b : list event) : printed (a ++ b) = printed a ++ printed b.
Proof. apply flat_map_app. Qed.

Lemma reads_app (a b : list event) : reads (a ++ b) = reads a ++ reads b.
Proof. apply flat_map_app. Qed.

Lemma printed_turns (base : Path) (es : list entry) :
  printed (flat_map (turn base) es) = map added_line (map fst es).
Proof.
  induction es as [|e es IH]; [reflexivity|].
  cbn [flat_map map]. rewrite printed_app, IH. reflexivity.
Qed.

Lemma reads_turns (base : Path) (es : list entry) :
  reads (flat_map (turn base) es) = map (fun e : entry => base ++ fst e) es.
Proof.
  induction es as [|e es IH]; [reflexivity|].
  cbn [flat_map map]. rewrite reads_app, IH. reflexivity.
Qed.

Lemma printed_last_line (file : Path) (r : result unit) :
  printed (last_line file r)
  = match r with
    | Return _ =>
        [nl +++ "✅ Successfully packaged to: " +++ absolute (zip_path file)]
    | Raise _ => []
    end.
Proof. now destruct r. Qed.

(** The trace of a run that opened the archive, and where its loop
    stopped. *)
Lemma filled_trace
  (body trailer : list entry -> bytes) (file : Path) (root : node) (space : nat)
  (o : outcome unit) :
  filled body trailer file root space o ->
  exists (ps1 ps2 : list Path) (tl : list event) (fin : bool),
    rglob (scan_fs file root) (script_dir file) = ps1 ++ ps2
    /\ map (fun e : entry => parent (script_dir file) ++ fst e) (archive o)
       = filter (qualifies (scan_fs file root)) ps1
    /\ trace o
       = (if exists_node (lookup root (zip_path file))
          then [Ev (Unlink (zip_path file)) None;
                Ev (Print ("Removed old: " +++ name (zip_path file))) None]
          else [])
         ++ [packaging_line file; Ev (Open (zip_path file)) None]
         ++ flat_map (turn (parent (script_dir file))) (archive o) ++ tl
         ++ [Ev EndRecord (if fin then None else Some NoSpaceError);
             Ev CloseFp None]
         ++ last_line file (res o)
    /\ printed tl = []
    /\ ((ps2 = [] /\ reads tl = [])
        \/ (exists p ps2',
              ps2 = p :: ps2' /\ qualifies (scan_fs file root) p = true
              /\ reads tl = [p] /\ res o <> Return tt)).
Proof.
  intros (ps1 & tl & fin & data & _ & _ & _ & _ & A & T & R).
  apply Forall2_added_paths in A.
  destruct R as [(-> & -> & _)
                | [(p & ps2 & d & Hps & Q & _ & _ & -> & _ & Hr)
                  | (p & ps2 & e & Hps & Q & _ & _ & -> & _ & _ & Hr)]].
  - exists (rglob (scan_fs file root) (script_dir file)), [], [], fin.
    rewrite app_nil_r. auto 10.
  - exists ps1, (p :: ps2), [Ev (ReadFile p) (Some (PermissionError p))], fin.
    split; [exact Hps|]. split; [exact A|]. split; [exact T|].
    split; [reflexivity|]. right. exists p, ps2.
    repeat split; try assumption. rewrite Hr. discriminate.
  - exists ps1, (p :: ps2),
      [Ev (ReadFile p) None; Ev (WriteEntry (fst e)) (Some NoSpaceError)], fin.
    split; [exact Hps|]. split; [exact A|]. split; [exact T|].
    split; [reflexivity|]. right. exists p, ps2.
    repeat split; try assumption. rewrite Hr. discriminate.
Qed.

(** X1. The lines of a run.  When the destination can be written the run
    prints [Removed old: ...] if something was there, the [Packaging skill]
    line, one [Added] line for each entry the archive holds at the end, in
    their order, and the line of success exactly when it ends without
    error.  Otherwise it prints nothing, or the [Packaging skill] line alone
    when nothing was there to delete. *)
Theorem printed_lines
  (body trailer : list entry -> bytes) (file : Path) (root : node) (space : nat) :
  let o := run body trailer file root space in
  let zp := zip_path file in
  printed (trace o)
  = if destination_ok root zp then
      (if exists_node (lookup root zp)
       then ["Removed old: " +++ name zp] else [])
      ++ ["Packaging skill: " +++ skill_name file +++ nl]
      ++ map added_line (namelist o)
      ++ match res o with
         | Return _ => [nl +++ "✅ Successfully packaged to: " +++ absolute zp]
         | Raise _ => []
         end
    else if exists_node (lookup root zp) then []
    else ["Packaging skill: " +++ skill_name file +++ nl].
Proof.
  intros o zp. pose proof (run_exact body trailer file root space) as H.
  cbv zeta in H. fold o zp in H.
  destruct (destination_ok root zp).
  - destruct (filled_trace _ _ _ _ _ _ H)
      as (ps1 & ps2 & tl & fin & _ & _ & T & Htl & _).
    rewrite T, !printed_app, printed_turns, Htl, printed_last_line.
    unfold namelist. fold zp.
    destruct (exists_node (lookup root zp)); reflexivity.
  - destruct H as (_ & _ & ->).
    destruct (exists_node (lookup root zp)); reflexivity.
Qed.

(** ** The entries, in order *)

Lemma entries_of_app (base : Path) (t : node) (a b : list Path) :
  entries_of base t (a ++ b) = entries_of base t a ++ entries_of base t b.
Proof. unfold entries_of. now rewrite filter_app, flat_map_app. Qed.

Lemma entries_of_ext (base : Path) (t t' : node) (ps : list Path) :
  (forall p, In p ps -> lookup t p = lookup t' p) ->
  entries_of base t ps = entries_of base t' ps.
Proof.
  unfold entries_of. induction ps as [|p ps IH]; intros H; [reflexivity|].
  cbn [filter]. unfold qualifies at 1 3. rewrite (H p) by now left.
  fold (qualifies t' p).
  destruct (qualifies t' p).
  - cbn [flat_map]. unfold entry_for at 1 3. rewrite (H p) by now left.
    f_equal. apply IH. intros q Hq. apply H. now right.
  - apply IH. intros q Hq. apply H. now right.
Qed.

Lemma Forall2_added_entries (base zp : Path) (scan : node) qs es :
  Forall2 (added base zp scan) qs es ->
  (forall p, In p qs -> p <> zp) ->
  flat_map (entry_for base scan) qs = es.
Proof.
  induction 1 as [|p [a d] qs es (E & Q & Hd) _ IH]; intros Hne;
    [reflexivity|].
  cbn [flat_map]. rewrite IH by (intros q Hq; apply Hne; now right).
  simpl in E, Hd. subst p. unfold entry_for.
  rewrite relative_to_app.
  specialize (Hd (Hne _ (or_introl eq_refl))).
  destruct (lookup scan (base ++ a)) as [[r d' | |]|]; try discriminate Hd.
  injection Hd as -> ->. reflexivity.
Qed.

Lemma scan_rglob (file : Path) (root : node) :
  script_dir file <> [] ->
  rglob (scan_fs file root) (script_dir file) = rglob root (script_dir file).
Proof.
  intros Hsd. unfold rglob.
  pose proof (scan_fs_below file root [] Hsd) as H.
  rewrite app_nil_r in H. now rewrite H.
Qed.

(** Unless the source directory is the root, the walk and what it reads are
    those of the tree as the run finds it. *)
Lemma expected_archive_scan (file : Path) (root : node) :
  script_dir file <> [] ->
  expected_archive file root
  = entries_of (parent (script_dir file)) (scan_fs file root)
      (rglob (scan_fs file root) (script_dir file)).
Proof.
  intros Hsd. unfold expected_archive. rewrite scan_rglob by exact Hsd.
  symmetry. apply entries_of_ext. intros p Hp.
  destruct (rglob_below _ _ _ Hp) as (r & _ & ->).
  now apply scan_fs_below.
Qed.

Lemma walk_not_archive (file : Path) (root : node) (ps : list Path) :
  script_dir file <> [] ->
  incl ps (rglob (scan_fs file root) (script_dir file)) ->
  forall p, In p ps -> p <> zip_path file.
Proof.
  intros Hsd Hincl p Hp E.
  destruct (rglob_below _ _ _ (Hincl _ Hp)) as (r & _ & Er).
  apply (zip_path_outside file Hsd r). now rewrite <- E.
Qed.

Lemma added_entries_of (file : Path) (root : node) (ps1 : list Path) es :
  script_dir file <> [] ->
  incl ps1 (rglob (scan_fs file root) (script_dir file)) ->
  Forall2 (added (parent (script_dir file)) (zip_path file) (scan_fs file root))
          (filter (qualifies (scan_fs file root)) ps1) es ->
  entries_of (parent (script_dir file)) (scan_fs file root) ps1 = es.
Proof.
  intros Hsd Hincl A. unfold entries_of.
  apply (Forall2_added_entries _ (zip_path file)); [exact A|].
  intros p Hp. apply filter_In in Hp.
  apply (walk_not_archive file root ps1 Hsd Hincl). apply Hp.
Qed.

(** X2. The archive as a function of the tree.  For a script path without
    [..] whose directory is not the root, the entries of a run that
    succeeds are those of [expected_archive], names and bytes, in the order
    of the walk; the entries of any other run are an initial segment of
    them. *)
Theorem archive_in_walk_order
  (body trailer : list entry -> bytes) (file : Path) (root : node) (space : nat) :
  normalized file = true ->
  script_dir file <> [] ->
  let o := run body trailer file root space in
  exists rest,
    expected_archive file root = archive o ++ rest
    /\ (res o = Return tt -> rest = []).
Proof.
  intros _ Hsd o.
  destruct (run_walk body trailer file root space)
    as (ps1 & ps2 & Hps & A & Hres).
  fold o in A, Hres.
  rewrite (expected_archive_scan file root Hsd), Hps, entries_of_app.
  rewrite (added_entries_of file root ps1 (archive o) Hsd)
    by (try exact A; rewrite Hps; apply incl_appl, incl_refl).
  eexists. split; [reflexivity|]. intros Hr. now rewrite (Hres Hr).
Qed.

Lemma archive_in_walk_order_witness :
  normalized demo_file = true
  /\ script_dir demo_file <> []
  /\ exists rest,
       expected_archive demo_file demo_tree
       = archive (run demo_body demo_trailer demo_file demo_tree 100) ++ rest
       /\ (res (run demo_body demo_trailer demo_file demo_tree 100) = Return tt
           -> rest = []).
Proof.
  split; [reflexivity|]. split; [discriminate|].
  apply (archive_in_walk_order demo_body demo_trailer demo_file demo_tree 100).
  - reflexivity.
  - discriminate.
Defined.

(** X6. The files a run reads.  They are the files of the walk that pass
    the test of the loop, in that order, each read once, up to the first
    call that fails: all of them when the run succeeds.  So no file named
    [repackage.py] is read, and nothing that is not a regular file; on a
    tree that names every entry once no file is read twice. *)
Theorem files_read_once
  (body trailer : list entry -> bytes) (file : Path) (root : node) (space : nat) :
  let o := run body trailer file root space in
  let scan := scan_fs file root in
  (exists rest,
     filter (qualifies scan) (rglob scan (script_dir file))
     = reads (trace o) ++ rest
     /\ (res o = Return tt -> rest = []))
  /\ (forall p, In p (reads (trace o)) ->
        is_file_node (lookup scan p) = true /\ name p <> "repackage.py")
  /\ (wf root = true -> NoDup (reads (trace o))).
Proof.
  intros o scan.
  assert (H1 : exists rest,
             filter (qualifies scan) (rglob scan (script_dir file))
             = reads (trace o) ++ rest
             /\ (res o = Return tt -> rest = [])).
  { subst scan. pose proof (run_exact body trailer file root space) as H.
    cbv zeta in H. fold o in H.
    destruct (destination_ok root (zip_path file)).
    - destruct (filled_trace _ _ _ _ _ _ H)
        as (ps1 & ps2 & tl & fin & Hps & A & T & _ & R).
      assert (Hpre : forall pre,
                 pre = [] \/ pre = [Ev (Unlink (zip_path file)) None;
                                    Ev (Print ("Removed old: "
                                               +++ name (zip_path file))) None] ->
                 reads pre = [])
        by (intros pre [-> | ->]; reflexivity).
      assert (Hlast : reads (last_line file (res o)) = [])
        by (now destruct (res o)).
      rewrite T, !reads_app, reads_turns, Hlast, A.
      rewrite Hpre
        by (destruct (exists_node (lookup root (zip_path file))); auto).
      cbn [reads flat_map ev_call app packaging_line]. rewrite ?app_nil_r.
      destruct R as [(-> & ->) | (p & ps2' & -> & Q & -> & Hr)].
      + exists []. rewrite Hps, !app_nil_r. auto.
      + exists (filter (qualifies (scan_fs file root)) ps2').
        split; [|intros Hx; contradiction].
        rewrite Hps, filter_app. cbn [filter]. rewrite Q.
        now rewrite <- app_assoc.
    - destruct H as (_ & Hr & ->).
      eexists. split; [|rewrite Hr; discriminate].
      now destruct (exists_node (lookup root (zip_path file))). }
  destruct H1 as (rest & E & Hrest).
  split; [exists rest; auto|]. split.
  - intros p Hp.
    assert (Hin : In p (filter (qualifies scan) (rglob scan (script_dir file))))
      by (rewrite E; apply in_or_app; now left).
    apply filter_In in Hin. destruct Hin as [_ Q].
    unfold qualifies in Q. apply andb_prop in Q. destruct Q as [Q1 Q2].
    split; [exact Q1|]. intros En. rewrite En in Q2. discriminate Q2.
  - intros Hwf.
    assert (Hnd : NoDup (filter (qualifies scan) (rglob scan (script_dir file))))
      by (apply NoDup_filter, rglob_NoDup; now apply wf_scan_fs).
    rewrite E in Hnd. now apply NoDup_app_remove_r in Hnd.
Qed.

(** ** What a run leaves alone *)

(** Taking a file out of its directory changes no other file. *)
Lemma file_of_without (file : Path) (t : node) (q : Path) :
  q <> zip_path file ->
  is_dir_node (lookup t (zip_path file)) = false ->
  file_of (lookup (update_dir (remove_entry (name (zip_path file))) t
                     (parent (zip_path file))) q)
  = file_of (lookup t q).
Proof.
  intros Hq Hdir.
  set (dir := parent (zip_path file)). set (c := name (zip_path file)).
  assert (Hzp : zip_path file = dir ++ [c]) by apply zip_path_split.
  destruct (path_trichotomy q dir)
    as [(rest & E) | [(k & q' & E) | (common & a & b & q1 & d1 & Hab & E1 & E2)]].
  - rewrite E at 1. rewrite lookup_update_dir_above. apply file_of_update_dir.
  - subst q. destruct (String.eqb_spec k c) as [-> | Hk].
    + destruct q' as [|k' q']; [now rewrite Hzp in Hq|].
      rewrite lookup_update_dir_below.
      replace (dir ++ c :: k' :: q') with ((dir ++ [c]) ++ k' :: q')
        by (now rewrite <- app_assoc).
      rewrite lookup_app, <- Hzp.
      assert (Hr : match lookup t dir with
                   | Some (Dir _ _ ch) =>
                       match assoc c (remove_entry c ch) with
                       | Some m => lookup m (k' :: q')
                       | None => None
                       end
                   | _ => None
                   end = None).
      { destruct (lookup t dir) as [[| l w ch |]|]; try reflexivity.
        rewrite assoc_remove_entry.
        now destruct (String.eqb_spec c c). }
      rewrite Hr.
      destruct (lookup t (zip_path file)) as [[| |]|]; try reflexivity.
      discriminate Hdir.
    + now rewrite (lookup_update_dir_other _ c) by
        (auto using keeps_others_remove).
  - rewrite E1. rewrite E2. now rewrite lookup_update_dir_diverge.
Qed.

(** X3. A run changes nothing but the archive.  Whatever happens, the tree
    without the entry of the archive is at the end what it was at the start:
    no other file or directory is created, removed, renamed or rewritten.
    In particular every other file keeps its bytes and its permission. *)
Theorem only_archive_changes
  (body trailer : list entry -> bytes) (file : Path) (root : node) (space : nat) :
  let o := run body trailer file root space in
  let zp := zip_path file in
  update_dir (remove_entry (name zp)) (fs (post o)) (parent zp)
  = update_dir (remove_entry (name zp)) root (parent zp)
  /\ forall q, q <> zp ->
       file_of (lookup (fs (post o)) q) = file_of (lookup root q).
Proof.
  intros o zp. subst zp.
  pose proof (run_exact body trailer file root space) as H.
  cbv zeta in H. fold o in H.
  destruct (destination_ok root (zip_path file)) eqn:Hok.
  - destruct H as (ps1 & tl & fin & data & _ & B & _ & T & _).
    split; [exact T|]. intros q Hq.
    rewrite <- (file_of_without file (fs (post o)) q Hq)
      by (now rewrite B).
    rewrite T. apply file_of_without; [exact Hq|].
    unfold destination_ok in Hok.
    destruct (lookup root (parent (zip_path file))) as [[| l [|] ch |]|];
      try discriminate Hok.
    now apply negb_true_iff in Hok.
  - destruct H as (-> & _). auto.
Qed.

(** ** The destination *)

(** X4. The destination decides whether an archive is left, for a script
    path without [..].  If its directory is there and writable and no
    directory lies at its path, the archive is created, after the old one is
    deleted, and a file is at the destination when the run ends, however it
    ends.  Otherwise the run ends
    with the error of [unlink] or of [ZipFile] and has changed nothing: no
    call but [print] has succeeded, so an old archive is never deleted
    without a new one taking its place. *)
Theorem archive_created_or_nothing_changed
  (body trailer : list entry -> bytes) (file : Path) (root : node) (space : nat) :
  let o := run body trailer file root space in
  let zp := zip_path file in
  normalized file = true ->
  if destination_ok root zp then
    In (Ev (Open zp) None) (trace o)
    /\ (lookup root zp <> None -> In (Ev (Unlink zp) None) (trace o))
    /\ exists b, lookup (fs (post o)) zp = Some (File true b)
  else
    post o = mkState root space None
    /\ res o = Raise (destination_error root zp)
    /\ exit_status (res o) = 1
    /\ forall c, In (Ev c None) (trace o) -> exists s, c = Print s.
Proof.
  intros o zp _. pose proof (run_exact body trailer file root space) as H.
  cbv zeta in H. fold o zp in H.
  destruct (destination_ok root zp) eqn:Hok.
  - destruct H as (ps1 & tl & fin & data & _ & B & _ & _ & _ & T & _).
    fold zp in T, B.
    rewrite T. split; [|split].
    + apply in_or_app. right. right. now left.
    + intros Hne. apply in_or_app. left.
      destruct (lookup root zp); [now left|contradiction].
    + eexists. exact B.
  - destruct H as (Hp & Hr & Ht). rewrite Hr, Ht.
    repeat split; [exact Hp|].
    intros c Hin. destruct (exists_node (lookup root zp)).
    + destruct Hin as [E | []]. discriminate E.
    + destruct Hin as [E | [E | []]]; [|discriminate E].
      injection E as <-. eexists. reflexivity.
Qed.

Lemma archive_created_or_nothing_changed_witness :
  let o := run demo_body demo_trailer demo_file demo_tree_old 100 in
  let zp := zip_path demo_file in
  normalized demo_file = true
  /\ destination_ok demo_tree_old zp = true
  /\ lookup demo_tree_old zp <> None
  /\ In (Ev (Open zp) None) (trace o)
  /\ (lookup demo_tree_old zp <> None -> In (Ev (Unlink zp) None) (trace o))
  /\ exists b, lookup (fs (post o)) zp = Some (File true b).
Proof.
  split; [reflexivity|]. split; [reflexivity|]. split; [discriminate|].
  exact (archive_created_or_nothing_changed demo_body demo_trailer demo_file
           demo_tree_old 100 eq_refl).
Defined.

(** X8. A directory at the path of the archive, for a script path without
    [..].  [exists()] holds for it,
    so the script tries to unlink it, which fails: the run ends at once,
    having printed nothing and changed nothing, whatever the directory
    holds.  The error is [IsADirectoryError] when entries can be removed
    from the parent directory and [PermissionError] when they cannot: the
    permission is checked first. *)
Theorem directory_at_destination
  (body trailer : list entry -> bytes) (file : Path) (root : node) (space : nat) :
  normalized file = true ->
  is_dir_node (lookup root (zip_path file)) = true ->
  exists l w ch,
    lookup root (parent (zip_path file)) = Some (Dir l w ch)
    /\ run body trailer file root space
       = mkOutcome
           (Raise (if w then IsADirectoryError (zip_path file)
                   else PermissionError (zip_path file)))
           (mkState root space None)
           [Ev (Unlink (zip_path file))
               (Some (if w then IsADirectoryError (zip_path file)
                      else PermissionError (zip_path file)))].
Proof.
  intros _ Hdir. pose proof (run_exact body trailer file root space) as H.
  cbv zeta in H.
  pose proof (lookup_zp file root) as Hz.
  assert (Hok : destination_ok root (zip_path file) = false).
  { unfold destination_ok. rewrite Hdir.
    now destruct (lookup root (parent (zip_path file))) as [[| l [|] ch |]|]. }
  rewrite Hok in H. destruct H as (Hp & Hr & Ht).
  unfold destination_error in Hr, Ht. rewrite Hdir in Hr, Ht.
  destruct (lookup root (parent (zip_path file))) as [[| l w ch |]|];
    try (rewrite Hz in Hdir; discriminate Hdir).
  exists l, w, ch. split; [reflexivity|].
  destruct (lookup root (zip_path file)); [|discriminate Hdir].
  simpl in Ht. rewrite andb_true_r in Hr, Ht.
  destruct (run body trailer file root space) as [r p t].
  simpl in *. now subst.
Qed.

Lemma directory_at_destination_witness :
  normalized demo_file = true
  /\ is_dir_node (lookup demo_tree_blocked (zip_path demo_file)) = true
  /\ exists l w ch,
       lookup demo_tree_blocked (parent (zip_path demo_file))
       = Some (Dir l w ch)
       /\ run demo_body demo_trailer demo_file demo_tree_blocked 100
          = mkOutcome
              (Raise (if w then IsADirectoryError (zip_path demo_file)
                      else PermissionError (zip_path demo_file)))
              (mkState demo_tree_blocked 100 None)
              [Ev (Unlink (zip_path demo_file))
                  (Some (if w then IsADirectoryError (zip_path demo_file)
                         else PermissionError (zip_path demo_file)))].
Proof.
  split; [reflexivity|]. split; [reflexivity|].
  apply (directory_at_destination demo_body demo_trailer demo_file
           demo_tree_blocked 100); reflexivity.
Defined.

(** ** The bytes of the archive *)

(** X7. The archive file and the archive object.  When the destination can
    be written, in a run started by a script path without [..], the archive
    is finalised exactly when no write of an entry
    failed and the entries and the end record fit in the space that was
    free together with what the old archive gave back.  The file left at
    the destination is then the archive of the entries the object holds;
    otherwise the run ends with the error of the full device, no byte is
    free, and the file holds what fitted.  In both cases the free space has
    gone down by what the new file holds beyond the old one. *)
Theorem archive_file_matches_entries
  (body trailer : list entry -> bytes) (file : Path) (root : node) (space : nat) :
  let o := run body trailer file root space in
  let zp := zip_path file in
  let es := archive o in
  let freeA := space + old_size root zp in
  normalized file = true ->
  destination_ok root zp = true ->
  exists fin data,
    zf (post o) = Some (mkZipFile zp es false fin (negb fin))
    /\ lookup (fs (post o)) zp = Some (File true data)
    /\ free (post o) + List.length data = freeA
    /\ (fin = true
        <-> List.length (body es ++ trailer es) <= freeA
            /\ forall a, ~ In (Ev (WriteEntry a) (Some NoSpaceError)) (trace o))
    /\ (fin = true -> data = body es ++ trailer es)
    /\ (fin = false ->
        res o = Raise NoSpaceError
        /\ free (post o) = 0
        /\ In (Ev EndRecord (Some NoSpaceError)) (trace o)).
Proof.
  intros o zp es freeA _ Hok. subst zp es freeA.
  pose proof (run_exact body trailer file root space) as H.
  cbv zeta in H. fold o in H. rewrite Hok in H.
  destruct (filled_after_open _ _ _ _ _ _ H)
    as (pre & rest & tl & _ & _ & _ & _ & Hw & ps1 & fin & data
          & Z & Hend & B & Fr & _ & R).
  exists fin, data.
  split; [exact Z|]. split; [exact B|]. split; [exact Fr|].
  assert (Hfull : forall d : bytes,
             space + old_size root (zip_path file) < List.length d ->
             data = firstn (space + old_size root (zip_path file)) d ->
             free (post o) = 0).
  { intros d Hlen ->. rewrite length_firstn, Nat.min_l in Fr by lia. lia. }
  destruct R as [(_ & -> & [Cf Cd] & Hr)
                | [(p & ps2 & d & _ & _ & _ & _ & -> & [Cf Cd] & Hr)
                  | (p & ps2 & e & _ & _ & _ & Hlen & -> & -> & Cd & Hr)]].
  - split; [|split].
    + rewrite Cf, Nat.leb_le. split; [|tauto].
      intros Hle. split; [exact Hle|]. intros a Hin.
      apply Hw in Hin. exact Hin.
    + intros ->. exact Cd.
    + intros ->. split; [exact Hr|]. split; [|exact Hend].
      symmetry in Cf. apply Nat.leb_gt in Cf. now apply (Hfull _ Cf).
  - split; [|split].
    + rewrite Cf, Nat.leb_le. split; [|tauto].
      intros Hle. split; [exact Hle|]. intros a Hin.
      apply Hw in Hin. destruct Hin as [E | []]. discriminate E.
    + intros ->. exact Cd.
    + intros ->. split; [exact Hr|]. split; [|exact Hend].
      symmetry in Cf. apply Nat.leb_gt in Cf. now apply (Hfull _ Cf).
  - split; [|split].
    + split; [discriminate|]. intros [_ Hno]. exfalso.
      apply (Hno (fst e)). apply Hw. right. now left.
    + discriminate.
    + intros _. split; [exact Hr|]. split; [|exact Hend].
      now apply (Hfull _ Hlen).
Qed.

Lemma archive_file_matches_entries_witness :
  let o := run demo_body demo_trailer demo_file demo_tree 1 in
  let zp := zip_path demo_file in
  let es := archive o in
  let freeA := 1 + old_size demo_tree zp in
  normalized demo_file = true
  /\ destination_ok demo_tree zp = true
  /\ In (Ev (WriteEntry ["debug"; "b"; "c.txt"]) (Some NoSpaceError)) (trace o)
  /\ exists fin data,
       zf (post o) = Some (mkZipFile zp es false fin (negb fin))
       /\ lookup (fs (post o)) zp = Some (File true data)
       /\ free (post o) + List.length data = freeA
       /\ (fin = true
           <-> List.length (demo_body es ++ demo_trailer es) <= freeA
               /\ forall a,
                    ~ In (Ev (WriteEntry a) (Some NoSpaceError)) (trace o))
       /\ (fin = true -> data = demo_body es ++ demo_trailer es)
       /\ (fin = false ->
           res o = Raise NoSpaceError
           /\ free (post o) = 0
           /\ In (Ev EndRecord (Some NoSpaceError)) (trace o)).
Proof.
  split; [reflexivity|]. split; [reflexivity|].
  split; [vm_compute; auto 10|].
  apply (archive_file_matches_entries demo_body demo_trailer demo_file
           demo_tree 1); reflexivity.
Defined.

(** ** When a run succeeds *)

(** Unless the source directory is the root, the walk finds and tests the
    tree as the run found it. *)
Lemma walk_of_root (file : Path) (root : node) :
  script_dir file <> [] ->
  filter (qualifies (scan_fs file root))
         (rglob (scan_fs file root) (script_dir file))
  = filter (qualifies root) (rglob root (script_dir file))
  /\ forall p, In p (rglob root (script_dir file)) ->
       lookup (scan_fs file root) p = lookup root p.
Proof.
  intros Hsd.
  assert (Hl : forall p, In p (rglob root (script_dir file)) ->
                 lookup (scan_fs file root) p = lookup root p).
  { intros p Hp. destruct (rglob_below _ _ _ Hp) as (r & _ & ->).
    now apply scan_fs_below. }
  split; [|exact Hl].
  rewrite scan_rglob by exact Hsd. apply filter_ext_in.
  intros p Hp. unfold qualifies. now rewrite Hl.
Qed.

Lemma readable_file_of (t : node) (p : Path) (r : bool) (d : bytes) :
  file_of (lookup t p) = Some (r, d) -> readable t p = r.
Proof.
  unfold readable. destruct (lookup t p) as [[| |]|]; try discriminate.
  now intros [= -> _].
Qed.

(** X5. What a run that succeeds needed.  For a script path without [..]
    whose directory is not the root: when a run ends without error, the
    destination could be written, every file that the walk of the tree
    finds and that passes the test of the loop could be read, and the
    archive of these files, end record included, fits in the space that was
    free together with what the old archive gave back. *)
Theorem success_needs
  (body trailer : list entry -> bytes) (file : Path) (root : node) (space : nat) :
  normalized file = true ->
  script_dir file <> [] ->
  let o := run body trailer file root space in
  let es := expected_archive file root in
  res o = Return tt ->
  destination_ok root (zip_path file) = true
  /\ forallb (readable root)
       (filter (qualifies root) (rglob root (script_dir file))) = true
  /\ archive o = es
  /\ List.length (body es ++ trailer es)
     <= space + old_size root (zip_path file).
Proof.
  intros _ Hsd o es Hres. subst es.
  pose proof (run_exact body trailer file root space) as H.
  cbv zeta in H. fold o in H.
  destruct (walk_of_root file root Hsd) as [Hwalk Hlook].
  destruct (destination_ok root (zip_path file));
    [|destruct H as (_ & Hr & _); rewrite Hr in Hres; discriminate Hres].
  split; [reflexivity|].
  destruct H as (ps1 & tl & fin & data & _ & _ & _ & _ & A & _ & R).
  destruct R as [(-> & _ & [Cf _] & Hr)
                | [(p & ps2 & d & _ & _ & _ & _ & _ & _ & Hr)
                  | (p & ps2 & e & _ & _ & _ & _ & _ & _ & _ & Hr)]];
    try (rewrite Hr in Hres; discriminate Hres).
  assert (Hes : archive o = expected_archive file root).
  { rewrite (expected_archive_scan file root Hsd). symmetry.
    apply added_entries_of; [exact Hsd|apply incl_refl|exact A]. }
  split; [|split; [exact Hes|]].
  - rewrite <- Hwalk. apply forallb_forall. intros q Hq.
    assert (Hq' : In q (rglob root (script_dir file))).
    { apply filter_In in Hq. destruct Hq as [Hq _].
      now rewrite scan_rglob in Hq by exact Hsd. }
    unfold readable. rewrite <- (Hlook q Hq').
    destruct (Forall2_In_l _ _ _ _ A Hq) as (e & _ & _ & _ & Hd).
    apply (readable_file_of (scan_fs file root) q true (snd e)). apply Hd.
    apply filter_In in Hq.
    apply (walk_not_archive file root _ Hsd (incl_refl _)). apply Hq.
  - rewrite <- Hes. rewrite Hr in Hres.
    destruct fin; [|discriminate Hres].
    symmetry in Cf. now apply Nat.leb_le in Cf.
Qed.

Lemma success_needs_witness :
  let o := run demo_body demo_trailer demo_file demo_tree 100 in
  let es := expected_archive demo_file demo_tree in
  normalized demo_file = true
  /\ script_dir demo_file <> []
  /\ res o = Return tt
  /\ (destination_ok demo_tree (zip_path demo_file) = true
      /\ forallb (readable demo_tree)
           (filter (qualifies demo_tree)
              (rglob demo_tree (script_dir demo_file))) = true
      /\ archive o = es
      /\ List.length (demo_body es ++ demo_trailer es)
         <= 100 + old_size demo_tree (zip_path demo_file)).
Proof.
  split; [reflexivity|]. split; [discriminate|]. split; [reflexivity|].
  apply (success_needs demo_body demo_trailer demo_file demo_tree 100);
    [reflexivity | discriminate | reflexivity].
Defined.

(** ** Directories *)

(** X9. Empty directories are not archived.  The loop adds regular files
    only, so, for a script path without [..] whose directory is not the
    root, an empty directory below the source directory has no entry and
    none below it, and extracting the archive of a successful run does not
    bring it back. *)
Theorem empty_directory_not_archived
  (body trailer : list entry -> bytes) (file : Path) (root : node) (space : nat)
  (r : Path) (l w : bool) :
  let o := run body trailer file root space in
  normalized file = true ->
  wf root = true ->
  res o = Return tt ->
  script_dir file <> [] ->
  lookup root (script_dir file ++ r) = Some (Dir l w []) ->
  (forall x, ~ In (skill_name file :: r ++ x) (namelist o))
  /\ exists t,
       extractall (archive o) (Dir true true []) = Some t
       /\ lookup t (skill_name file :: r) = None.
Proof.
  intros o _ Hwf Hres Hsd Hdir.
  assert (Hno : forall x, ~ In (skill_name file :: r ++ x) (namelist o)).
  { intros x Hin. unfold namelist in Hin. apply in_map_iff in Hin.
    destruct Hin as ([n d] & E & Hin). simpl in E. subst n.
    destruct (archive_data body trailer file root space _ _ Hsd Hin)
      as (_ & _ & Hd).
    replace (parent (script_dir file) ++ skill_name file :: r ++ x)
      with (script_dir file ++ r ++ x) in Hd
      by (rewrite (script_dir_split file Hsd) at 1;
          now rewrite <- app_assoc).
    rewrite scan_fs_below in Hd by exact Hsd.
    rewrite app_assoc, lookup_app, Hdir in Hd.
    destruct x; discriminate Hd. }
  split; [exact Hno|].
  destruct (extractall_spec (archive o) (Dir true true []) [])
    as (t & E & _ & Hnodes & _).
  - split; [reflexivity|]. split.
    + intros q m El. destruct q; [now left | discriminate El].
    + intros q d [].
  - apply (namelist_NoDup body trailer file root space Hwf Hres).
  - apply (namelist_prefix_free body trailer file root space Hres).
  - apply (namelist_nonempty body trailer file root space).
  - exists t. split; [exact E|].
    destruct (lookup t (skill_name file :: r)) as [m|] eqn:El;
      [exfalso|reflexivity].
    simpl in Hnodes.
    destruct (Hnodes _ _ El) as [E0 | [(d & _ & Hin) | (_ & b & x & Hb & -> & _)]].
    + discriminate E0.
    + apply (Hno []). rewrite app_nil_r. unfold namelist.
      apply in_map_iff. now exists (skill_name file :: r, d).
    + apply (Hno x). exact Hb.
Qed.

Lemma empty_directory_not_archived_witness :
  let o := run demo_body demo_trailer demo_file demo_tree_empty_dir 100 in
  normalized demo_file = true
  /\ wf demo_tree_empty_dir = true
  /\ res o = Return tt
  /\ script_dir demo_file <> []
  /\ lookup demo_tree_empty_dir (script_dir demo_file ++ ["logs"])
     = Some (Dir true true [])
  /\ (forall x, ~ In (skill_name demo_file :: ["logs"] ++ x) (namelist o))
  /\ exists t,
       extractall (archive o) (Dir true true []) = Some t
       /\ lookup t (skill_name demo_file :: ["logs"]) = None.
Proof.
  split; [reflexivity|]. split; [reflexivity|]. split; [reflexivity|].
  split; [discriminate|]. split; [reflexivity|].
  apply (empty_directory_not_archived demo_body demo_trailer demo_file
           demo_tree_empty_dir 100 ["logs"] true true);
    [reflexivity | reflexivity | reflexivity | discriminate | reflexivity].
Defined.

(** ** What the archive depends on *)

Lemma success_expected
  (body trailer : list entry -> bytes) (file : Path) (root : node) (space : nat) :
  script_dir file <> [] ->
  res (run body trailer file root space) = Return tt ->
  archive (run body trailer file root space) = expected_archive file root.
Proof.
  intros Hsd Hres.
  destruct (success_packaged body trailer file root space Hres)
    as (fsA & freeA & pre & _ & _ & A & _).
  rewrite (expected_archive_scan file root Hsd). symmetry.
  apply added_entries_of; [exact Hsd|apply incl_refl|exact A].
Qed.

Lemma expected_archive_source (file : Path) (root root' : node) :
  lookup root (script_dir file) = lookup root' (script_dir file) ->
  expected_archive file root = expected_archive file root'.
Proof.
  intros H. unfold expected_archive, rglob. rewrite H.
  apply entries_of_ext. intros p Hp.
  assert (Hp' : In p (rglob root' (script_dir file))) by exact Hp.
  destruct (rglob_below _ _ _ Hp') as (r & _ & ->).
  now rewrite !lookup_app, H.
Qed.

(** X11. The archive depends on the source directory alone.  Two runs
    that succeed, on machines that agree on what the source directory
    holds, leave the same entries, names and bytes, in the same order,
    whatever else differs: an old archive and what it held, other
    directories, the free space, the layout of the archive file.  Nothing
    of an old archive is carried over.  The source directory must not be the
    root. *)
Theorem archive_depends_on_source_only
  (body trailer body' trailer' : list entry -> bytes) (file : Path)
  (root root' : node) (space space' : nat) :
  script_dir file <> [] ->
  lookup root (script_dir file) = lookup root' (script_dir file) ->
  res (run body trailer file root space) = Return tt ->
  res (run body' trailer' file root' space') = Return tt ->
  archive (run body trailer file root space)
  = archive (run body' trailer' file root' space').
Proof.
  intros Hsd Hsame Hres Hres'.
  rewrite (success_expected body trailer file root space Hsd Hres).
  rewrite (success_expected body' trailer' file root' space' Hsd Hres').
  now apply expected_archive_source.
Qed.

Lemma archive_depends_on_source_only_witness :
  let root' := fs (post (run demo_body demo_trailer demo_file demo_tree 100)) in
  script_dir demo_file <> []
  /\ lookup demo_tree (script_dir demo_file) = lookup root' (script_dir demo_file)
  /\ lookup demo_tree (zip_path demo_file) = None
  /\ lookup root' (zip_path demo_file) <> None
  /\ archive (run demo_body demo_trailer demo_file demo_tree 100)
     = archive (run demo_body demo_trailer demo_file root' 7).
Proof.
  split; [discriminate|]. split; [reflexivity|]. split; [reflexivity|].
  split; [discriminate|].
  apply (archive_depends_on_source_only demo_body demo_trailer
           demo_body demo_trailer demo_file demo_tree
           (fs (post (run demo_body demo_trailer demo_file demo_tree 100)))
           100 7);
    [discriminate | reflexivity | reflexivity | reflexivity].
Defined.
